(** * The typing simulator: state engine, statistics and report

    A shallow embedding of the page script [typing-simulator.js]: the
    version with the key filter, the on-screen keyboard, the live
    statistics and the statistics report. The version under [client/],
    which has neither key filter nor keyboard, is [Plain].

    - A JavaScript string is the list of its UTF-16 code units ([jsstring]).
    - The module-level variables of the script are the fields of [State];
      the functions take the state and return the new one.
    - [Date.now()] is an argument of the functions that read the clock.
    - [String.prototype.toLowerCase] is a parameter of the engine, and so
      is [querySelector] on the keyboard container, which throws on a
      selector it cannot parse.
    - A call that can be left by an exception returns an [outcome]: what
      it leaves when it returns, or what it leaves when it throws. The
      page goes on with what an exception left.
    - The input handler comes in three layers. [handleInput] gives the
      variables it leaves when no call of [highlightKey] throws, as with
      the keyboard disabled. [handleInput_keyboard] has the calls of
      [highlightKey] in their place, and [handleInput_page] is the whole
      handler, with [renderText] and [updateRealtimeStats] at its end,
      which an exception before them skips. [restart_page] and
      [handleKeyDown] are the whole handlers as well, and [page_session]
      runs them from [initialize] on.
    - The counters are natural numbers ([N]). The figures derived from
      them, which the script computes in doubles, are computed in exact
      rational arithmetic ([Q]), and [toFixed], [parseFloat], [parseInt]
      and [Number::toString] work on these exact values. The script
      rounds to the nearest double at each step: where a quotient falls
      on a rounding tie of [toFixed], and for integers from 2^53 on, its
      last digit can differ from the one computed here. What is stated
      of the figures is stated of the exact values.
    - Beside these: the spans [renderText] writes ([typing_spans],
      [renderText_spans]), the on-screen keyboard with its highlight and
      its timers ([highlightKey], [timeout]), the live statistics with
      their interval ([updateRealtimeStats]), and the help modal
      ([HelpModal]). *)

From Stdlib Require Import ZArith NArith QArith Qround Lia List String Ascii Bool.
From stdpp Require Import base decidable list gmap.

Local Open Scope nat_scope.

(** ** Strings *)

Abbreviation jsstring := (list N).

(** A string literal of the script, as code units. *)
Definition js (s : string) : jsstring :=
  map N_of_ascii (list_ascii_of_string s).

Definition str_eqb (a b : jsstring) : bool := bool_decide (a = b).

(** WhiteSpace and LineTerminator code units: what [trim], [trimEnd] and
    the regular-expression class [\s] take for white space. *)
Definition is_space (c : N) : bool :=
  ((c =? 9) || (c =? 10) || (c =? 11) || (c =? 12) || (c =? 13) || (c =? 32)
   || (c =? 160) || (c =? 5760) || ((8192 <=? c) && (c <=? 8202))
   || (c =? 8232) || (c =? 8233) || (c =? 8239) || (c =? 8287)
   || (c =? 12288) || (c =? 65279))%N.

Fixpoint trimStart (s : jsstring) : jsstring :=
  match s with
  | c :: s' => if is_space c then trimStart s' else s
  | [] => []
  end.

Definition trimEnd (s : jsstring) : jsstring := rev (trimStart (rev s)).

Definition trim (s : jsstring) : jsstring := trimEnd (trimStart s).

(** [s.slice(0, n)] and [s.slice(n)] for [n] a length. *)
Definition slice_to (n : nat) (s : jsstring) : jsstring := take n s.
Definition slice_from (n : nat) (s : jsstring) : jsstring := drop n s.

(** ** Character states *)

(** The entries of [charStates]; [Undefined] is what a JavaScript array
    holds in the holes a store past its end leaves. *)
Inductive CharState := Pending | Correct | Incorrect | Undefined.

#[global] Instance CharState_eq_dec : EqDecision CharState.
Proof. solve_decision. Defined.

(** [a[i] = v] on a JavaScript array: in range it overwrites, past the end
    it extends the array. *)
Definition array_store (i : nat) (v : CharState) (a : list CharState)
  : list CharState :=
  if decide (i < length a) then <[i := v]> a
  else a ++ replicate (i - length a) Undefined ++ [v].

(** ** The variables of the script *)

Record State := mkState {
  originalText : jsstring;
  typedText : jsstring;
  charStates : list CharState;
  startTime : option Z;
  totalErrors : N;
  totalInputs : N;
  availableKeysSet : gset jsstring
}.

(** ** Completion *)

(** The test at the head of [renderText]. *)
Definition isComplete (reference typed : jsstring) : bool :=
  bool_decide (length (trimEnd typed) = length (trimEnd reference)).

Inductive Screen := CompletionScreen | TypingText.

(** What [renderText] shows ([textContainer] is set whenever the input
    handler is installed). *)
Definition renderText (st : State) : Screen :=
  if isComplete (originalText st) (typedText st)
  then CompletionScreen else TypingText.

(** ** Statistics *)

(** [s.split(/\s+/)]: the pieces between the maximal runs of white space;
    a run at either end leaves an empty piece there. [inrun] tells that the
    previous code unit was white space, [cur] is the piece being read. *)
Fixpoint split_ws (inrun : bool) (cur : jsstring) (s : jsstring)
  : list jsstring :=
  match s with
  | [] => [cur]
  | c :: s' =>
      if is_space c
      then if inrun then split_ws true [] s' else cur :: split_ws true [] s'
      else split_ws false (cur ++ [c]) s'
  end.

(** [originalText.trim().split(/\s+/).filter(word => word.length > 0).length] *)
Definition wordsTyped (original : jsstring) : nat :=
  length (filter (fun word => 0 < length word)
            (split_ws false [] (trim original))).

(** The loop that counts the ['incorrect'] entries. *)
Fixpoint countIncorrect (cs : list CharState) : N :=
  match cs with
  | [] => 0
  | s :: cs' =>
      (if decide (s = Incorrect) then 1 else 0) + countIncorrect cs'
  end%N.

(** [q > 0] *)
Definition Qpositive (q : Q) : bool := (0 <? Qnum q)%Z.

Module Live.
Record counts := mkChars { typed : nat; total : nat }.
Record t := mk {
  speed : Q;
  accuracy : Q;
  time : Q;
  errors : N;
  errorsLeft : N;
  chars : counts
}.
End Live.

Module Final.
Record t := mk {
  totalErrors : N;
  errorsLeft : N;
  totalTime : Q;
  accuracy : Q;
  speed : Q
}.
End Final.

(** [currentTime], like [endTime] below, is what [Date.now()] returns. *)
Definition calculateRealtimeStats (st : State) (currentTime : Z) : Live.t :=
  let charsTyped := length (typedText st) in
  let charsTotal := length (originalText st) in
  match startTime st with
  | None => Live.mk 0 0 0 0 0 (Live.mkChars charsTyped charsTotal)
  | Some startTime =>
      let totalTimeSeconds := (inject_Z (currentTime - startTime) / 1000)%Q in
      let totalTimeMinutes := (totalTimeSeconds / 60)%Q in
      let errorsLeft := countIncorrect (charStates st) in
      let correctInputs :=
        inject_Z (Z.of_N (totalInputs st) - Z.of_N (totalErrors st)) in
      let accuracy :=
        if (0 <? totalInputs st)%N
        then ((correctInputs / inject_Z (Z.of_N (totalInputs st))) * 100)%Q
        else 0%Q in
      let wordsTyped := wordsTyped (originalText st) in
      let wpm :=
        if Qpositive totalTimeMinutes
        then (inject_Z (Z.of_nat wordsTyped) / totalTimeMinutes)%Q
        else 0%Q in
      Live.mk wpm accuracy totalTimeSeconds (totalErrors st) errorsLeft
        (Live.mkChars charsTyped charsTotal)
  end.

(** [None] is the [null] the script returns when no typing started. *)
Definition calculateStatistics (st : State) (endTime : Z) : option Final.t :=
  match startTime st with
  | None => None
  | Some startTime =>
      let totalTimeSeconds := (inject_Z (endTime - startTime) / 1000)%Q in
      let totalTimeMinutes := (totalTimeSeconds / 60)%Q in
      let errorsLeft := countIncorrect (charStates st) in
      let correctInputs :=
        inject_Z (Z.of_N (totalInputs st) - Z.of_N (totalErrors st)) in
      let accuracy :=
        if (0 <? totalInputs st)%N
        then ((correctInputs / inject_Z (Z.of_N (totalInputs st))) * 100)%Q
        else 0%Q in
      let wordsTyped := wordsTyped (originalText st) in
      let wpm :=
        if Qpositive totalTimeMinutes
        then (inject_Z (Z.of_nat wordsTyped) / totalTimeMinutes)%Q
        else 0%Q in
      Some (Final.mk (totalErrors st) errorsLeft totalTimeSeconds accuracy wpm)
  end.

(** ** Numbers as text *)

Definition is_digit (c : N) : bool := ((48 <=? c) && (c <=? 57))%N.
Definition is_digit_or_dot (c : N) : bool := is_digit c || (c =? 46)%N.

Fixpoint digits_from (fuel : nat) (n : N) (acc : jsstring) : jsstring :=
  match fuel with
  | O => acc
  | S fuel' =>
      let acc' := (48 + n mod 10)%N :: acc in
      if (n / 10 =? 0)%N then acc' else digits_from fuel' (n / 10) acc'
  end.

(** The digits of the decimal representation of [n]. *)
Definition decimal (n : N) : jsstring :=
  digits_from (S (N.to_nat (N.log2 n))) n [].

(** The value of a run of decimal digits. *)
Definition digits_value (s : jsstring) : N :=
  fold_left (fun a c => a * 10 + (c - 48))%N s 0%N.

Fixpoint digit_prefix (s : jsstring) : jsstring :=
  match s with
  | c :: s' => if is_digit c then c :: digit_prefix s' else []
  | [] => []
  end.

(** Exponential notation, which [Number::toString] uses from 10^21 on:
    the shortest digit string [s] (of [k] digits) for which [s * 10^(n-k)]
    rounds to the double [v], then [e+] and [n - 1]. [v] is taken to be a
    double: 53 significant bits, so that its neighbours are one unit in
    the last place away. *)
Section Exponential.
Local Open Scope Z_scope.
Variable v : Z.

Let e2 : Z := Z.log2 v + 1 - 53.
Let mant : Z := v / 2 ^ e2.
Let hi : Z := v + 2 ^ (e2 - 1).
Let lo : Z := v - (if mant =? 2 ^ 52 then 2 ^ (e2 - 2) else 2 ^ (e2 - 1)).
Let closed : bool := Z.even mant.

(** Does the decimal value [d] round to [v]? *)
Definition rounds_here (d : Z) : bool :=
  if closed then (lo <=? d) && (d <=? hi) else (lo <? d) && (d <? hi).

(** The digit string of [k] digits nearest to [v] with weight [p], if
    it rounds to [v]. *)
Definition candidate (k : nat) (p : Z) : option Z :=
  let s_near := (2 * v + p) / (2 * p) in
  let s_down := v / p in
  let s_up := s_down + 1 in
  let ok s := rounds_here (s * p) && (10 ^ (Z.of_nat k - 1) <=? s)
              && (s <? 10 ^ Z.of_nat k) in
  if ok s_near then Some s_near
  else if ok s_down then Some s_down
  else if ok s_up then Some s_up
  else None.

Fixpoint shortest (fuel k : nat) (nd : nat) : Z :=
  match fuel with
  | O => v
  | S fuel' =>
      match candidate k (10 ^ Z.of_nat (nd - k)) with
      | Some s => s
      | None => shortest fuel' (S k) nd
      end
  end.
End Exponential.

Definition exponential (v : N) : jsstring :=
  let nd := length (decimal v) in
  let '(s, n) :=
    if rounds_here (Z.of_N v) (10 ^ Z.of_nat nd)
    then (1%Z, S nd)
    else (shortest (Z.of_N v) nd 1 nd, nd) in
  let ds := decimal (Z.to_N s) in
  let mantissa :=
    match ds with
    | d :: (_ :: _) as more => d :: 46%N :: more
    | _ => ds
    end in
  mantissa ++ js "e+" ++ decimal (N.of_nat (n - 1)).

(** [Number::toString] on a non-negative integer, as the template literal
    applies it to the two counters. *)
Definition Number_toString (v : N) : jsstring :=
  if (v <? 10 ^ 21)%N then decimal v else exponential v.

(** [x.toFixed(2)]: from 10^21 on it is [Number::toString] (every double
    there is an integer); below, the integer [n] nearest to [100 x], the
    larger one on a tie, is written with a point before its last two
    digits. *)
Definition toFixed2_abs (x : Q) : jsstring :=
  if Qle_bool (10 ^ 21) x
  then Number_toString (Z.to_N (Qfloor x))
  else
    let n :=
      Z.to_N ((200 * Qnum x + Z.pos (Qden x)) / (2 * Z.pos (Qden x)))%Z in
    let m := decimal n in
    let m := if decide (length m <= 2)
             then replicate (3 - length m) 48%N ++ m else m in
    let k := length m in
    take (k - 2) m ++ 46%N :: drop (k - 2) m.

Definition toFixed2 (x : Q) : jsstring :=
  if (Qnum x <? 0)%Z then 45%N :: toFixed2_abs (- x)%Q else toFixed2_abs x.

(** ** The report *)

Definition nl : jsstring := [10%N].

(** The text [saveStatistics] posts; [generated] is what
    [new Date().toLocaleString()] gives. *)
Definition statsText (stats : Final.t) (generated : jsstring) : jsstring :=
  js "Typing Statistics" ++ nl ++
  js "==================" ++ nl ++
  nl ++
  js "Total Errors Made: " ++ Number_toString (Final.totalErrors stats) ++ nl ++
  js "Errors Left (Unfixed): " ++ Number_toString (Final.errorsLeft stats) ++ nl ++
  js "Total Time: " ++ toFixed2 (Final.totalTime stats) ++ js " seconds" ++ nl ++
  js "Accuracy: " ++ toFixed2 (Final.accuracy stats) ++ js "%" ++ nl ++
  js "Speed: " ++ toFixed2 (Final.speed stats) ++ js " words per minute" ++ nl ++
  nl ++
  js "Generated: " ++ generated ++ nl.

(** [s.split('\n')]; [cur] is the line being read. *)
Fixpoint split_lines (cur : jsstring) (s : jsstring) : list jsstring :=
  match s with
  | [] => [cur]
  | c :: s' =>
      if (c =? 10)%N then cur :: split_lines [] s'
      else split_lines (cur ++ [c]) s'
  end.

Fixpoint starts_with (p s : jsstring) : bool :=
  match p, s with
  | [], _ => true
  | a :: p', b :: s' => (a =? b)%N && starts_with p' s'
  | _ :: _, [] => false
  end.

(** [s.includes(p)] *)
Fixpoint includes (s p : jsstring) : bool :=
  starts_with p s ||
  match s with
  | [] => false
  | _ :: s' => includes s' p
  end.

(** The regular expressions of [parseStatsText] are sequences of literal
    text, [\s*], and one group [(\d+)] or [([\d.]+)]. *)
Inductive atom :=
  | Lit (text : jsstring)
  | Star (class : N -> bool)
  | Group (class : N -> bool).

(** A greedy repetition with backtracking: the longest run of [class] is
    tried first, then shorter ones; [k] is the rest of the match. *)
Fixpoint greedy (class : N -> bool)
    (k : jsstring -> jsstring -> option jsstring)
    (taken rest : jsstring) : option jsstring :=
  match rest with
  | c :: rest' =>
      if class c then
        match greedy class k (taken ++ [c]) rest' with
        | Some r => Some r
        | None => k taken rest
        end
      else k taken rest
  | [] => k taken rest
  end.

(** A match that starts at the head of [s]; the result is the text of the
    group. *)
Fixpoint match_at (re : list atom) (group : jsstring) (s : jsstring)
  : option jsstring :=
  match re with
  | [] => Some group
  | Lit text :: re' =>
      if starts_with text s then match_at re' group (drop (length text) s)
      else None
  | Star class :: re' =>
      greedy class (fun _ rest => match_at re' group rest) [] s
  | Group class :: re' =>
      greedy class
        (fun taken rest =>
           match taken with
           | [] => None
           | _ => match_at re' taken rest
           end) [] s
  end.

(** [s.match(re)]: the leftmost match; the result is [match[1]]. *)
Fixpoint regexp_match (re : list atom) (s : jsstring) : option jsstring :=
  match match_at re [] s with
  | Some g => Some g
  | None =>
      match s with
      | [] => None
      | _ :: s' => regexp_match re s'
      end
  end.

Definition pow10 (n : nat) : positive := Nat.iter n (Pos.mul 10) 1%positive.

(** A number read from text. *)
Inductive number := NaN | Num (q : Q).

(** [parseInt(s, 10)] on a capture of [(\d+)]: no sign and no leading white
    space arise. *)
Definition parseInt (s : jsstring) : number :=
  match digit_prefix s with
  | [] => NaN
  | ds => Num (inject_Z (Z.of_N (digits_value ds)))
  end.

(** [parseFloat(s)] on a capture of [([\d.]+)]: the longest prefix
    [digits], [digits.digits], [digits.] or [.digits]; no sign, exponent
    or white space arise. *)
Definition parseFloat (s : jsstring) : number :=
  let whole := digit_prefix s in
  let fraction :=
    match drop (length whole) s with
    | c :: rest => if (c =? 46)%N then digit_prefix rest else []
    | [] => []
    end in
  match whole, fraction with
  | [], [] => NaN
  | _, _ =>
      Num (Z.of_N (digits_value (whole ++ fraction))
           # pow10 (length fraction))
  end.

Module Parsed.
(** The object [parseStatsText] fills; a field it did not set is [None]. *)
Record t := mk {
  totalErrors : option number;
  errorsLeft : option number;
  totalTime : option number;
  accuracy : option number;
  speed : option number
}.
Definition empty : t := mk None None None None None.
End Parsed.

Definition re_totalErrors : list atom :=
  [Lit (js "Total Errors Made:"); Star is_space; Group is_digit].
Definition re_errorsLeft : list atom :=
  [Lit (js "Errors Left (Unfixed):"); Star is_space; Group is_digit].
Definition re_totalTime : list atom :=
  [Lit (js "Total Time:"); Star is_space; Group is_digit_or_dot;
   Star is_space; Lit (js "seconds")].
Definition re_accuracy : list atom :=
  [Lit (js "Accuracy:"); Star is_space; Group is_digit_or_dot; Lit (js "%")].
Definition re_speed : list atom :=
  [Lit (js "Speed:"); Star is_space; Group is_digit_or_dot;
   Star is_space; Lit (js "words per minute")].

(** The body of the loop over the lines. *)
Definition parseLine (stats : Parsed.t) (line : jsstring) : Parsed.t :=
  let '(Parsed.mk errs unfixed secs acc wpm) := stats in
  if includes line (js "Total Errors Made:") then
    match regexp_match re_totalErrors line with
    | Some g => Parsed.mk (Some (parseInt g)) unfixed secs acc wpm
    | None => stats
    end
  else if includes line (js "Errors Left (Unfixed):") then
    match regexp_match re_errorsLeft line with
    | Some g => Parsed.mk errs (Some (parseInt g)) secs acc wpm
    | None => stats
    end
  else if includes line (js "Total Time:") then
    match regexp_match re_totalTime line with
    | Some g => Parsed.mk errs unfixed (Some (parseFloat g)) acc wpm
    | None => stats
    end
  else if includes line (js "Accuracy:") then
    match regexp_match re_accuracy line with
    | Some g => Parsed.mk errs unfixed secs (Some (parseFloat g)) wpm
    | None => stats
    end
  else if includes line (js "Speed:") then
    match regexp_match re_speed line with
    | Some g => Parsed.mk errs unfixed secs acc (Some (parseFloat g))
    | None => stats
    end
  else stats.

Definition parseStatsText (statsText : jsstring) : Parsed.t :=
  fold_left parseLine (split_lines [] statsText) Parsed.empty.

(** ** Vocabulary of the statements *)

(** The state the forward loop gives a position: [expected] is the code
    unit of the reference text, [typedChar] the one typed. *)
Definition mark (expected typedChar : N) : CharState :=
  if decide (expected = typedChar) then Correct else Incorrect.

Definition marks (expected typed : jsstring) : list CharState :=
  zip_with mark expected typed.

(** The number of typed code units that differ from the expected ones. *)
Definition mismatches (expected typed : jsstring) : nat :=
  length (filter (fun s => s = Incorrect) (marks expected typed)).

(** A state in which the typed prefix and the character states agree: the
    first [typedText.length] states are not ['pending'], the others are,
    and there is one state per code unit of the reference text. *)
Definition consistent (st : State) : Prop :=
  exists typed_states,
    charStates st =
      typed_states ++
      replicate (length (originalText st) - length (typedText st)) Pending
    /\ length typed_states = length (typedText st)
    /\ Forall (fun s => s <> Pending) typed_states
    /\ length (typedText st) <= length (originalText st)
    /\ (totalErrors st <= totalInputs st)%N.

(** Lower-casing of the letters A to Z, on which every implementation of
    [toLowerCase] agrees; used where a concrete run is evaluated. *)
Definition toLowerCase_basic (s : jsstring) : jsstring :=
  map (fun c => if ((65 <=? c) && (c <=? 90))%N then (c + 32)%N else c) s.

(** The number of white-space-delimited non-empty tokens of [s], counted
    at their first code units: [in_word] tells that the previous code unit
    belongs to a token. *)
Fixpoint word_starts (in_word : bool) (s : jsstring) : nat :=
  match s with
  | [] => 0
  | c :: s' =>
      if is_space c then word_starts false s'
      else (if in_word then 0 else 1) + word_starts true s'
  end.

(** The keys [isKeyAvailable] accepts before it looks at the configured
    set. *)
Definition always_available (toLowerCase : jsstring -> jsstring)
    (key : jsstring) : Prop :=
  key ∈ [js " "; [160%N]; js ","; js "."; js "Backspace"; [8%N];
         js "Enter"; js "Return"; [10%N]; [13%N]]
  \/ toLowerCase key ∈
       [js "space"; js "comma"; js "dot"; js "backspace"; js "enter"].

(** The accuracy as the script writes it. *)
Definition accuracy_formula (totalInputs totalErrors : N) : Q :=
  if (0 <? totalInputs)%N
  then ((inject_Z (Z.of_N totalInputs - Z.of_N totalErrors)
         / inject_Z (Z.of_N totalInputs)) * 100)%Q
  else 0%Q.

(** The speed as the script writes it, from the clock readings. *)
Definition speed_formula (original : jsstring) (start now : Z) : Q :=
  let elapsedMinutes := (inject_Z (now - start) / 1000 / 60)%Q in
  if Qpositive elapsedMinutes
  then (inject_Z (Z.of_nat (wordsTyped original)) / elapsedMinutes)%Q
  else 0%Q.

(** The integer nearest to [100 x], the larger one on a tie: what
    [toFixed(2)] writes, without the point. *)
Definition hundredths (x : Q) : N :=
  Z.to_N ((200 * Qnum x + Z.pos (Qden x)) / (2 * Z.pos (Qden x)))%Z.

(** A line on which [parseStatsText] finds none of its five labels. *)
Definition free_line (line : jsstring) : bool :=
  negb (includes line (js "Total Errors Made:"))
  && negb (includes line (js "Errors Left (Unfixed):"))
  && negb (includes line (js "Total Time:"))
  && negb (includes line (js "Accuracy:"))
  && negb (includes line (js "Speed:")).

(** A text all of whose lines are free of the labels. *)
Definition label_free (text : jsstring) : bool :=
  forallb free_line (split_lines [] text).

Definition no_newline (line : jsstring) : bool :=
  forallb (fun c => negb (c =? 10)%N) line.

Definition no_colon (s : jsstring) : bool :=
  forallb (fun c => negb (c =? 58)%N) s.

(** The five lines of the report that carry the figures, given the text
    of each figure. *)
Definition figure_lines (errs unfixed secs acc wpm : jsstring)
  : list jsstring :=
  [js "Total Errors Made: " ++ errs;
   js "Errors Left (Unfixed): " ++ unfixed;
   js "Total Time: " ++ secs ++ js " seconds";
   js "Accuracy: " ++ acc ++ js "%";
   js "Speed: " ++ wpm ++ js " words per minute"].

(** Lines, each followed by a line feed. *)
Definition unlines (lines : list jsstring) : jsstring :=
  flat_map (fun line => line ++ nl) lines.

(** The set of keys that [loadConfig] makes of the configuration
    [["a", "s", "d", "f"]]. *)
Definition home_row : gset jsstring :=
  list_to_set (map toLowerCase_basic [js "a"; js "s"; js "d"; js "f"]).

(** Final statistics, a date and surrounding text on which the report is
    evaluated; the text before the report holds a label and does not end
    its last line. *)
Definition sample_stats : Final.t :=
  Final.mk 3 1 (12345 # 1000) (200 # 3) (1234567 # 7).
Definition sample_date : jsstring := js "11/1/2026, 6:46:00 PM".
Definition sample_before : jsstring :=
  js "Speed: 1 words per minute" ++ nl ++ js "saved again: ".
Definition sample_after : jsstring := js "-- end of report".

(** ** The script without a key policy *)

(** The handlers of [client/typing-simulator.js], which has neither a key
    policy nor an on-screen keyboard. They work on the same variables;
    [availableKeysSet] is not among them and is carried along. *)
Module Plain.

(** The loop over [newChars] in the forward branch; [i] is [charIndex]. *)
Fixpoint forward (orig newChars : jsstring) (i : nat)
    (cs : list CharState) (inputs errors : N) : list CharState * N * N :=
  match newChars with
  | [] => (cs, inputs, errors)
  | typedChar :: rest =>
      if decide (length orig <= i) then (cs, inputs, errors)
      else if bool_decide (orig !! i = Some typedChar)
      then forward orig rest (S i) (array_store i Correct cs)
             (inputs + 1)%N errors
      else forward orig rest (S i) (array_store i Incorrect cs)
             (inputs + 1)%N (errors + 1)%N
  end.

(** The loop of the backspace branch, from [i] for [n] rounds. *)
Fixpoint backward (n : nat) (i : nat) (cs : list CharState)
  : list CharState :=
  match n with
  | O => cs
  | S n' =>
      backward n' (S i)
        (if decide (i < length cs) then array_store i Pending cs else cs)
  end.

Definition handleInput (st : State) (value : jsstring) (now : Z) : State :=
  let input := value in
  let startTime' :=
    match startTime st with
    | None => if decide (0 < length input) then Some now else None
    | Some t => Some t
    end in
  let input :=
    if decide (length (originalText st) < length input)
    then slice_to (length (originalText st)) input else input in
  let inputLength := length input in
  let typedLength := length (typedText st) in
  if decide (typedLength < inputLength) then
    let newChars := slice_from typedLength input in
    let '(cs, inputs, errors) :=
      forward (originalText st) newChars typedLength (charStates st)
        (totalInputs st) (totalErrors st) in
    mkState (originalText st) input cs startTime' errors inputs
      (availableKeysSet st)
  else if decide (inputLength < typedLength) then
    mkState (originalText st) input
      (backward (length (originalText st) - inputLength) inputLength
         (charStates st))
      startTime' (totalErrors st) (totalInputs st) (availableKeysSet st)
  else
    mkState (originalText st) (typedText st) (charStates st) startTime'
      (totalErrors st) (totalInputs st) (availableKeysSet st).

(** [handleKeyDown]: does it call [preventDefault]? *)
Definition handleKeyDown (key value : jsstring) : bool :=
  str_eqb key (js "Backspace") && bool_decide (length value = 0).

(** The loop of [restart] over [charStates]. *)
Fixpoint clear (cs : list CharState) : list CharState :=
  match cs with
  | [] => []
  | _ :: cs' => Pending :: clear cs'
  end.

Definition restart (st : State) : State :=
  mkState (originalText st) [] (clear (charStates st)) None 0%N 0%N
    (availableKeysSet st).

End Plain.


(** ** Calls that can throw *)

(** How a call ends: it returns, or an exception leaves it; either way
    with the variables as they are at that point. *)
Inductive outcome (A : Type) :=
  | Returned (a : A)
  | Thrown (a : A).
Arguments Returned {A} a.
Arguments Thrown {A} a.

(** The variables after a call, however it ended: the page goes on with
    them. *)
Definition settled {A} (r : outcome A) : A :=
  match r with
  | Returned a => a
  | Thrown a => a
  end.

(** ** The help modal *)

(** The class [HelpModal] of [client/help-modal.js]. *)
Module HelpModal.

(** [this.modal.style.display] *)
Inductive display := DisplayNone | DisplayFlex.

(** [document.body.style.overflow]; [OverflowOther] stands for what the
    page may have set itself. *)
Inductive overflow := OverflowUnset | OverflowHidden | OverflowOther.

(** The element that has the focus, as far as the modal moves it. *)
Inductive focus := FocusCloseButton | FocusTrigger | FocusElsewhere.

(** The custom events [helpModal:open] and [helpModal:close]. *)
Inductive custom_event := HelpModalOpen | HelpModalClose.

(** An instance with the part of the page it acts on. [trigger] tells
    whether [this.trigger] is an element ([false] is [null]); [attached]
    whether [this.modal] has a parent node; [body] is the content of the
    element of class [modal-body]; [dispatched] lists the custom events
    dispatched so far, the oldest first. *)
Record t := mk {
  isOpen : bool;
  modal_display : display;
  body_overflow : overflow;
  trigger : bool;
  attached : bool;
  body : jsstring;
  focused : focus;
  dispatched : list custom_event
}.

(** [new HelpModal(options)]: [createModal], then [bindEvents], which
    finds the trigger element or does not. [page_overflow] and
    [page_focus] are what the page has at that time. *)
Definition init (content : jsstring) (trigger_found : bool)
    (page_overflow : overflow) (page_focus : focus) : t :=
  mk false DisplayNone page_overflow trigger_found true content page_focus
    [].

(** [el.focus()] moves the focus when [el] is in the document. *)
Definition open (m : t) : outcome t :=
  if isOpen m then Returned m
  else
    let m :=
      mk true DisplayFlex OverflowHidden (trigger m) (attached m) (body m)
        (if attached m then FocusCloseButton else focused m)
        (dispatched m) in
    if trigger m
    then Returned
           (mk (isOpen m) (modal_display m) (body_overflow m) (trigger m)
              (attached m) (body m) (focused m)
              (dispatched m ++ [HelpModalOpen]))
    else Thrown m.

Definition close (m : t) : outcome t :=
  if negb (isOpen m) then Returned m
  else
    let m :=
      mk false DisplayNone OverflowUnset (trigger m) (attached m) (body m)
        (focused m) (dispatched m) in
    if trigger m
    then Returned
           (mk (isOpen m) (modal_display m) (body_overflow m) (trigger m)
              (attached m) (body m) FocusTrigger
              (dispatched m ++ [HelpModalClose]))
    else Thrown m.

(** Removing the modal from the document takes the focus from its close
    button, which falls back to the body of the page. *)
Definition destroy (m : t) : t :=
  mk (isOpen m) (modal_display m) OverflowUnset (trigger m) false (body m)
    (if attached m
     then match focused m with
          | FocusCloseButton => FocusElsewhere
          | f => f
          end
     else focused m)
    (dispatched m).

Definition updateContent (newContent : jsstring) (m : t) : t :=
  mk (isOpen m) (modal_display m) (body_overflow m) (trigger m) (attached m)
    newContent (focused m) (dispatched m).

(** What can happen to an instance: a call of its public methods, or an
    event of the page for which [bindEvents] may have installed a
    handler. *)
Inductive event :=
  | Open
  | Close
  | Destroy
  | UpdateContent (newContent : jsstring)
  | TriggerClick
  | CloseButtonClick
  | BackdropClick
  | KeyDown (key : jsstring).

(** [bindEvents] installs its handlers only when it found the trigger. *)
Definition step (m : t) (e : event) : t :=
  match e with
  | Open => settled (open m)
  | Close => settled (close m)
  | Destroy => destroy m
  | UpdateContent newContent => updateContent newContent m
  | TriggerClick => if trigger m then settled (open m) else m
  | CloseButtonClick | BackdropClick =>
      if trigger m then settled (close m) else m
  | KeyDown key =>
      if trigger m && str_eqb key (js "Escape") && isOpen m
      then settled (close m) else m
  end.

Definition run (m : t) (es : list event) : t := fold_left step es m.

(** Events that come from the page, not from a call of a method. *)
Definition from_page (e : event) : bool :=
  match e with
  | TriggerClick | CloseButtonClick | BackdropClick | KeyDown _ => true
  | _ => false
  end.

Definition is_destroy (e : event) : bool :=
  match e with
  | Destroy => true
  | _ => false
  end.

(** Custom events that alternate, an open one first when [expect_open]. *)
Fixpoint alternate (expect_open : bool) (l : list custom_event) : bool :=
  match l with
  | [] => true
  | HelpModalOpen :: l' => expect_open && alternate false l'
  | HelpModalClose :: l' => negb expect_open && alternate true l'
  end.

End HelpModal.


(** ** The text on the page *)

(** What a span shows: a no-break space, a line break, or the code unit
    as [escapeHtml] writes it. *)
Inductive displayChar := Nbsp | Br | Escaped (char : N).

(** [<span class="className">displayChar</span>] *)
Record span := mkSpan {
  className : jsstring;
  shown : displayChar
}.

(** The loop of [renderText] over the reference text, from index [i];
    [chars] is what is left of the reference text there. *)
Fixpoint render_from (st : State) (i : nat) (chars : jsstring) : list span :=
  match chars with
  | [] => []
  | char :: rest =>
      let state := charStates st !! i in
      let className :=
        js "char-" ++
        (if decide (i < length (typedText st))
         then if decide (state = Some Incorrect)
              then js "incorrect" else js "correct"
         else js "pending") in
      let displayChar :=
        if (char =? 32)%N then Nbsp
        else if (char =? 10)%N then Br
        else Escaped char in
      let className :=
        if decide (i = length (typedText st))
        then className ++ js " cursor-position" else className in
      mkSpan className displayChar :: render_from st (S i) rest
  end.

(** The spans [renderText] puts in the text container when the exercise
    is not complete. *)
Definition typing_spans (st : State) : list span :=
  render_from st 0 (originalText st)
  ++ (if decide (length (typedText st) = length (originalText st))
      then [mkSpan (js "char-pending cursor-position") Nbsp] else []).

(** Does the span carry the class [cursor-position]? *)
Definition at_cursor (s : span) : bool :=
  includes (className s) (js "cursor-position").

(** The class of a position from its entry in [charStates]. *)
Definition class_of (state : CharState) : jsstring :=
  match state with
  | Pending => js "char-pending"
  | Correct => js "char-correct"
  | Incorrect => js "char-incorrect"
  | Undefined => js "char-undefined"
  end.


(** ** The live statistics on the page *)

(** [x.toFixed(digits)], as [toFixed2] above for two digits: the integer
    [n] nearest to [10^digits x], the larger one on a tie, is written
    with a point before its last [digits] digits. *)
Definition toFixed_abs (digits : nat) (x : Q) : jsstring :=
  if Qle_bool (10 ^ 21) x
  then Number_toString (Z.to_N (Qfloor x))
  else
    let n :=
      Z.to_N ((2 * 10 ^ Z.of_nat digits * Qnum x + Z.pos (Qden x))
              / (2 * Z.pos (Qden x)))%Z in
    let m := decimal n in
    if decide (digits = 0) then m
    else
      let m := if decide (length m <= digits)
               then replicate (digits + 1 - length m) 48%N ++ m else m in
      let k := length m in
      take (k - digits) m ++ 46%N :: drop (k - digits) m.

Definition toFixed (digits : nat) (x : Q) : jsstring :=
  if (Qnum x <? 0)%Z then 45%N :: toFixed_abs digits (- x)%Q
  else toFixed_abs digits x.

(** The [format] of the entry [time] of [statMap]; [v % 60] is taken of a
    [v] that is at least 60. *)
Definition format_time (v : Q) : jsstring :=
  if negb (Qle_bool 60 v) then toFixed 1 v ++ js "s"
  else
    let minutes := Qfloor (v / 60) in
    let seconds := toFixed 1 (v - 60 * inject_Z minutes) in
    Number_toString (Z.to_N minutes) ++ js "m " ++ seconds ++ js "s".

(** A [realtime-stat-item]: the texts of its label and of its value. *)
Record stat_item := mkItem {
  stat_label : jsstring;
  stat_value : jsstring
}.

(** [statMap[statKey]] for the keys [statMap] has itself, with the value
    formatted. *)
Definition statMap (stats : Live.t) (statKey : jsstring) : option stat_item :=
  if str_eqb statKey (js "speed")
  then Some (mkItem (js "WPM") (toFixed 1 (Live.speed stats)))
  else if str_eqb statKey (js "accuracy")
  then Some (mkItem (js "Accuracy")
               (toFixed 1 (Live.accuracy stats) ++ js "%"))
  else if str_eqb statKey (js "time")
  then Some (mkItem (js "Time") (format_time (Live.time stats)))
  else if str_eqb statKey (js "errors")
  then Some (mkItem (js "Errors") (Number_toString (Live.errors stats)))
  else if str_eqb statKey (js "errorsLeft")
  then Some (mkItem (js "Errors Left")
               (Number_toString (Live.errorsLeft stats)))
  else if str_eqb statKey (js "chars")
  then Some (mkItem (js "Chars")
               (Number_toString (N.of_nat (Live.typed (Live.chars stats)))
                ++ js "/"
                ++ Number_toString
                     (N.of_nat (Live.total (Live.chars stats)))))
  else None.

(** [realtimeStatsContainer.style.display], as far as the script sets
    it. *)
Inductive container_display := DisplayAsStyled | DisplayNone | DisplayFlex.

(** The live statistics on the page: the display of their container, its
    items, the variable [realtimeStatsInterval], and the intervals that
    are running. [intervals_issued] is the last identifier the host gave
    out; identifiers are positive and not reused. *)
Record Realtime := mkRealtime {
  stats_display : container_display;
  stat_items : list stat_item;
  realtimeStatsInterval : option nat;
  intervals : gset nat;
  intervals_issued : nat
}.

Section Realtime.

(** Whether the page has the element [realtime-stats-container]. *)
Variable realtimeStatsContainer : bool.

(** [config.realTimeStats]; the empty list also stands for a value that
    is missing or not an array. *)
Variable realTimeStats : list jsstring.

(** The names of the properties of [Object.prototype]: [statMap]
    inherits them, and what it inherits has no [format]. *)
Variable inherited : gset jsstring.

(** The [forEach] over the configured keys; [items] are the items
    appended so far. A key that [statMap] only inherits makes the call
    of [format] throw. *)
Fixpoint append_items (stats : Live.t) (statKeys : list jsstring)
    (items : list stat_item) : outcome (list stat_item) :=
  match statKeys with
  | [] => Returned items
  | statKey :: rest =>
      match statMap stats statKey with
      | Some item => append_items stats rest (items ++ [item])
      | None =>
          if bool_decide (statKey ∈ inherited) then Thrown items
          else append_items stats rest items
      end
  end.

(** [updateRealtimeStats]; [now] is what [Date.now()] returns in
    [calculateRealtimeStats]. *)
Definition updateRealtimeStats (st : State) (now : Z) (rt : Realtime)
  : outcome Realtime :=
  if negb realtimeStatsContainer then Returned rt
  else if bool_decide (realTimeStats = []) then
    match realtimeStatsInterval rt with
    | Some id =>
        Returned
          (mkRealtime DisplayNone (stat_items rt) None
             (intervals rt ∖ {[id]}) (intervals_issued rt))
    | None =>
        Returned
          (mkRealtime DisplayNone (stat_items rt) None (intervals rt)
             (intervals_issued rt))
    end
  else
    let stats := calculateRealtimeStats st now in
    match append_items stats realTimeStats [] with
    | Thrown items =>
        Thrown
          (mkRealtime DisplayFlex items (realtimeStatsInterval rt)
             (intervals rt) (intervals_issued rt))
    | Returned items =>
        match startTime st, realtimeStatsInterval rt with
        | Some _, None =>
            let id := S (intervals_issued rt) in
            Returned
              (mkRealtime DisplayFlex items (Some id)
                 (intervals rt ∪ {[id]}) id)
        | _, _ =>
            Returned
              (mkRealtime DisplayFlex items (realtimeStatsInterval rt)
                 (intervals rt) (intervals_issued rt))
        end
    end.

(** What [restart] does first to the interval. *)
Definition clear_interval (rt : Realtime) : Realtime :=
  match realtimeStatsInterval rt with
  | Some id =>
      mkRealtime (stats_display rt) (stat_items rt) None
        (intervals rt ∖ {[id]}) (intervals_issued rt)
  | None => rt
  end.

(** [showCompletionScreen] and [showStatsDashboard] hide the container. *)
Definition hide_stats (rt : Realtime) : Realtime :=
  if realtimeStatsContainer
  then mkRealtime DisplayNone (stat_items rt) (realtimeStatsInterval rt)
         (intervals rt) (intervals_issued rt)
  else rt.

End Realtime.


(** ** The state engine *)

Section Engine.

(** [String.prototype.toLowerCase], a builtin of the host. *)
Variable toLowerCase : jsstring -> jsstring.

Definition has (keys : gset jsstring) (k : jsstring) : bool :=
  bool_decide (k ∈ keys).

(** [loadConfig]: the configured keys, lower-cased; an empty or missing
    list gives the empty set. *)
Definition loadConfig (availableKeys : list jsstring) : gset jsstring :=
  if decide (0 < length availableKeys)
  then list_to_set (map toLowerCase availableKeys)
  else ∅.

Definition isKeyAvailable (keys : gset jsstring) (key : jsstring) : bool :=
  let keyLower := toLowerCase key in
  if str_eqb key (js " ") || str_eqb key [160%N] || str_eqb key (js ",")
     || str_eqb key (js ".")
     || str_eqb key (js "Backspace") || str_eqb key [8%N]
     || str_eqb key (js "Enter") || str_eqb key (js "Return")
     || str_eqb key [10%N] || str_eqb key [13%N]
     || str_eqb keyLower (js "space") || str_eqb keyLower (js "comma")
     || str_eqb keyLower (js "dot")
     || str_eqb keyLower (js "backspace") || str_eqb keyLower (js "enter")
  then true
  else if bool_decide (size keys = 0) then true
  else if str_eqb key (js "Tab") || str_eqb keyLower (js "tab")
  then has keys (js "tab")
  else if str_eqb key [9%N] then has keys (js "tab")
  else
    let normalizedKey :=
      if bool_decide (length key = 1) then toLowerCase key else keyLower in
    has keys normalizedKey.

(** The filter loop at the head of [handleInput]. *)
Fixpoint filterInput (keys : gset jsstring) (input : jsstring) : jsstring :=
  match input with
  | [] => []
  | char :: rest =>
      if isKeyAvailable keys [char] then char :: filterInput keys rest
      else filterInput keys rest
  end.

(** The loop over [newChars] in the forward branch of [handleInput];
    [i] is [charIndex]. The result is [charStates], [totalInputs] and
    [totalErrors] after the loop. *)
Fixpoint typeForward (orig newChars : jsstring) (i : nat)
    (cs : list CharState) (inputs errors : N) : list CharState * N * N :=
  match newChars with
  | [] => (cs, inputs, errors)
  | typedChar :: rest =>
      if decide (length orig <= i) then (cs, inputs, errors)
      else
        let isError := negb (bool_decide (orig !! i = Some typedChar)) in
        if isError
        then typeForward orig rest (S i) (array_store i Incorrect cs)
               (inputs + 1)%N (errors + 1)%N
        else typeForward orig rest (S i) (array_store i Correct cs)
               (inputs + 1)%N errors
  end.

(** The loop of the backspace branch: [i] runs from [inputLength] up to
    [originalText.length], and stores only inside the array. *)
Fixpoint resetFrom (n : nat) (i : nat) (cs : list CharState)
  : list CharState :=
  match n with
  | O => cs
  | S n' =>
      resetFrom n' (S i)
        (if decide (i < length cs) then array_store i Pending cs else cs)
  end.

(** The value [handleInput] works with after filtering and clamping. *)
Definition effectiveInput (st : State) (value : jsstring) : jsstring :=
  let input :=
    if decide (0 < size (availableKeysSet st))
    then filterInput (availableKeysSet st) value else value in
  if decide (length (originalText st) < length input)
  then slice_to (length (originalText st)) input else input.

(** [handleInput], as far as the variables go, when no call of
    [highlightKey] throws: with the keyboard disabled, or when the host
    throws for none of the keys. [handleInput_keyboard] and
    [handleInput_page] below have these calls in their place. *)
Definition handleInput (st : State) (value : jsstring) (now : Z) : State :=
  let input :=
    if decide (0 < size (availableKeysSet st))
    then filterInput (availableKeysSet st) value else value in
  let startTime' :=
    match startTime st with
    | None => if decide (0 < length input) then Some now else None
    | Some t => Some t
    end in
  let input :=
    if decide (length (originalText st) < length input)
    then slice_to (length (originalText st)) input else input in
  let inputLength := length input in
  let typedLength := length (typedText st) in
  if decide (typedLength < inputLength) then
    let newChars := slice_from typedLength input in
    let '(cs, inputs, errors) :=
      typeForward (originalText st) newChars typedLength (charStates st)
        (totalInputs st) (totalErrors st) in
    mkState (originalText st) input cs startTime' errors inputs
      (availableKeysSet st)
  else if decide (inputLength < typedLength) then
    mkState (originalText st) input
      (resetFrom (length (originalText st) - inputLength) inputLength
         (charStates st))
      startTime' (totalErrors st) (totalInputs st) (availableKeysSet st)
  else
    mkState (originalText st) (typedText st) (charStates st) startTime'
      (totalErrors st) (totalInputs st) (availableKeysSet st).

Definition restart (st : State) : State :=
  mkState (originalText st) [] (replicate (length (charStates st)) Pending)
    None 0%N 0%N (availableKeysSet st).

(** The variables as the script declares them, with the key set that
    [loadConfig] leaves. *)
Definition initial (keys : gset jsstring) : State :=
  mkState [] [] [] None 0%N 0%N keys.

(** [loadText], once the text has been fetched. *)
Definition loadText (text : jsstring) (st : State) : State :=
  let original := trimEnd text in
  mkState original (typedText st) (replicate (length original) Pending)
    (startTime st) (totalErrors st) (totalInputs st) (availableKeysSet st).

Inductive event :=
  | Input (value : jsstring) (now : Z)
  | Restart.

Definition step (st : State) (e : event) : State :=
  match e with
  | Input value now => handleInput st value now
  | Restart => restart st
  end.

Definition run (st : State) (es : list event) : State := fold_left step es st.

(** A session: the handlers are installed, events may arrive [before] the
    text is there, the page loads [text], and the events [after] arrive. *)
Definition session (keys : gset jsstring) (before : list event)
    (text : jsstring) (after : list event) : State :=
  run (loadText text (run (initial keys) before)) after.

(** The number of positions whose state is not ['pending']. *)
Definition countTyped (cs : list CharState) : nat :=
  length (filter (fun s => s <> Pending) cs).

(** Events that are all input events: the values with their clock
    readings. *)
Definition inputs (vs : list (jsstring * Z)) : list event :=
  map (fun v => Input v.1 v.2) vs.


(** The reference text typed one code unit at a time: the values are its
    prefixes of lengths 1, 2, ..., [n], at the clock readings [clock]. *)
Definition typing (text : jsstring) (clock : nat -> Z) (n : nat)
  : list event :=
  map (fun k => Input (take (S k) text) (clock k)) (seq 0 n).


(** *** The on-screen keyboard *)

(** The key elements of the on-screen keyboard. *)
Context {Element : Type} `{EqDecision Element}.

(** [keyboardContainer]: [None] is [null], otherwise its [querySelector],
    a method of the host. For a selector it gives [None] when the host
    throws (a selector it cannot parse), [Some None] when it finds no
    element, and [Some (Some e)] for the element it finds. *)
Variable keyboardContainer : option (jsstring -> option (option Element)).

(** The variables of the keyboard, the two highlight classes on the key
    elements, and the timers of [highlightKey] that have not fired:
    [timers] maps the identifier of such a timer to the [keyElement] of
    its callback. [issued] is the last identifier the host gave out;
    identifiers are positive and not reused. *)
Record Keyboard := mkKeyboard {
  keyboardEnabled : bool;
  activeKeyElement : option Element;
  activeKeyTimeout : option nat;
  active : Element -> bool;
  active_error : Element -> bool;
  timers : gmap nat Element;
  issued : nat
}.

(** [[data-key=<key>]], with the key between double quotes. *)
Definition selector (key : jsstring) : jsstring :=
  js "[data-key=" ++ [34%N] ++ key ++ [34%N] ++ js "]".

Definition getKeyElement (char : jsstring) : option (option Element) :=
  match keyboardContainer with
  | None => Some None
  | Some querySelector =>
      let normalizedChar := toLowerCase char in
      if str_eqb char (js " ") then querySelector (selector (js "space"))
      else if str_eqb char [10%N] || str_eqb char [13%N]
      then querySelector (selector (js "enter"))
      else if str_eqb char [9%N] then querySelector (selector (js "tab"))
      else querySelector (selector normalizedChar)
  end.

(** [e.classList.remove('active', 'active-error')] *)
Definition classList_remove (e : Element) (kb : Keyboard) : Keyboard :=
  mkKeyboard (keyboardEnabled kb) (activeKeyElement kb)
    (activeKeyTimeout kb)
    (fun x => if decide (x = e) then false else active kb x)
    (fun x => if decide (x = e) then false else active_error kb x)
    (timers kb) (issued kb).

(** [e.classList.add('active-error')] or [e.classList.add('active')] *)
Definition classList_add (e : Element) (isError : bool) (kb : Keyboard)
  : Keyboard :=
  mkKeyboard (keyboardEnabled kb) (activeKeyElement kb)
    (activeKeyTimeout kb)
    (fun x => if decide (x = e) then negb isError || active kb x
              else active kb x)
    (fun x => if decide (x = e) then isError || active_error kb x
              else active_error kb x)
    (timers kb) (issued kb).

Definition clearTimeout (id : nat) (kb : Keyboard) : Keyboard :=
  mkKeyboard (keyboardEnabled kb) (activeKeyElement kb)
    (activeKeyTimeout kb) (active kb) (active_error kb)
    (delete id (timers kb)) (issued kb).

Definition highlightKey (keys : gset jsstring) (kb : Keyboard)
    (char : jsstring) (isError : bool) : outcome Keyboard :=
  if negb (isKeyAvailable keys char) then Returned kb
  else
    let kb :=
      match activeKeyElement kb with
      | Some e => classList_remove e kb
      | None => kb
      end in
    let kb :=
      match activeKeyTimeout kb with
      | Some id => clearTimeout id kb
      | None => kb
      end in
    match getKeyElement char with
    | None => Thrown kb
    | Some None => Returned kb
    | Some (Some keyElement) =>
        let kb := classList_add keyElement isError kb in
        let id := S (issued kb) in
        Returned
          (mkKeyboard (keyboardEnabled kb) (Some keyElement) (Some id)
             (active kb) (active_error kb)
             (<[id := keyElement]> (timers kb)) id)
    end.

(** The callback of the timer [id] of [highlightKey], which the host runs
    once, 200 ms later, unless the timer was cleared. *)
Definition timeout (id : nat) (kb : Keyboard) : Keyboard :=
  match timers kb !! id with
  | None => kb
  | Some keyElement =>
      let kb := classList_remove keyElement kb in
      mkKeyboard (keyboardEnabled kb) None (activeKeyTimeout kb)
        (active kb) (active_error kb) (delete id (timers kb)) (issued kb)
  end.

(** The keyboard clean-up of [restart]; [restart_page] below has it in
    its place, after the first call of [updateRealtimeStats]. *)
Definition restart_keyboard (kb : Keyboard) : Keyboard :=
  let kb :=
    match activeKeyElement kb with
    | Some e =>
        let kb := classList_remove e kb in
        mkKeyboard (keyboardEnabled kb) None (activeKeyTimeout kb)
          (active kb) (active_error kb) (timers kb) (issued kb)
    | None => kb
    end in
  match activeKeyTimeout kb with
  | Some id =>
      let kb := clearTimeout id kb in
      mkKeyboard (keyboardEnabled kb) (activeKeyElement kb) None
        (active kb) (active_error kb) (timers kb) (issued kb)
  | None => kb
  end.

(** The forward loop of [handleInput] with its call of [highlightKey]:
    when that call throws, the loop is left with the stores and the
    counts of the current round done. *)
Fixpoint typeForward_keyboard (keys : gset jsstring)
    (orig newChars : jsstring) (i : nat) (cs : list CharState)
    (inputs errors : N) (kb : Keyboard)
  : outcome (list CharState * N * N * Keyboard) :=
  match newChars with
  | [] => Returned (cs, inputs, errors, kb)
  | typedChar :: rest =>
      if decide (length orig <= i) then Returned (cs, inputs, errors, kb)
      else
        let isError := negb (bool_decide (orig !! i = Some typedChar)) in
        let inputs := (inputs + 1)%N in
        let cs := array_store i (if isError then Incorrect else Correct) cs in
        let errors := if isError then (errors + 1)%N else errors in
        if keyboardEnabled kb then
          match highlightKey keys kb [typedChar] isError with
          | Returned kb =>
              typeForward_keyboard keys orig rest (S i) cs inputs errors kb
          | Thrown kb => Thrown (cs, inputs, errors, kb)
          end
        else typeForward_keyboard keys orig rest (S i) cs inputs errors kb
  end.

(** [handleInput] with the on-screen keyboard, up to its calls of
    [renderText] and [updateRealtimeStats], which an exception skips. *)
Definition handleInput_keyboard (st : State) (kb : Keyboard)
    (value : jsstring) (now : Z) : outcome (State * Keyboard) :=
  let input :=
    if decide (0 < size (availableKeysSet st))
    then filterInput (availableKeysSet st) value else value in
  let startTime' :=
    match startTime st with
    | None => if decide (0 < length input) then Some now else None
    | Some t => Some t
    end in
  let input :=
    if decide (length (originalText st) < length input)
    then slice_to (length (originalText st)) input else input in
  let inputLength := length input in
  let typedLength := length (typedText st) in
  if decide (typedLength < inputLength) then
    let newChars := slice_from typedLength input in
    match
      typeForward_keyboard (availableKeysSet st) (originalText st) newChars
        typedLength (charStates st) (totalInputs st) (totalErrors st) kb
    with
    | Returned (cs, inputs, errors, kb) =>
        Returned
          (mkState (originalText st) input cs startTime' errors inputs
             (availableKeysSet st), kb)
    | Thrown (cs, inputs, errors, kb) =>
        Thrown
          (mkState (originalText st) (typedText st) cs startTime' errors
             inputs (availableKeysSet st), kb)
    end
  else if decide (inputLength < typedLength) then
    let st' :=
      mkState (originalText st) input
        (resetFrom (length (originalText st) - inputLength) inputLength
           (charStates st))
        startTime' (totalErrors st) (totalInputs st) (availableKeysSet st) in
    if keyboardEnabled kb
       && isKeyAvailable (availableKeysSet st) (js "backspace")
    then
      match highlightKey (availableKeysSet st) kb (js "backspace") false with
      | Returned kb => Returned (st', kb)
      | Thrown kb => Thrown (st', kb)
      end
    else Returned (st', kb)
  else
    Returned
      (mkState (originalText st) (typedText st) (charStates st) startTime'
         (totalErrors st) (totalInputs st) (availableKeysSet st), kb).

(** The keyboard as [initializeKeyboard] leaves it. *)
Definition initial_keyboard (enabled : bool) : Keyboard :=
  mkKeyboard enabled None None (fun _ => false) (fun _ => false) ∅ 0.

(** Every highlighted key is the active one and has a timer that will
    remove the highlight, and there is no other timer. *)
Definition highlight_ok (kb : Keyboard) : Prop :=
  (forall e, active kb e = true \/ active_error kb e = true ->
     activeKeyElement kb = Some e
     /\ exists id, activeKeyTimeout kb = Some id
                   /\ timers kb !! id = Some e)
  /\ (forall id e, timers kb !! id = Some e ->
        activeKeyTimeout kb = Some id /\ activeKeyElement kb = Some e
        /\ id <= issued kb).


(** Does [highlightKey] throw for this key? It does when it gets as far
    as [getKeyElement] and the host throws there. *)
Definition raises (keys : gset jsstring) (char : jsstring) : bool :=
  isKeyAvailable keys char && bool_decide (getKeyElement char = None).

(** An input event on the page: after an exception the page goes on with
    the variables as the exception left them. [v] is the value of the
    text area with the reading of the clock. *)
Definition input_step (p : State * Keyboard) (v : jsstring * Z)
  : State * Keyboard :=
  match handleInput_keyboard p.1 p.2 v.1 v.2 with
  | Returned r => r
  | Thrown r => r
  end.


(** *** The page with its live statistics *)

(** Whether the page has the elements [completion-screen] and
    [realtime-stats-container], the configured [realTimeStats], and the
    names of the properties of [Object.prototype]. *)
Variable completionScreen : bool.
Variable realtimeStatsContainer : bool.
Variable realTimeStats : list jsstring.
Variable inherited : gset jsstring.

(** What [renderText] does to the live statistics: on completion,
    [showCompletionScreen] hides their container, unless it returns
    before for want of a completion screen. *)
Definition renderText_stats (st : State) (rt : Realtime) : Realtime :=
  match renderText st with
  | CompletionScreen =>
      if completionScreen then hide_stats realtimeStatsContainer rt else rt
  | TypingText => rt
  end.

(** The page: the variables of the exercise, the on-screen keyboard and
    the live statistics. *)
Record Page := mkPage {
  vars : State;
  keyboard : Keyboard;
  live : Realtime
}.

(** [handleInput], whole: the part above, then [renderText] and
    [updateRealtimeStats]. [now] is what [Date.now()] returns for the
    start of the clock, [later] what it returns for the statistics. An
    exception in the first part skips both calls. *)
Definition handleInput_page (pg : Page) (value : jsstring) (now later : Z)
  : outcome Page :=
  match handleInput_keyboard (vars pg) (keyboard pg) value now with
  | Thrown (st, kb) => Thrown (mkPage st kb (live pg))
  | Returned (st, kb) =>
      let rt := renderText_stats st (live pg) in
      match
        updateRealtimeStats realtimeStatsContainer realTimeStats inherited st
          later rt
      with
      | Returned rt => Returned (mkPage st kb rt)
      | Thrown rt => Thrown (mkPage st kb rt)
      end
  end.

(** [restart], whole: the variables are reset, the interval is cleared,
    [updateRealtimeStats] runs, the keyboard is cleaned up,
    [updateRealtimeStats] runs again when there is a container, and
    [renderText] is called. An exception in [updateRealtimeStats] skips
    what follows it. *)
Definition restart_page (pg : Page) (now : Z) : outcome Page :=
  let st := restart (vars pg) in
  let rt := clear_interval (live pg) in
  match
    updateRealtimeStats realtimeStatsContainer realTimeStats inherited st now
      rt
  with
  | Thrown rt => Thrown (mkPage st (keyboard pg) rt)
  | Returned rt =>
      let kb := restart_keyboard (keyboard pg) in
      match
        if realtimeStatsContainer
        then updateRealtimeStats realtimeStatsContainer realTimeStats
               inherited st now rt
        else Returned rt
      with
      | Thrown rt => Thrown (mkPage st kb rt)
      | Returned rt => Returned (mkPage st kb (renderText_stats st rt))
      end
  end.

(** [loadText], once the text has been fetched, with its call of
    [renderText]. *)
Definition loadText_page (text : jsstring) (pg : Page) : Page :=
  let st := loadText text (vars pg) in
  mkPage st (keyboard pg) (renderText_stats st (live pg)).

(** What [handleKeyDown] leaves: whether it called [preventDefault], the
    value of the text area, whether it dispatched an input event, whether
    it scheduled the highlighting of the enter key with [setTimeout], and
    the page. *)
Record KeyDown := mkKeyDown {
  defaultPrevented : bool;
  inputValue : jsstring;
  dispatched : bool;
  scheduled : bool;
  page : Page
}.

(** [handleKeyDown]. [key] is [e.key], [value] is [hiddenInput.value],
    [selectionStart] its cursor position, [now] and [later] what
    [Date.now()] returns if the dispatched input event reads it. The
    input event is dispatched synchronously: [handleInput] runs on the
    new value, with the effective input in the text area from its first
    lines on; an exception in it does not reach [handleKeyDown]. An
    exception in [highlightKey] leaves [handleKeyDown] before it
    dispatches. The timer that moves the selection is left out. *)
Definition handleKeyDown (pg : Page) (key value : jsstring)
    (selectionStart : nat) (now later : Z) : outcome KeyDown :=
  let st := vars pg in
  if str_eqb key (js "Enter") || str_eqb key (js "Return") then
    if negb (isKeyAvailable (availableKeysSet st) [10%N])
    then Returned (mkKeyDown true value false false pg)
    else if decide (length (originalText st) <= length value)
    then Returned (mkKeyDown true value false false pg)
    else Returned
           (mkKeyDown false value false (keyboardEnabled (keyboard pg)) pg)
  else if str_eqb key (js "Tab") then
    if negb (isKeyAvailable (availableKeysSet st) [9%N])
    then Returned (mkKeyDown true value false false pg)
    else if decide (length (originalText st) <= length value)
    then Returned (mkKeyDown true value false false pg)
    else
      let cursorPos :=
        if decide (selectionStart = 0) then length value
        else selectionStart in
      let newValue :=
        slice_to cursorPos value ++ [9%N] ++ slice_from cursorPos value in
      match
        if keyboardEnabled (keyboard pg)
        then highlightKey (availableKeysSet st) (keyboard pg) [9%N] false
        else Returned (keyboard pg)
      with
      | Thrown kb =>
          Thrown (mkKeyDown true newValue false false
                    (mkPage st kb (live pg)))
      | Returned kb =>
          Returned
            (mkKeyDown true (effectiveInput st newValue) true false
               (settled (handleInput_page (mkPage st kb (live pg)) newValue
                           now later)))
      end
  else if bool_decide (0 < size (availableKeysSet st))
          && negb (isKeyAvailable (availableKeysSet st) key)
  then Returned (mkKeyDown true value false false pg)
  else if str_eqb key (js "Backspace") && bool_decide (length value = 0)
  then Returned (mkKeyDown true value false false pg)
  else Returned (mkKeyDown false value false false pg).

(** What happens on the page once [initialize] has run: an input event,
    a key press, a click on a restart button, a round of the interval
    [id], the timer [id] of [highlightKey], the scheduled highlighting
    of the enter key, and the later steps of [showCompletionScreen] and
    [showStatsDashboard] that hide the live statistics again. *)
Inductive page_action :=
  | InputEvent (value : jsstring) (now later : Z)
  | KeyDownEvent (key value : jsstring) (selectionStart : nat)
      (now later : Z)
  | RestartClick (now : Z)
  | IntervalRound (id : nat) (now : Z)
  | HighlightTimeout (id : nat)
  | EnterHighlight
  | StatsHidden.

(** The page after an action; after an exception it is as the exception
    left it. *)
Definition page_act (pg : Page) (a : page_action) : Page :=
  match a with
  | InputEvent value now later =>
      settled (handleInput_page pg value now later)
  | KeyDownEvent key value selectionStart now later =>
      page (settled (handleKeyDown pg key value selectionStart now later))
  | RestartClick now => settled (restart_page pg now)
  | IntervalRound id now =>
      if bool_decide (id ∈ intervals (live pg))
      then mkPage (vars pg) (keyboard pg)
             (settled (updateRealtimeStats realtimeStatsContainer
                         realTimeStats inherited (vars pg) now (live pg)))
      else pg
  | HighlightTimeout id =>
      mkPage (vars pg) (timeout id (keyboard pg)) (live pg)
  | EnterHighlight =>
      if keyboardEnabled (keyboard pg)
      then mkPage (vars pg)
             (settled (highlightKey (availableKeysSet (vars pg))
                         (keyboard pg) [10%N] false))
             (live pg)
      else pg
  | StatsHidden =>
      mkPage (vars pg) (keyboard pg)
        (hide_stats realtimeStatsContainer (live pg))
  end.

(** The text arrives, or something happens on the page. *)
Inductive page_event :=
  | PageLoad (text : jsstring)
  | PageAct (a : page_action).

Definition page_step (pg : Page) (e : page_event) : Page :=
  match e with
  | PageLoad text => loadText_page text pg
  | PageAct a => page_act pg a
  end.

(** The page as [initialize] leaves it: the keyboard is set up, [enabled]
    or not, the handlers are installed, the text is on its way, and
    [updateRealtimeStats] has run once. *)
Definition initial_page (keys : gset jsstring) (enabled : bool) (now : Z)
  : Page :=
  mkPage (initial keys) (initial_keyboard enabled)
    (settled (updateRealtimeStats realtimeStatsContainer realTimeStats
                inherited (initial keys) now
                (mkRealtime DisplayAsStyled [] None ∅ 0))).

Definition page_run (pg : Page) (es : list page_event) : Page :=
  fold_left page_step es pg.

(** A session on the page: things may happen [before] the text is there,
    the page loads [text], and things happen [after]. *)
Definition page_session (keys : gset jsstring) (enabled : bool) (now : Z)
    (before : list page_action) (text : jsstring)
    (after : list page_action) : Page :=
  page_run (initial_page keys enabled now)
    (map PageAct before ++ PageLoad text :: map PageAct after).

(** No call of [highlightKey] that an action makes for the variables
    throws: the host throws for none of the code units of the value, nor
    for the backspace key, nor, on a tab key, for the tab. *)
Definition quiet (keys : gset jsstring) (a : page_action) : bool :=
  match a with
  | InputEvent value _ _ =>
      forallb (fun c => negb (raises keys [c])) value
      && negb (raises keys (js "backspace"))
  | KeyDownEvent key value _ _ _ =>
      negb (str_eqb key (js "Tab"))
      || (negb (raises keys [9%N])
          && forallb (fun c => negb (raises keys [c])) value
          && negb (raises keys (js "backspace")))
  | _ => true
  end.

(** The on-screen keyboard is disabled, or all the actions are quiet. *)
Definition calm (keys : gset jsstring) (enabled : bool)
    (actions : list page_action) : bool :=
  negb enabled || forallb (quiet keys) actions.

(** What every variable state of the page keeps, also after an
    exception: one state per code unit of the reference text and none of
    them a hole, the typed text no longer than the reference text, its
    positions marked correct or incorrect, the incorrect positions
    counted as errors and the typed code units as inputs. *)
Definition sound (st : State) : Prop :=
  length (charStates st) = length (originalText st)
  /\ length (typedText st) <= length (originalText st)
  /\ Forall (fun s => s = Correct \/ s = Incorrect)
       (take (length (typedText st)) (charStates st))
  /\ Forall (fun s => s <> Undefined) (charStates st)
  /\ (countIncorrect (charStates st) <= totalErrors st)%N
  /\ (totalErrors st <= totalInputs st)%N
  /\ (N.of_nat (length (typedText st)) <= totalInputs st)%N.

(** What [renderText] writes in the text container: nothing when the
    exercise is complete, as it returns before. *)
Definition renderText_spans (st : State) : option (list span) :=
  match renderText st with
  | CompletionScreen => None
  | TypingText => Some (typing_spans st)
  end.

(** The keys of [statMap], and those of a configuration that are among
    them. *)
Definition stat_keys : list jsstring :=
  [js "speed"; js "accuracy"; js "time"; js "errors"; js "errorsLeft";
   js "chars"].

Definition known_keys (statKeys : list jsstring) : list jsstring :=
  filter (fun k => k ∈ stat_keys) statKeys.

(** No interval or the one interval. *)
Definition running (interval : option nat) : gset nat :=
  match interval with
  | Some id => {[id]}
  | None => ∅
  end.

(** A keyboard container whose [querySelector] throws for the selector
    that [getKeyElement] builds for the double quote, which has three
    double quotes in a row and is not a selector, and finds no element
    otherwise; used where a concrete run is evaluated. *)
Definition sample_container : option (jsstring -> option (option nat)) :=
  Some (fun s => if decide (s = selector [34%N]) then None else Some None).


(** The variables when [highlightKey] throws in the forward loop of
    [handleInput] at the new code unit of index [n]: the loop has done
    [n + 1] rounds, and the assignment of [typedText] is skipped. *)
Definition cut_short (st : State) (value : jsstring) (now : Z) (n : nat)
  : State :=
  let input := effectiveInput st value in
  let typedLength := length (typedText st) in
  let '(cs, inputs, errors) :=
    typeForward (originalText st)
      (take (S n) (slice_from typedLength input)) typedLength
      (charStates st) (totalInputs st) (totalErrors st) in
  mkState (originalText st) (typedText st) cs
    (startTime (handleInput st value now)) errors inputs
    (availableKeysSet st).


(** The interval of the live statistics on a page: the variable holds an
    interval only once the clock runs, and it is the only interval there
    is. In [interval_runs] it holds one as soon as the clock runs. *)
Definition interval_ok (pg : Page) : Prop :=
  (realtimeStatsInterval (live pg) <> None -> startTime (vars pg) <> None)
  /\ intervals (live pg) = running (realtimeStatsInterval (live pg)).

Definition interval_runs (pg : Page) : Prop :=
  (realtimeStatsInterval (live pg) = None <-> startTime (vars pg) = None)
  /\ intervals (live pg) = running (realtimeStatsInterval (live pg)).

(** The input events of the reference text typed one code unit at a
    time, as [typing] above; [later] gives the clock readings of the
    statistics. *)
Definition typing_page (text : jsstring) (clock later : nat -> Z) (n : nat)
  : list page_action :=
  map (fun k => InputEvent (take (S k) text) (clock k) (later k)) (seq 0 n).


(** Variables with nothing to type, nothing typed and nothing counted. *)
Definition blank (st : State) : Prop :=
  originalText st = [] /\ typedText st = [] /\ charStates st = []
  /\ totalErrors st = 0%N /\ totalInputs st = 0%N.


(** * Properties *)

(** *** The loops *)

Lemma array_store_in_range i v cs :
  i < length cs -> array_store i v cs = <[i := v]> cs.
Proof. intros Hi. unfold array_store. by rewrite decide_True. Qed.

Lemma typeForward_spec orig newChars :
  forall i cs ins errs,
    length cs = length orig ->
    i + length newChars <= length orig ->
    typeForward orig newChars i cs ins errs =
      (take i cs ++ marks (drop i orig) newChars
         ++ drop (i + length newChars) cs,
       (ins + N.of_nat (length newChars))%N,
       (errs + N.of_nat (mismatches (drop i orig) newChars))%N).
Proof.
  induction newChars as [|c rest IH]; intros i cs ins errs Hlen Hi;
    cbn [typeForward length] in *.
  - unfold mismatches, marks. rewrite zip_with_nil_r. simpl.
    rewrite Nat.add_0_r, take_drop, !N.add_0_r. done.
  - rewrite decide_False by lia.
    destruct (lookup_lt_is_Some_2 orig i) as [e He]; [lia|].
    rewrite (drop_S _ _ _ He), He.
    assert (Hin : i < length cs) by lia.
    destruct (lookup_lt_is_Some_2 cs i Hin) as [old Hold].
    assert (Hstep : forall v,
      take (S i) (array_store i v cs) = take i cs ++ [v]
      /\ drop (S i + length rest) (array_store i v cs)
         = drop (i + S (length rest)) cs
      /\ length (array_store i v cs) = length orig).
    { intros v. rewrite array_store_in_range by done. split_and!.
      - rewrite (take_S_r _ _ v) by (by apply list_lookup_insert_eq).
        by rewrite take_insert_ge.
      - rewrite drop_insert_lt by lia. f_equal. lia.
      - by rewrite length_insert. }
    unfold mismatches, marks, mark in *. simpl.
    destruct (decide (e = c)) as [->|Hne].
    + rewrite bool_decide_true by done. simpl.
      destruct (Hstep Correct) as (Ht & Hd & Hl).
      rewrite IH by (done || lia). rewrite Ht, Hd, <- app_assoc. simpl.
      rewrite filter_cons_False by done.
      by replace (ins + N.of_nat (S (length rest)))%N
        with (ins + 1 + N.of_nat (length rest))%N by lia.
    + rewrite bool_decide_false by congruence. simpl.
      destruct (Hstep Incorrect) as (Ht & Hd & Hl).
      rewrite IH by (done || lia). rewrite Ht, Hd, <- app_assoc. simpl.
      replace (ins + N.of_nat (S (length rest)))%N
        with (ins + 1 + N.of_nat (length rest))%N by lia.
      by rewrite Nat2N.inj_succ, <- N.add_1_l, N.add_assoc.
Qed.

Lemma resetFrom_spec n :
  forall i cs,
    i + n <= length cs ->
    resetFrom n i cs = take i cs ++ replicate n Pending ++ drop (i + n) cs.
Proof.
  induction n as [|n IH]; intros i cs Hi; cbn [resetFrom replicate].
  - cbn. by rewrite Nat.add_0_r, take_drop.
  - rewrite decide_True by lia. rewrite array_store_in_range by lia.
    rewrite IH by (rewrite length_insert; lia).
    rewrite (take_S_r _ _ Pending) by (apply list_lookup_insert_eq; lia).
    rewrite take_insert_ge by done. rewrite drop_insert_lt by lia.
    rewrite <- app_assoc. cbn. by replace (i + S n) with (S (i + n)) by lia.
Qed.

Lemma marks_length expected typed :
  length typed <= length expected ->
  length (marks expected typed) = length typed.
Proof. intros H. unfold marks. rewrite length_zip_with. lia. Qed.

Lemma marks_not_pending expected typed :
  Forall (fun s => s <> Pending) (marks expected typed).
Proof.
  unfold marks. revert typed.
  induction expected as [|e expected IH]; intros [|c typed]; cbn;
    try by constructor.
  constructor; [|apply IH]. unfold mark. by destruct (decide (e = c)).
Qed.

Lemma mismatches_le expected typed : mismatches expected typed <= length typed.
Proof.
  unfold mismatches. etrans; [apply length_filter|].
  unfold marks. rewrite length_zip_with. lia.
Qed.

Lemma effectiveInput_length st value :
  length (effectiveInput st value) <= length (originalText st).
Proof.
  unfold effectiveInput, slice_to.
  destruct (decide (length (originalText st) < _)).
  - rewrite length_take. lia.
  - lia.
Qed.

(** The clamp written as one [slice]. *)
Lemma effectiveInput_clamp st value :
  effectiveInput st value =
    slice_to (length (originalText st))
      (if decide (0 < size (availableKeysSet st))
       then filterInput (availableKeysSet st) value else value).
Proof.
  unfold effectiveInput, slice_to.
  destruct (decide (length (originalText st) < _)); [done|].
  by rewrite take_ge by lia.
Qed.

Lemma typeForward_counters orig newChars :
  forall i cs ins errs,
    i + length newChars <= length orig ->
    (typeForward orig newChars i cs ins errs).1.2
      = (ins + N.of_nat (length newChars))%N
    /\ (typeForward orig newChars i cs ins errs).2
      = (errs + N.of_nat (mismatches (drop i orig) newChars))%N.
Proof.
  induction newChars as [|c rest IH]; intros i cs ins errs Hi;
    cbn [typeForward length] in *.
  - unfold mismatches, marks. rewrite zip_with_nil_r. cbn. lia.
  - rewrite decide_False by lia.
    destruct (lookup_lt_is_Some_2 orig i) as [e He]; [lia|].
    rewrite (drop_S _ _ _ He), He.
    unfold mismatches, marks, mark in *. cbn [zip_with].
    destruct (decide (e = c)) as [->|Hne].
    + rewrite bool_decide_true by done. cbn [negb].
      rewrite filter_cons_False by done.
      destruct (IH (S i) (array_store i Correct cs) (ins + 1)%N errs) as [-> ->];
        lia.
    + rewrite bool_decide_false by congruence. cbn [negb].
      rewrite filter_cons_True by done. cbn [length].
      destruct (IH (S i) (array_store i Incorrect cs) (ins + 1)%N (errs + 1)%N)
        as [-> ->]; lia.
Qed.

(** [handleInput] in terms of the effective input: the three branches. *)
Lemma handleInput_forward st value now :
  length (typedText st) < length (effectiveInput st value) ->
  typedText (handleInput st value now) = effectiveInput st value
  /\ originalText (handleInput st value now) = originalText st
  /\ availableKeysSet (handleInput st value now) = availableKeysSet st
  /\ (length (charStates st) = length (originalText st) ->
      charStates (handleInput st value now) =
        take (length (typedText st)) (charStates st)
        ++ marks (drop (length (typedText st)) (originalText st))
             (drop (length (typedText st)) (effectiveInput st value))
        ++ drop (length (effectiveInput st value)) (charStates st))
  /\ totalInputs (handleInput st value now) =
       (totalInputs st
        + N.of_nat (length (effectiveInput st value) - length (typedText st)))%N
  /\ totalErrors (handleInput st value now) =
       (totalErrors st
        + N.of_nat (mismatches (drop (length (typedText st)) (originalText st))
                      (drop (length (typedText st))
                         (effectiveInput st value))))%N.
Proof.
  intros Hlt. pose proof (effectiveInput_length st value) as Hle.
  unfold handleInput.
  unfold effectiveInput in *.
  set (input := if decide (length (originalText st) < _) then _ else _) in *.
  rewrite decide_True by done. unfold slice_from.
  assert (Hfit : length (typedText st) + length (drop (length (typedText st)) input)
                 <= length (originalText st))
    by (rewrite length_drop; lia).
  pose proof (typeForward_counters (originalText st)
    (drop (length (typedText st)) input) (length (typedText st))
    (charStates st) (totalInputs st) (totalErrors st) Hfit) as [Hins Herrs].
  destruct (typeForward _ _ _ _ _ _) as [[cs ins] errs] eqn:Htf. cbn in *.
  split_and!; try done.
  - intros Hlen. rewrite typeForward_spec in Htf by done.
    injection Htf as <- _ _. rewrite length_drop.
    by replace (length (typedText st) + (length input - length (typedText st)))
      with (length input) by lia.
  - by rewrite Hins, length_drop.
Qed.

Lemma handleInput_backward st value now :
  length (effectiveInput st value) < length (typedText st) ->
  typedText (handleInput st value now) = effectiveInput st value
  /\ originalText (handleInput st value now) = originalText st
  /\ availableKeysSet (handleInput st value now) = availableKeysSet st
  /\ (length (charStates st) = length (originalText st) ->
      charStates (handleInput st value now) =
        take (length (effectiveInput st value)) (charStates st)
        ++ replicate (length (originalText st)
                      - length (effectiveInput st value)) Pending)
  /\ totalInputs (handleInput st value now) = totalInputs st
  /\ totalErrors (handleInput st value now) = totalErrors st.
Proof.
  intros Hlt. pose proof (effectiveInput_length st value) as Hle.
  unfold handleInput.
  unfold effectiveInput in *.
  set (input := if decide (length (originalText st) < _) then _ else _) in *.
  rewrite decide_False by lia. rewrite decide_True by done. cbn.
  split_and!; try done.
  intros Hlen. rewrite resetFrom_spec by lia.
  rewrite drop_ge by lia. by rewrite app_nil_r.
Qed.

Lemma handleInput_same_length st value now :
  length (effectiveInput st value) = length (typedText st) ->
  typedText (handleInput st value now) = typedText st
  /\ originalText (handleInput st value now) = originalText st
  /\ availableKeysSet (handleInput st value now) = availableKeysSet st
  /\ charStates (handleInput st value now) = charStates st
  /\ totalInputs (handleInput st value now) = totalInputs st
  /\ totalErrors (handleInput st value now) = totalErrors st.
Proof.
  intros Heq.
  unfold handleInput.
  unfold effectiveInput in *.
  set (input := if decide (length (originalText st) < _) then _ else _) in *.
  rewrite !decide_False by lia. done.
Qed.

(** *** Consistency of the state *)

Lemma consistent_length st :
  consistent st -> length (charStates st) = length (originalText st).
Proof.
  intros (ts & Hcs & Hlen & _ & Hle & _).
  rewrite Hcs, length_app, length_replicate. lia.
Qed.

Lemma consistent_count st :
  consistent st -> length (typedText st) = countTyped (charStates st).
Proof.
  intros (ts & Hcs & Hlen & Hts & _). unfold countTyped.
  rewrite Hcs, filter_app, length_app.
  assert (Hrep : forall n,
    filter (fun s => s <> Pending) (replicate n Pending) = []).
  { induction n as [|n IH]; [done|].
    rewrite replicate_S, filter_cons_False by tauto. done. }
  assert (Hkeep : filter (fun s => s <> Pending) ts = ts).
  { clear Hcs Hlen. induction Hts as [|s ts Hs _ IH]; [done|].
    by rewrite filter_cons_True, IH by done. }
  rewrite Hrep, Hkeep. cbn. lia.
Qed.

Lemma consistent_initial keys : consistent (initial keys).
Proof. exists []. cbn. split_and!; (done || constructor || lia). Qed.

Lemma consistent_loadText text st :
  consistent st -> originalText st = [] -> consistent (loadText text st).
Proof.
  intros (ts & Hcs & Hlen & Hts & Hle & Hcount) Horig.
  rewrite Horig in Hle. cbn in Hle.
  assert (Htyped : typedText st = []).
  { destruct (typedText st); [done | cbn in Hle; lia]. }
  exists []. unfold loadText. cbn. rewrite Htyped. cbn.
  split_and!; (done || constructor || lia || idtac).
  by rewrite Nat.sub_0_r.
Qed.

Lemma consistent_restart st : consistent st -> consistent (restart st).
Proof.
  intros Hst. pose proof (consistent_length st Hst) as Hlen.
  exists []. unfold restart. cbn.
  split_and!; (done || constructor || lia || idtac).
  by rewrite Nat.sub_0_r, Hlen.
Qed.

Lemma consistent_handleInput st value now :
  consistent st -> consistent (handleInput st value now).
Proof.
  intros Hst. pose proof (consistent_length st Hst) as Hlen.
  pose proof (effectiveInput_length st value) as Hfit.
  destruct Hst as (ts & Hcs & Hts_len & Hts & Hle & Hcount).
  destruct (lt_eq_lt_dec (length (typedText st))
              (length (effectiveInput st value))) as [[Hlt|Heq]|Hgt].
  - destruct (handleInput_forward st value now Hlt)
      as (Ht & Ho & _ & Hc & Hi & He).
    specialize (Hc Hlen).
    pose proof (mismatches_le (drop (length (typedText st)) (originalText st))
      (drop (length (typedText st)) (effectiveInput st value))) as Hm.
    rewrite length_drop in Hm.
    exists (ts ++ marks (drop (length (typedText st)) (originalText st))
                    (drop (length (typedText st)) (effectiveInput st value))).
    rewrite Ht, Ho, Hc, Hi, He. split_and!.
    + assert (Htake : take (length (typedText st)) (charStates st) = ts).
      { rewrite Hcs, <- Hts_len. apply take_app_length. }
      assert (Hdrop : drop (length (effectiveInput st value)) (charStates st)
                = replicate (length (originalText st)
                             - length (effectiveInput st value)) Pending).
      { rewrite Hcs. rewrite drop_app_ge by lia. rewrite drop_replicate.
        f_equal. lia. }
      by rewrite Htake, Hdrop, <- app_assoc.
    + rewrite length_app, marks_length by (rewrite !length_drop; lia).
      rewrite length_drop. lia.
    + apply Forall_app. split; [done | apply marks_not_pending].
    + done.
    + lia.
  - destruct (handleInput_same_length st value now (eq_sym Heq))
      as (Ht & Ho & _ & Hc & Hi & He).
    exists ts. by rewrite Ht, Ho, Hc, Hi, He.
  - destruct (handleInput_backward st value now Hgt)
      as (Ht & Ho & _ & Hc & Hi & He).
    specialize (Hc Hlen).
    exists (take (length (effectiveInput st value)) ts).
    rewrite Ht, Ho, Hc, Hi, He. split_and!.
    + f_equal. rewrite Hcs. by rewrite take_app_le by lia.
    + rewrite length_take. lia.
    + by apply Forall_take.
    + done.
    + done.
Qed.

Lemma consistent_step st e : consistent st -> consistent (step st e).
Proof.
  destruct e; [apply consistent_handleInput | apply consistent_restart].
Qed.

Lemma consistent_run es : forall st, consistent st -> consistent (run st es).
Proof.
  induction es as [|e es IH]; intros st Hst; [done|].
  change (run st (e :: es)) with (run (step st e) es).
  apply IH. by apply consistent_step.
Qed.

Lemma originalText_run es :
  forall st, originalText (run st es) = originalText st.
Proof.
  induction es as [|e es IH]; intros st; [done|].
  change (run st (e :: es)) with (run (step st e) es).
  rewrite IH. destruct e as [value now|]; [|done]. cbn [step].
  destruct (lt_eq_lt_dec (length (typedText st))
              (length (effectiveInput st value))) as [[Hlt|Heq]|Hgt].
  - by destruct (handleInput_forward st value now Hlt) as (_ & -> & _).
  - by destruct (handleInput_same_length st value now (eq_sym Heq))
      as (_ & -> & _).
  - by destruct (handleInput_backward st value now Hgt) as (_ & -> & _).
Qed.

Lemma consistent_session keys before text after :
  consistent (session keys before text after).
Proof.
  apply consistent_run, consistent_loadText.
  - apply consistent_run, consistent_initial.
  - by rewrite originalText_run.
Qed.


(** *** The claims about the state engine *)




Lemma typedText_handleInput st value now :
  typedText (handleInput st value now) =
    (if decide (length (effectiveInput st value) = length (typedText st))
     then typedText st
     else effectiveInput st value)
  /\ effectiveInput st value =
       slice_to (length (originalText st))
         (if decide (0 < size (availableKeysSet st))
          then filterInput (availableKeysSet st) value
          else value).
Proof.
  split; [|apply effectiveInput_clamp].
  destruct (decide (length (effectiveInput st value) = length (typedText st)))
    as [Heq|Hne].
  - by destruct (handleInput_same_length st value now Heq) as (-> & _).
  - destruct (lt_eq_lt_dec (length (typedText st))
                (length (effectiveInput st value))) as [[Hlt|Heq]|Hgt].
    + by destruct (handleInput_forward st value now Hlt) as (-> & _).
    + lia.
    + by destruct (handleInput_backward st value now Hgt) as (-> & _).
Qed.


(** *** Completion *)

(** C2. The completion test is true exactly when [typedText] and the
    reference text have the same length once trailing white space is
    trimmed. With the reference text [cat]: the value [cat] brings up the
    completion screen, [ca] does not, and [cats] is cut to [cat] and
    brings it up. *)
Theorem completion_when_trimmed_lengths_agree :
  (forall reference typed,
     isComplete reference typed = true
     <-> length (trimEnd typed) = length (trimEnd reference))
  /\ (forall now,
        renderText (session ∅ [] (js "cat") [Input (js "cat") now])
        = CompletionScreen)
  /\ (forall now,
        renderText (session ∅ [] (js "cat") [Input (js "ca") now])
        = TypingText)
  /\ (forall now,
        let st := session ∅ [] (js "cat") [Input (js "cats") now] in
        typedText st = js "cat" /\ renderText st = CompletionScreen)
  /\ (forall t1 t2 t3,
        let st := session ∅ [] (js "cat")
                    [Input (js "c") t1; Input (js "ca") t2] in
        renderText st = TypingText
        /\ renderText (handleInput st (js "cat") t3) = CompletionScreen).
Proof.
  split_and!.
  - intros reference typed. unfold isComplete. apply bool_decide_eq_true.
  - intros now. by vm_compute.
  - intros now. by vm_compute.
  - intros now. by vm_compute.
  - intros t1 t2 t3. by vm_compute.
Qed.

(** *** Accuracy *)

(** C3. Both statistics functions compute the accuracy as
    [(totalInputs - totalErrors) / totalInputs * 100] when [totalInputs] is
    positive and as 0 otherwise (the live one reports 0 as long as the
    clock has not started). With the reference text [ab] and the values
    [a], [ax], [a], [ab] in turn, the counters end at 3 inputs and 1
    error, no position is left incorrect, and the accuracy is
    [(3 - 1) / 3 * 100], which is written [66.67]. *)
Theorem accuracy_formula_and_example :
  (forall st now,
     Live.accuracy (calculateRealtimeStats st now) =
       match startTime st with
       | Some _ => accuracy_formula (totalInputs st) (totalErrors st)
       | None => 0%Q
       end
     /\ match calculateStatistics st now with
        | Some stats =>
            Final.accuracy stats
            = accuracy_formula (totalInputs st) (totalErrors st)
        | None => startTime st = None
        end)
  /\ (forall t1 t2 t3 t4 now,
        let st := session ∅ [] (js "ab")
                    [Input (js "a") t1; Input (js "ax") t2;
                     Input (js "a") t3; Input (js "ab") t4] in
        totalInputs st = 3%N /\ totalErrors st = 1%N
        /\ exists stats,
             calculateStatistics st now = Some stats
             /\ Final.totalErrors stats = 1%N
             /\ Final.errorsLeft stats = 0%N
             /\ (Final.accuracy stats == (3 - 1) / 3 * 100)%Q
             /\ (66.66 < Final.accuracy stats)%Q
             /\ (Final.accuracy stats < 66.67)%Q
             /\ toFixed2 (Final.accuracy stats) = js "66.67").
Proof.
  split.
  - intros st now. unfold calculateRealtimeStats, calculateStatistics.
    by destruct (startTime st).
  - intros t1 t2 t3 t4 now st.
    assert (Hst : st = mkState (js "ab") (js "ab") [Correct; Correct]
                         (Some t1) 1 3 ∅) by (by vm_compute).
    rewrite Hst. split_and!; [done | done |].
    eexists. split; [reflexivity|]. cbn [Final.totalErrors Final.errorsLeft
      Final.accuracy totalInputs totalErrors charStates].
    split_and!; by vm_compute.
Qed.

(** *** Keys *)

(** C6, as the script has it. Whatever set of keys is configured,
    [isKeyAvailable] accepts the space, the no-break space, the comma, the
    full stop, the backspace, line-feed and carriage-return characters,
    the key names [Backspace], [Enter] and [Return], and every key whose
    lower-cased name is [space], [comma], [dot], [backspace] or [enter].
    [Delete] is not among them. *)
Theorem fixed_keys_always_available keys key :
  always_available toLowerCase key ->
  isKeyAvailable keys key = true.
Proof.
  intros Havail. unfold isKeyAvailable.
  match goal with |- (if ?c then _ else _) = _ => assert (c = true) as -> end;
    [|done].
  unfold str_eqb. rewrite !orb_true_iff, !bool_decide_eq_true.
  destruct Havail as [Hkey|Hlower].
  - rewrite !elem_of_cons, elem_of_nil in Hkey. tauto.
  - rewrite !elem_of_cons, elem_of_nil in Hlower. tauto.
Qed.

(** *** Words and speed *)

Lemma split_ws_count s :
  forall inrun cur,
    (inrun = true -> cur = []) ->
    length (filter (fun word => 0 < length word) (split_ws inrun cur s))
    = (if decide (0 < length cur) then 1 else 0)
      + word_starts (bool_decide (0 < length cur)) s.
Proof.
  induction s as [|c s IH]; intros inrun cur Hrun; cbn [split_ws word_starts].
  - destruct (decide (0 < length cur)).
    + by rewrite filter_cons_True.
    + by rewrite filter_cons_False.
  - destruct (is_space c).
    + destruct inrun.
      * rewrite (Hrun eq_refl). rewrite IH by done. cbn. done.
      * destruct (decide (0 < length cur)).
        -- rewrite filter_cons_True by done. cbn [length].
           rewrite IH by done. done.
        -- rewrite filter_cons_False by done. rewrite IH by done. done.
    + rewrite IH by done. rewrite length_app. cbn [length].
      rewrite decide_True by lia. rewrite (bool_decide_true (0 < _ + 1)) by lia.
      destruct (decide (0 < length cur)).
      * rewrite bool_decide_true by done. lia.
      * rewrite bool_decide_false by done. lia.
Qed.

Lemma Qpositive_spec q : Qpositive q = true <-> (0 < q)%Q.
Proof.
  unfold Qpositive, Qlt. cbn. rewrite Z.mul_1_r. apply Z.ltb_lt.
Qed.

(** C7. The word count is the number of white-space-delimited non-empty
    tokens of the trimmed reference text; input events do not change it.
    The speed either statistics function reports is that count divided by
    the elapsed minutes when these are positive, and 0 otherwise. With the
    reference text [one two three] and 60 seconds elapsed, the speed is
    3. *)
Theorem speed_counts_reference_words :
  (forall original,
     wordsTyped original = word_starts false (trim original))
  /\ (forall st es,
        wordsTyped (originalText (run st es)) = wordsTyped (originalText st))
  /\ (forall st now,
        Live.speed (calculateRealtimeStats st now) =
          match startTime st with
          | Some start => speed_formula (originalText st) start now
          | None => 0%Q
          end
        /\ match calculateStatistics st now, startTime st with
           | Some stats, Some start =>
               Final.speed stats = speed_formula (originalText st) start now
           | None, None => True
           | _, _ => False
           end)
  /\ (forall start,
        let st := session ∅ [] (js "one two three") [Input (js "o") start] in
        wordsTyped (originalText st) = 3
        /\ (Live.speed (calculateRealtimeStats st (start + 60000)) == 3)%Q
        /\ exists stats,
             calculateStatistics st (start + 60000) = Some stats
             /\ (Final.totalTime stats == 60)%Q
             /\ (Final.speed stats == 3)%Q).
Proof.
  split_and!.
  - intros original. unfold wordsTyped. by rewrite split_ws_count.
  - intros st es. by rewrite originalText_run.
  - intros st now. unfold calculateRealtimeStats, calculateStatistics.
    by destruct (startTime st).
  - intros start st.
    assert (Hst : st = mkState (js "one two three") (js "o")
                         (Correct :: replicate 12 Pending)
                         (Some start) 0 1 ∅) by (by vm_compute).
    rewrite Hst.
    assert (Hwords : wordsTyped (js "one two three") = 3) by (by vm_compute).
    unfold calculateRealtimeStats, calculateStatistics.
    cbn [startTime originalText Live.speed].
    replace (start + 60000 - start)%Z with 60000%Z by lia. rewrite Hwords.
    split_and!; [done | by vm_compute |].
    eexists. split; [reflexivity|]. by vm_compute.
Qed.

(** *** More on the state engine *)

Lemma countIncorrect_app a b :
  countIncorrect (a ++ b) = (countIncorrect a + countIncorrect b)%N.
Proof.
  induction a as [|s a IH]; [done|]. cbn [app countIncorrect].
  rewrite IH. lia.
Qed.

Lemma countIncorrect_pending n : countIncorrect (replicate n Pending) = 0%N.
Proof. induction n as [|n IH]; [done|]. cbn. by rewrite IH. Qed.

Lemma countIncorrect_marks expected typed :
  countIncorrect (marks expected typed)
  = N.of_nat (mismatches expected typed).
Proof.
  unfold mismatches. generalize (marks expected typed). intros l.
  induction l as [|s l IH]; [done|]. cbn [countIncorrect].
  destruct (decide (s = Incorrect)) as [->|Hs].
  - rewrite filter_cons_True by done. cbn [length]. rewrite IH. lia.
  - rewrite filter_cons_False by done. rewrite IH. lia.
Qed.

Lemma countIncorrect_take k l :
  (countIncorrect (take k l) <= countIncorrect l)%N.
Proof.
  rewrite <- (take_drop k l) at 2. rewrite countIncorrect_app. lia.
Qed.

Lemma countIncorrect_length l : (countIncorrect l <= N.of_nat (length l))%N.
Proof.
  induction l as [|s l IH]; [done|]. cbn [countIncorrect length].
  destruct (decide _); lia.
Qed.

Lemma marks_correct_or_incorrect expected typed :
  Forall (fun s => s = Correct \/ s = Incorrect) (marks expected typed).
Proof.
  unfold marks. revert typed.
  induction expected as [|e expected IH]; intros [|c typed]; cbn;
    try by constructor.
  constructor; [|apply IH]. unfold mark. destruct (decide (e = c)); auto.
Qed.

Lemma trimStart_idemp s : trimStart (trimStart s) = trimStart s.
Proof.
  induction s as [|c s IH]; [done|]. cbn [trimStart].
  destruct (is_space c) eqn:Hc; [done|]. cbn [trimStart]. by rewrite Hc.
Qed.

Lemma trimEnd_idemp s : trimEnd (trimEnd s) = trimEnd s.
Proof. unfold trimEnd. by rewrite rev_involutive, trimStart_idemp. Qed.


Lemma filterInput_available keys value :
  Forall (fun c => isKeyAvailable keys [c] = true) (filterInput keys value).
Proof.
  induction value as [|c value IH]; [constructor|]. cbn [filterInput].
  destruct (isKeyAvailable keys [c]) eqn:Hc; [by constructor | done].
Qed.


Lemma startTime_handleInput st value now :
  startTime (handleInput st value now) =
    match startTime st with
    | Some t => Some t
    | None =>
        if decide (0 < length
             (if decide (0 < size (availableKeysSet st))
              then filterInput (availableKeysSet st) value else value))
        then Some now else None
    end.
Proof.
  unfold handleInput.
  repeat match goal with
         | |- context [typeForward ?a ?b ?c ?d ?e ?f] =>
             destruct (typeForward a b c d e f) as [[? ?] ?]
         | |- context [decide (?n < ?m)] =>
             lazymatch n with
             | 0 => fail
             | _ => destruct (decide (n < m))
             end
         end; done.
Qed.

(** When the clock stays unset, the effective input is empty. *)
Lemma startTime_unset_effectiveInput st value now :
  startTime (handleInput st value now) = None ->
  effectiveInput st value = [].
Proof.
  rewrite startTime_handleInput, effectiveInput_clamp. unfold slice_to.
  destruct (startTime st); [done|].
  destruct (decide (0 < length _)) as [|Hempty]; [done|]. intros _.
  destruct (if decide (0 < size (availableKeysSet st)) then _ else _);
    [by rewrite take_nil | cbn in Hempty; lia].
Qed.








Lemma availableKeysSet_step st e :
  availableKeysSet (step st e) = availableKeysSet st.
Proof.
  destruct e as [value now|]; [|done]. cbn [step].
  destruct (lt_eq_lt_dec (length (typedText st))
              (length (effectiveInput st value))) as [[Hlt|Heq]|Hgt].
  - by destruct (handleInput_forward st value now Hlt) as (_ & _ & -> & _).
  - by destruct (handleInput_same_length st value now (eq_sym Heq))
      as (_ & _ & -> & _).
  - by destruct (handleInput_backward st value now Hgt) as (_ & _ & -> & _).
Qed.



Lemma run_app es1 es2 st : run st (es1 ++ es2) = run (run st es1) es2.
Proof. apply fold_left_app. Qed.


Lemma effectiveInput_step st value now value' :
  effectiveInput (handleInput st value now) value' = effectiveInput st value'.
Proof.
  rewrite !effectiveInput_clamp.
  destruct (lt_eq_lt_dec (length (typedText st))
              (length (effectiveInput st value))) as [[Hlt|Heq]|Hgt].
  - by destruct (handleInput_forward st value now Hlt) as (_ & -> & -> & _).
  - by destruct (handleInput_same_length st value now (eq_sym Heq))
      as (_ & -> & -> & _).
  - by destruct (handleInput_backward st value now Hgt) as (_ & -> & -> & _).
Qed.

Lemma typedText_length_handleInput st value now :
  length (typedText (handleInput st value now))
  = length (effectiveInput st value).
Proof.
  destruct (lt_eq_lt_dec (length (typedText st))
              (length (effectiveInput st value))) as [[Hlt|Heq]|Hgt].
  - by destruct (handleInput_forward st value now Hlt) as (-> & _).
  - by destruct (handleInput_same_length st value now (eq_sym Heq))
      as (-> & _).
  - by destruct (handleInput_backward st value now Hgt) as (-> & _).
Qed.

(** An input event whose effective value has the length of [typedText]
    changes nothing once the clock is settled. *)
Lemma handleInput_nothing st value now :
  length (effectiveInput st value) = length (typedText st) ->
  startTime (handleInput st value now) = startTime st ->
  handleInput st value now = st.
Proof.
  intros Heq Hstart.
  destruct (handleInput_same_length st value now Heq)
    as (Ht & Ho & Hk & Hc & Hi & He).
  destruct (handleInput st value now), st. cbn in *. congruence.
Qed.

Lemma handleInput_twice st value now now' :
  handleInput (handleInput st value now) value now'
  = handleInput st value now.
Proof.
  apply handleInput_nothing.
  - by rewrite effectiveInput_step, typedText_length_handleInput.
  - rewrite (startTime_handleInput (handleInput st value now)).
    destruct (startTime (handleInput st value now)) eqn:Hs; [done|].
    pose proof (startTime_unset_effectiveInput st value now Hs) as Hempty.
    rewrite startTime_handleInput in Hs.
    destruct (startTime st); [done|].
    assert (Hk : availableKeysSet (handleInput st value now)
                 = availableKeysSet st)
      by apply (availableKeysSet_step st (Input value now)).
    rewrite Hk. by destruct (decide (0 < length _)).
Qed.


Lemma marks_self l k :
  marks l (take k l) = replicate (length (take k l)) Correct.
Proof.
  unfold marks. revert k. induction l as [|c l IH]; intros [|k]; try done.
  cbn [take zip_with length replicate]. rewrite IH. f_equal.
  unfold mark. by rewrite decide_True.
Qed.

Lemma mismatches_self l k : mismatches l (take k l) = 0.
Proof.
  unfold mismatches. rewrite marks_self.
  generalize (length (take k l)). intros n.
  induction n as [|n IH]; [done|].
  rewrite replicate_S, filter_cons_False by done. exact IH.
Qed.

Lemma effectiveInput_no_keys st value :
  size (availableKeysSet st) = 0 ->
  effectiveInput st value = take (length (originalText st)) value.
Proof.
  intros Hsize. rewrite effectiveInput_clamp. unfold slice_to.
  by rewrite decide_False by lia.
Qed.

(** One more code unit of the reference text, typed where the text typed
    so far is a prefix of it. *)
Lemma handleInput_next_of_reference st n now :
  size (availableKeysSet st) = 0 ->
  typedText st = take n (originalText st) ->
  charStates st
  = replicate (length (typedText st)) Correct
    ++ replicate (length (originalText st) - length (typedText st)) Pending ->
  let st' := handleInput st (take (S n) (originalText st)) now in
  typedText st' = take (S n) (originalText st)
  /\ charStates st'
     = replicate (length (typedText st')) Correct
       ++ replicate (length (originalText st) - length (typedText st'))
            Pending
  /\ totalErrors st' = totalErrors st
  /\ totalInputs st'
     = (totalInputs st
        + N.of_nat (length (typedText st') - length (typedText st)))%N
  /\ originalText st' = originalText st
  /\ availableKeysSet st' = availableKeysSet st.
Proof.
  intros Hsize Htyped Hcs st'. subst st'.
  set (o := originalText st) in *.
  assert (Heff : effectiveInput st (take (S n) o) = take (S n) o).
  { rewrite effectiveInput_no_keys by done. fold o.
    apply take_ge. rewrite length_take. lia. }
  assert (Hlen : length (charStates st) = length o).
  { rewrite Hcs, length_app, !length_replicate, Htyped, length_take. lia. }
  destruct (decide (n < length o)) as [Hlt|Hge].
  - assert (Hfw : length (typedText st) < length (effectiveInput st (take (S n) o))).
    { rewrite Heff, Htyped, !length_take. lia. }
    destruct (handleInput_forward st (take (S n) o) now Hfw)
      as (Ht & Ho & Hk & Hc & Hi & He).
    specialize (Hc Hlen). rewrite Ht, Ho, Hk, Hc, Hi, He, Heff. fold o.
    rewrite Htyped, !length_take.
    replace (n `min` length o) with n by lia.
    replace (S n `min` length o) with (S n) by lia.
    replace (drop n (take (S n) o)) with (take 1 (drop n o))
      by (rewrite take_drop_commute; by replace (n + 1) with (S n) by lia).
    rewrite marks_self, mismatches_self, length_take, length_drop.
    replace (1 `min` (length o - n)) with 1 by lia.
    rewrite Hcs, Htyped, length_take.
    replace (n `min` length o) with n by lia.
    rewrite take_app_length' by (by rewrite length_replicate).
    rewrite drop_app_ge by (rewrite length_replicate; lia).
    rewrite length_replicate, drop_replicate.
    split_and!; try done; [|lia].
    rewrite app_assoc, <- replicate_add. do 2 f_equal; lia.
  - assert (Hsame : take (S n) o = take n o)
      by (rewrite !take_ge by lia; done).
    assert (Heq : length (effectiveInput st (take (S n) o))
                  = length (typedText st)).
    { by rewrite Heff, Htyped, Hsame. }
    destruct (handleInput_same_length st (take (S n) o) now Heq)
      as (Ht & Ho & Hk & Hc & Hi & He).
    rewrite Ht, Ho, Hk, Hc, Hi, He. fold o.
    rewrite Hsame, Nat.sub_diag, N.add_0_r. by rewrite <- Htyped.
Qed.

Lemma trimStart_length s : length (trimStart s) <= length s.
Proof.
  induction s as [|c s IH]; [done|]. cbn [trimStart].
  destruct (is_space c); cbn [length]; lia.
Qed.

Lemma trimEnd_length s : length (trimEnd s) <= length s.
Proof.
  unfold trimEnd. rewrite length_rev.
  etrans; [apply trimStart_length|]. by rewrite length_rev.
Qed.

Lemma typing_reference_session text clock n now :
  let st := session ∅ [] text (typing (trimEnd text) clock n) in
  let total := length (trimEnd text) in
  typedText st = take n (trimEnd text)
  /\ charStates st
     = replicate (n `min` total) Correct
       ++ replicate (total - n) Pending
  /\ totalErrors st = 0%N
  /\ totalInputs st = N.of_nat (n `min` total)
  /\ renderText st
     = (if decide (total <= n) then CompletionScreen else TypingText)
  /\ match calculateStatistics st now with
     | Some stats => (Final.accuracy stats == 100)%Q
     | None => n = 0 \/ total = 0
     end.
Proof.
  intros st total. subst st.
  assert (Hmain : forall n,
    let st := session ∅ [] text (typing (trimEnd text) clock n) in
    typedText st = take n (trimEnd text)
    /\ charStates st
       = replicate (length (typedText st)) Correct
         ++ replicate (total - length (typedText st)) Pending
    /\ totalErrors st = 0%N
    /\ totalInputs st = N.of_nat (length (typedText st))
    /\ originalText st = trimEnd text
    /\ availableKeysSet st = ∅
    /\ (startTime st = None <-> n = 0 \/ total = 0)).
  { clear n. intros n. induction n as [|n IH].
    - unfold session, loadText, typing. cbn. rewrite take_0. cbn [length].
      rewrite Nat.sub_0_r. split_and!; try done. split; auto.
    - unfold typing. rewrite seq_S, map_app. cbn [map Nat.add].
      unfold session in *. rewrite run_app.
      fold (typing (trimEnd text) clock n).
      set (s := run (loadText text (run (initial ∅) []))
                  (typing (trimEnd text) clock n)) in *.
      change (run s [Input (take (S n) (trimEnd text)) (clock n)])
        with (handleInput s (take (S n) (trimEnd text)) (clock n)).
      cbn zeta in IH. destruct IH as (Ht & Hc & He & Hi & Ho & Hk & Hs).
      rewrite <- Ho at 1.
      pose proof (startTime_handleInput s (take (S n) (originalText s))
                    (clock n)) as Hstart.
      rewrite Hk in Hstart.
      assert (Hno : ~ 0 < size (∅ : gset jsstring)) by (rewrite size_empty; lia).
      rewrite (decide_False _ _ Hno) in Hstart.
      destruct (handleInput_next_of_reference s n (clock n))
        as (Ht' & Hc' & He' & Hi' & Ho' & Hk').
      + rewrite Hk. apply size_empty.
      + by rewrite Ho.
      + by rewrite Ho.
      + rewrite Ho in *. rewrite Hc', He', Hi', Ho', Hk', Hstart, !Ht'.
        split_and!; try done.
        * rewrite Hi, Ht, !length_take. lia.
        * rewrite length_take. fold total.
          destruct (startTime s) eqn:Hsome.
          -- split; [done|]. intros [Hn|Htot]; [done|].
             assert (Hnone : @None Z = None) by done.
             by destruct (proj2 Hs (or_intror Htot)).
          -- destruct (decide (0 < S n `min` total)); split;
               (done || lia || intros; exfalso; lia). }
  destruct (Hmain n) as (Ht & Hc & He & Hi & Ho & Hk & Hs).
  set (st := session ∅ [] text (typing (trimEnd text) clock n)) in *.
  assert (Hlen : length (typedText st) = n `min` total)
    by (rewrite Ht, length_take; done).
  split_and!; try done.
  - rewrite Hc, Hlen. do 2 f_equal. lia.
  - by rewrite Hi, Hlen.
  - unfold renderText, isComplete. rewrite Ho, Ht, trimEnd_idemp. fold total.
    destruct (decide (total <= n)) as [Hall|Hpart].
    + rewrite take_ge by done. rewrite trimEnd_idemp.
      by rewrite bool_decide_true.
    + rewrite bool_decide_false; [done|].
      pose proof (trimEnd_length (take n (trimEnd text))) as Hle.
      rewrite length_take in Hle. fold total in Hle. lia.
  - unfold calculateStatistics.
    destruct (startTime st) eqn:Hstart; [|by apply Hs].
    cbn [Final.accuracy]. rewrite He, Hi, Hlen.
    assert (Hpos : 0 < n `min` total).
    { destruct (decide (0 < n `min` total)); [done|].
      assert (Hz : n = 0 \/ total = 0) by lia.
      apply Hs in Hz. congruence. }
    destruct (N.of_nat (n `min` total)) as [|p] eqn:Hp; [lia|].
    change (0 <? N.pos p)%N with true. cbn iota.
    change (Z.of_N (N.pos p)) with (Z.pos p). change (Z.of_N 0) with 0%Z.
    rewrite Z.sub_0_r.
    unfold Qeq, Qdiv, Qmult, Qinv, inject_Z. cbn. lia.
Qed.








Lemma trimStart_spaces s : forallb is_space s = true -> trimStart s = [].
Proof.
  induction s as [|c s IH]; [done|]. cbn [forallb trimStart].
  intros Hs. apply andb_true_iff in Hs as [-> Hs]. by apply IH.
Qed.

Lemma trimEnd_spaces s : forallb is_space s = true -> trimEnd s = [].
Proof.
  intros Hs. unfold trimEnd. rewrite trimStart_spaces; [done|].
  rewrite forallb_forall in *. intros c Hc. apply Hs. by apply in_rev.
Qed.



(** *** More on the key policy *)

Lemma not_always_available key :
  ~ always_available toLowerCase key ->
  str_eqb key (js " ") || str_eqb key [160%N] || str_eqb key (js ",")
  || str_eqb key (js ".")
  || str_eqb key (js "Backspace") || str_eqb key [8%N]
  || str_eqb key (js "Enter") || str_eqb key (js "Return")
  || str_eqb key [10%N] || str_eqb key [13%N]
  || str_eqb (toLowerCase key) (js "space")
  || str_eqb (toLowerCase key) (js "comma")
  || str_eqb (toLowerCase key) (js "dot")
  || str_eqb (toLowerCase key) (js "backspace")
  || str_eqb (toLowerCase key) (js "enter") = false.
Proof.
  intros Hnot. apply not_true_is_false. intros Hc. apply Hnot.
  unfold str_eqb in Hc. rewrite !orb_true_iff, !bool_decide_eq_true in Hc.
  unfold always_available. rewrite !elem_of_cons, !elem_of_nil. tauto.
Qed.

Lemma loadConfig_has availableKeys k :
  has (loadConfig availableKeys) k = true
  <-> exists key, key ∈ availableKeys /\ toLowerCase key = k.
Proof.
  unfold has, loadConfig. rewrite bool_decide_eq_true.
  destruct (decide (0 < length availableKeys)) as [Hpos|Hzero].
  - rewrite elem_of_list_to_set, list_elem_of_In, in_map_iff.
    split; intros (key & H1 & H2).
    + exists key. by rewrite list_elem_of_In.
    + exists key. by rewrite <- list_elem_of_In.
  - destruct availableKeys; [|cbn in Hzero; lia].
    split; [by intros ?%elem_of_empty|].
    by intros (key & ?%elem_of_nil & _).
Qed.

Lemma loadConfig_size availableKeys :
  size (loadConfig availableKeys) = 0 <-> availableKeys = [].
Proof.
  unfold loadConfig. destruct availableKeys as [|k ks]; [done|].
  rewrite decide_True by (cbn; lia). split; [|done].
  intros Hsize. apply size_empty_iff in Hsize.
  exfalso. cbn [map list_to_set] in Hsize. set_solver.
Qed.

(** X10. A key that is neither one of the fixed keys nor the tab key is
    available exactly when no keys are configured or some configured key
    has the same lower-cased form: the configuration is matched without
    regard to case, on both sides. *)
Theorem ordinary_key_available_iff_configured availableKeys key :
  ~ always_available toLowerCase key ->
  key <> js "Tab" -> key <> [9%N] -> toLowerCase key <> js "tab" ->
  isKeyAvailable (loadConfig availableKeys) key = true
  <-> availableKeys = []
      \/ exists k, k ∈ availableKeys /\ toLowerCase k = toLowerCase key.
Proof.
  intros Hnot Htab1 Htab2 Htab3. unfold isKeyAvailable.
  rewrite (not_always_available key Hnot).
  unfold str_eqb at 1 2 3.
  rewrite (bool_decide_false (key = js "Tab")) by done.
  rewrite (bool_decide_false (toLowerCase key = js "tab")) by done.
  rewrite (bool_decide_false (key = [9%N])) by done. cbn [orb].
  destruct (bool_decide (size _ = 0)) eqn:Hsize.
  - apply bool_decide_eq_true, loadConfig_size in Hsize. tauto.
  - apply bool_decide_eq_false in Hsize. rewrite loadConfig_size in Hsize.
    assert (Hnorm : (if bool_decide (length key = 1) then toLowerCase key
                     else toLowerCase key) = toLowerCase key)
      by (by destruct (bool_decide _)).
    rewrite Hnorm, loadConfig_has. tauto.
Qed.

(** X11. The tab key, as the key name [Tab] or as the tab character, is
    available exactly when no keys are configured or some configured key
    lower-cases to [tab]: configuring the tab character itself does not
    make it available. *)
Theorem tab_available_iff_named availableKeys :
  toLowerCase (js "Tab") = js "tab" ->
  toLowerCase [9%N] = [9%N] ->
  let keys := loadConfig availableKeys in
  (isKeyAvailable keys [9%N] = true
   <-> availableKeys = []
       \/ exists k, k ∈ availableKeys /\ toLowerCase k = js "tab")
  /\ isKeyAvailable keys (js "Tab") = isKeyAvailable keys [9%N]
  /\ (availableKeys = [[9%N]] -> isKeyAvailable keys [9%N] = false).
Proof.
  intros Hname Hchar keys.
  assert (Hchar_eq : isKeyAvailable keys [9%N]
            = bool_decide (size keys = 0) || has keys (js "tab")).
  { unfold isKeyAvailable. rewrite Hchar. by destruct (bool_decide _). }
  assert (Hname_eq : isKeyAvailable keys (js "Tab")
            = bool_decide (size keys = 0) || has keys (js "tab")).
  { unfold isKeyAvailable. rewrite Hname. by destruct (bool_decide _). }
  assert (Hiff : isKeyAvailable keys [9%N] = true
            <-> availableKeys = []
                \/ exists k, k ∈ availableKeys /\ toLowerCase k = js "tab").
  { rewrite Hchar_eq, orb_true_iff, bool_decide_eq_true. subst keys.
    by rewrite loadConfig_size, loadConfig_has. }
  split_and!; [done | by rewrite Hchar_eq, Hname_eq |].
  intros ->. apply not_true_is_false. rewrite Hiff.
  intros [?|(k & Hk & Hlow)]; [done|].
  apply list_elem_of_singleton in Hk as ->. by rewrite Hchar in Hlow.
Qed.

Lemma filterInput_app keys a b :
  filterInput keys (a ++ b) = filterInput keys a ++ filterInput keys b.
Proof.
  induction a as [|c a IH]; [done|]. cbn [app filterInput].
  destruct (isKeyAvailable keys [c]); [|done]. by rewrite IH.
Qed.

Lemma filterInput_keeps keys s :
  Forall (fun c => isKeyAvailable keys [c] = true) s ->
  filterInput keys s = s.
Proof.
  induction 1 as [|c s Hc _ IH]; [done|]. cbn [filterInput].
  by rewrite Hc, IH.
Qed.

(** X12. The key filter of [handleInput] drops code units and keeps the
    order of the others; filtering again changes nothing; and filtering a
    value that extends an already filtered text keeps that text and
    filters the new code units only, so nothing accepted earlier is lost
    by filtering the whole value each time. *)
Theorem filterInput_is_stable keys accepted value new :
  filterInput keys value `sublist_of` value
  /\ filterInput keys (filterInput keys value) = filterInput keys value
  /\ filterInput keys (filterInput keys accepted ++ new)
     = filterInput keys accepted ++ filterInput keys new.
Proof.
  split_and!.
  - induction value as [|c value IH]; [constructor|]. cbn [filterInput].
    destruct (isKeyAvailable keys [c]); by constructor.
  - apply filterInput_keeps, filterInput_available.
  - rewrite filterInput_app. f_equal.
    apply filterInput_keeps, filterInput_available.
Qed.

(** *** Key presses *)

Lemma newline_always_available keys : isKeyAvailable keys [10%N] = true.
Proof. unfold isKeyAvailable. unfold str_eqb at 9. by rewrite bool_decide_true,
  !orb_true_r. Qed.


Lemma enter_key_available keys key :
  key = js "Enter" \/ key = js "Return" -> isKeyAvailable keys key = true.
Proof.
  intros Hkey. unfold isKeyAvailable.
  match goal with |- (if ?c then _ else _) = _ => assert (c = true) as -> end;
    [|done].
  unfold str_eqb. rewrite !orb_true_iff, !bool_decide_eq_true. tauto.
Qed.

Lemma unavailable_with_keys keys key :
  isKeyAvailable keys key = false -> 0 < size keys.
Proof.
  unfold isKeyAvailable.
  destruct (_ || str_eqb (toLowerCase key) (js "enter")); [done|].
  destruct (bool_decide (size keys = 0)) eqn:Hz; [done|].
  apply bool_decide_eq_false in Hz. lia.
Qed.

Lemma tab_name_and_character keys :
  toLowerCase [9%N] = [9%N] ->
  isKeyAvailable keys (js "Tab") = false ->
  isKeyAvailable keys [9%N] = false.
Proof.
  intros Hchar.
  assert (Hchar_eq : isKeyAvailable keys [9%N]
            = bool_decide (size keys = 0) || has keys (js "tab")).
  { unfold isKeyAvailable. rewrite Hchar. by destruct (bool_decide _). }
  rewrite Hchar_eq. unfold isKeyAvailable.
  destruct (_ || str_eqb (toLowerCase (js "Tab")) (js "enter")); [done|].
  destruct (bool_decide (size keys = 0)); [done|].
  by change (str_eqb (js "Tab") (js "Tab")) with true.
Qed.

(** *** The two versions of the script *)

Lemma Plain_forward orig newChars :
  forall i cs ins errs,
    Plain.forward orig newChars i cs ins errs
    = typeForward orig newChars i cs ins errs.
Proof.
  induction newChars as [|c rest IH]; intros i cs ins errs; [done|].
  cbn [Plain.forward typeForward].
  destruct (decide (length orig <= i)); [done|].
  destruct (bool_decide (orig !! i = Some c)); cbn [negb]; apply IH.
Qed.

Lemma Plain_clear cs : Plain.clear cs = replicate (length cs) Pending.
Proof. induction cs as [|s cs IH]; [done|]. cbn. by rewrite IH. Qed.

(** *** Highlighting *)

Lemma highlightKey_enabled keys kb char isError :
  match highlightKey keys kb char isError with
  | Returned kb' | Thrown kb' => keyboardEnabled kb' = keyboardEnabled kb
  end.
Proof.
  unfold highlightKey. destruct (isKeyAvailable keys char); cbn [negb];
    [|done].
  destruct (getKeyElement char) as [[e|]|];
    destruct (activeKeyElement kb); cbn;
    by destruct (activeKeyTimeout kb).
Qed.

Lemma highlightKey_raises keys kb char isError :
  (exists kb', highlightKey keys kb char isError = Thrown kb')
  <-> raises keys char = true.
Proof.
  unfold highlightKey, raises.
  destruct (isKeyAvailable keys char); cbn [negb andb].
  - destruct (getKeyElement char) as [[e|]|].
    + split; [by intros [? ?]|by intros ?%bool_decide_eq_true].
    + split; [by intros [? ?]|by intros ?%bool_decide_eq_true].
    + split; [by intros _; apply bool_decide_eq_true|by eexists].
  - split; [by intros [? ?]|done].
Qed.

Lemma raises_host keys char :
  raises keys char = true ->
  exists querySelector s,
    keyboardContainer = Some querySelector /\ querySelector s = None.
Proof.
  unfold raises, getKeyElement.
  intros [_ Hnone%bool_decide_eq_true]%andb_true_iff.
  destruct keyboardContainer as [querySelector|]; [|done].
  exists querySelector. repeat case_match; by eexists.
Qed.

Lemma typeForward_keyboard_spec keys orig newChars :
  forall i cs ins errs kb,
    match typeForward_keyboard keys orig newChars i cs ins errs kb with
    | Returned (cs', ins', errs', kb') =>
        (cs', ins', errs') = typeForward orig newChars i cs ins errs
        /\ keyboardEnabled kb' = keyboardEnabled kb
    | Thrown (cs', ins', errs', kb') =>
        keyboardEnabled kb = true /\ keyboardEnabled kb' = true
        /\ exists n c,
             newChars !! n = Some c /\ i + n < length orig
             /\ raises keys [c] = true
             /\ (cs', ins', errs')
                = typeForward orig (take (S n) newChars) i cs ins errs
    end.
Proof.
  induction newChars as [|c rest IH]; intros i cs ins errs kb; [done|].
  cbn [typeForward_keyboard typeForward].
  destruct (decide (length orig <= i)) as [Hout|Hin]; [done|].
  set (isError := negb (bool_decide (orig !! i = Some c))).
  assert (Hone : forall kb0,
    typeForward orig (c :: rest) i cs ins errs
    = typeForward orig rest (S i)
        (array_store i (if isError then Incorrect else Correct) cs)
        (ins + 1)%N (if isError then (errs + 1)%N else errs)
    /\ typeForward orig (take 1 (c :: rest)) i cs ins errs
       = (array_store i (if isError then Incorrect else Correct) cs,
          (ins + 1)%N, if isError then (errs + 1)%N else errs)
    /\ (match
          typeForward_keyboard keys orig rest (S i)
            (array_store i (if isError then Incorrect else Correct) cs)
            (ins + 1)%N (if isError then (errs + 1)%N else errs) kb0
        with
        | Returned (cs', ins', errs', kb') =>
            (cs', ins', errs') = typeForward orig (c :: rest) i cs ins errs
            /\ keyboardEnabled kb' = keyboardEnabled kb0
        | Thrown (cs', ins', errs', kb') =>
            keyboardEnabled kb0 = true /\ keyboardEnabled kb' = true
            /\ exists n c0,
                 (c :: rest) !! n = Some c0 /\ i + n < length orig
                 /\ raises keys [c0] = true
                 /\ (cs', ins', errs')
                    = typeForward orig (take (S n) (c :: rest)) i cs ins errs
        end)).
  { intros kb0.
    assert (Hcons : forall more,
      typeForward orig (c :: more) i cs ins errs
      = typeForward orig more (S i)
          (array_store i (if isError then Incorrect else Correct) cs)
          (ins + 1)%N (if isError then (errs + 1)%N else errs)).
    { intros more. cbn [typeForward]. rewrite decide_False by done.
      fold isError. by destruct isError. }
    split_and!; [apply Hcons| |].
    { change (take 1 (c :: rest)) with [c]. by rewrite Hcons. }
    specialize (IH (S i)
      (array_store i (if isError then Incorrect else Correct) cs)
      (ins + 1)%N (if isError then (errs + 1)%N else errs) kb0).
    destruct (typeForward_keyboard _ _ _ _ _ _ _ _)
      as [[[[cs' ins'] errs'] kb']|[[[cs' ins'] errs'] kb']].
    - by rewrite Hcons.
    - destruct IH as (He1 & He2 & n & c0 & Hn & Hlt & Hr & Heq).
      split_and!; [done..|]. exists (S n), c0.
      split_and!; [done | lia | done |].
      by rewrite firstn_cons, Hcons. }
  fold isError.
  destruct (keyboardEnabled kb) eqn:Hen.
  - pose proof (highlightKey_enabled keys kb [c] isError) as Hkeep.
    destruct (highlightKey keys kb [c] isError) as [kb1|kb1] eqn:Hhl.
    + destruct (Hone kb1) as (_ & _ & Hrest).
      destruct (typeForward_keyboard _ _ _ _ _ _ _ _)
        as [[[[cs' ins'] errs'] kb']|[[[cs' ins'] errs'] kb']].
      * destruct Hrest as [-> ->]. split; [|congruence].
        cbn [typeForward]. rewrite decide_False by done. fold isError.
        by destruct isError.
      * destruct Hrest as (_ & He2 & Hex). split_and!; [done..|].
        destruct Hex as (n & c0 & ? & ? & ? & ->). exists n, c0.
        split_and!; [done..|]. done.
    + split_and!; [done | congruence |]. exists 0, c.
      split_and!; [done | lia | | ].
      * apply (highlightKey_raises keys kb [c] isError). by eexists.
      * by destruct (Hone kb) as (_ & -> & _).
  - destruct (Hone kb) as (_ & _ & Hrest).
    destruct (typeForward_keyboard _ _ _ _ _ _ _ _)
      as [[[[cs' ins'] errs'] kb']|[[[cs' ins'] errs'] kb']].
    + destruct Hrest as [-> ->]. split; [|done].
      cbn [typeForward]. rewrite decide_False by done. fold isError.
      by destruct isError.
    + destruct Hrest as (? & _). congruence.
Qed.



Lemma effectiveInput_unfold st value :
  effectiveInput st value
  = (let input :=
       if decide (0 < size (availableKeysSet st))
       then filterInput (availableKeysSet st) value else value in
     if decide (length (originalText st) < length input)
     then slice_to (length (originalText st)) input else input).
Proof. done. Qed.

Lemma drop_lookup_cons {A} (l : list A) p c :
  l !! p = Some c -> drop p l = c :: drop (S p) l.
Proof.
  revert p. induction l as [|x l IH]; intros [|p] Hp; try done.
  - by injection Hp as ->.
  - cbn. by apply IH.
Qed.

(** X18. When a call of [highlightKey] throws in the forward loop of
    [handleInput], the code units up to the one whose key could not be
    highlighted have been counted and marked, but [typedText] is not
    updated: from a state in which the typed length is the number of
    marked positions, the marked positions are then more than the typed
    code units. *)
Theorem thrown_highlight_leaves_typedText_behind st kb value now st' kb' :
  consistent st ->
  handleInput_keyboard st kb value now = Thrown (st', kb') ->
  length (typedText st) < length (effectiveInput st value) ->
  exists n c,
    effectiveInput st value !! (length (typedText st) + n) = Some c
    /\ raises (availableKeysSet st) [c] = true
    /\ typedText st' = typedText st
    /\ originalText st' = originalText st
    /\ availableKeysSet st' = availableKeysSet st
    /\ totalInputs st' = (totalInputs st + N.of_nat (S n))%N
    /\ countTyped (charStates st') = length (typedText st') + S n
    /\ ~ consistent st'.
Proof.
  intros Hst Hthrown Hfwd.
  pose proof (consistent_length st Hst) as Hlen.
  pose proof (effectiveInput_length st value) as Hfit.
  unfold handleInput_keyboard in Hthrown.
  rewrite effectiveInput_unfold in Hfwd, Hfit |- *. cbv zeta in Hfwd, Hfit |- *.
  set (input := if decide (length (originalText st) < _) then _ else _) in *.
  rewrite decide_True in Hthrown by done.
  pose proof (typeForward_keyboard_spec (availableKeysSet st)
    (originalText st) (slice_from (length (typedText st)) input)
    (length (typedText st)) (charStates st) (totalInputs st)
    (totalErrors st) kb) as Hspec.
  destruct (typeForward_keyboard _ _ _ _ _ _ _ _)
    as [[[[cs' ins'] errs'] kb1]|[[[cs' ins'] errs'] kb1]]; [done|].
  injection Hthrown as <- <-.
  destruct Hspec as (_ & _ & n & c & Hn & Hlt & Hraises & Heq).
  unfold slice_from in Hn, Heq. rewrite lookup_drop in Hn.
  assert (Hnlen : length (typedText st) + n < length input)
    by (by apply lookup_lt_Some in Hn).
  set (p := length (typedText st)) in *.
  assert (Hnc : length (take (S n) (drop p input)) = S n)
    by (rewrite length_take, length_drop; lia).
  rewrite typeForward_spec in Heq by (rewrite ?Hnc; lia).
  rewrite Hnc in Heq. injection Heq as -> -> ->.
  cbn [typedText originalText availableKeysSet totalInputs charStates].
  assert (Hcount : countTyped
            (take p (charStates st)
             ++ marks (drop p (originalText st)) (take (S n) (drop p input))
             ++ drop (p + S n) (charStates st)) = p + S n).
  { destruct Hst as (ts & Hcs & Hts_len & Hts & Hle & _). fold p in Hcs, Hts_len.
    set (partial := mkState (originalText st) (take (p + S n) input)
           (take p (charStates st)
            ++ marks (drop p (originalText st)) (take (S n) (drop p input))
            ++ drop (p + S n) (charStates st)) None 0 0 ∅).
    assert (Hpartial : consistent partial).
    { exists (ts ++ marks (drop p (originalText st))
                       (take (S n) (drop p input))).
      cbn [partial charStates originalText typedText totalErrors
           totalInputs].
      rewrite length_take, Nat.min_l by lia. split_and!.
      - assert (Htake : take p (charStates st) = ts)
          by (rewrite Hcs, <- Hts_len; apply take_app_length).
        assert (Hdrop : drop (p + S n) (charStates st)
                  = replicate (length (originalText st) - (p + S n)) Pending).
        { rewrite Hcs. rewrite drop_app_ge by lia. rewrite drop_replicate.
          f_equal. lia. }
        by rewrite Htake, Hdrop, <- app_assoc.
      - rewrite length_app, marks_length by (rewrite length_drop, Hnc; lia).
        lia.
      - apply Forall_app. split; [done | apply marks_not_pending].
      - lia.
      - done. }
    apply consistent_count in Hpartial.
    cbn [partial charStates typedText] in Hpartial.
    rewrite length_take, Nat.min_l in Hpartial by lia. done. }
  exists n, c. split_and!; try done.
  intros Hbad%consistent_count.
  cbn [typedText charStates] in Hbad. fold p in Hbad. lia.
Qed.

Lemma input_step_stalls st kb value now c :
  keyboardEnabled kb = true ->
  effectiveInput st value !! length (typedText st) = Some c ->
  raises (availableKeysSet st) [c] = true ->
  let r := input_step (st, kb) (value, now) in
  typedText r.1 = typedText st
  /\ originalText r.1 = originalText st
  /\ availableKeysSet r.1 = availableKeysSet st
  /\ totalInputs r.1 = (totalInputs st + 1)%N
  /\ keyboardEnabled r.2 = true.
Proof.
  intros Hen Hc Hraises.
  pose proof (effectiveInput_length st value) as Hfit.
  pose proof (lookup_lt_Some _ _ _ Hc) as Hlt.
  pose proof (drop_lookup_cons _ _ _ Hc) as Hdrop.
  unfold input_step, handleInput_keyboard. cbn [fst snd].
  rewrite effectiveInput_unfold in Hc, Hfit, Hlt, Hdrop.
  cbv zeta in Hc, Hfit, Hlt, Hdrop.
  set (input := if decide (length (originalText st) < _) then _ else _) in *.
  rewrite decide_True by done. unfold slice_from. rewrite Hdrop.
  cbn [typeForward_keyboard]. rewrite decide_False by lia. rewrite Hen.
  apply (highlightKey_raises _ kb _
           (negb (bool_decide (originalText st !! length (typedText st)
                               = Some c)))) in Hraises as [kb' Hthrown].
  pose proof (highlightKey_enabled (availableKeysSet st) kb [c]
           (negb (bool_decide (originalText st !! length (typedText st)
                               = Some c)))) as Hkeep.
  rewrite Hthrown in Hkeep |- *. cbn. split_and!; congruence.
Qed.

(** X19. Typing stalls at a key whose highlighting throws. With the
    keyboard enabled, as long as every value the text area sends has,
    just after the typed text, a code unit for which [highlightKey]
    throws, [typedText] stays as it is, whatever else is typed, while
    each input event counts one more input. *)
Theorem typing_stalls_when_highlight_throws vs :
  forall st kb,
    keyboardEnabled kb = true ->
    Forall (fun v : jsstring * Z =>
              exists c, effectiveInput st v.1 !! length (typedText st)
                        = Some c
                        /\ raises (availableKeysSet st) [c] = true) vs ->
    let r := fold_left input_step vs (st, kb) in
    typedText r.1 = typedText st
    /\ totalInputs r.1 = (totalInputs st + N.of_nat (length vs))%N.
Proof.
  induction vs as [|[value now] vs IH]; intros st kb Hen Hvs r.
  - subst r. cbn. split; [done|lia].
  - apply Forall_cons in Hvs as [(c & Hc & Hraises) Hvs]. cbn [fst] in Hc.
    destruct (input_step_stalls st kb value now c Hen Hc Hraises)
      as (Ht & Ho & Hk & Hi & Hen').
    subst r. cbn [fold_left].
    destruct (input_step (st, kb) (value, now)) as [st1 kb1] eqn:Hstep.
    cbn [fst snd] in Ht, Ho, Hk, Hi, Hen'.
    specialize (IH st1 kb1 Hen').
    assert (Hvs1 : Forall (fun v : jsstring * Z =>
              exists c, effectiveInput st1 v.1 !! length (typedText st1)
                        = Some c
                        /\ raises (availableKeysSet st1) [c] = true) vs).
    { eapply Forall_impl; [exact Hvs|]. intros v (c0 & Hc0 & Hr0).
      exists c0. unfold effectiveInput. rewrite Ht, Ho, Hk. done. }
    destruct (IH Hvs1) as [Ht' Hi']. rewrite Ht', Hi', Ht, Hi.
    split; [done|]. cbn [length]. lia.
Qed.

Lemma highlight_cleared kb :
  highlight_ok kb ->
  (forall e0, activeKeyElement kb = Some e0 ->
     forall x, x <> e0 -> active kb x = false /\ active_error kb x = false)
  /\ (activeKeyElement kb = None ->
      forall x, active kb x = false /\ active_error kb x = false)
  /\ (forall id, activeKeyTimeout kb = Some id ->
        delete id (timers kb) = ∅)
  /\ (activeKeyTimeout kb = None -> timers kb = ∅).
Proof.
  intros [Hclass Htimers]. split_and!.
  - intros e0 He0 x Hx.
    destruct (active kb x) eqn:Ha.
    { destruct (Hclass x (or_introl Ha)) as [Hact _]. congruence. }
    destruct (active_error kb x) eqn:Hb; [|done].
    destruct (Hclass x (or_intror Hb)) as [Hact _]. congruence.
  - intros Hnone x.
    destruct (active kb x) eqn:Ha.
    { destruct (Hclass x (or_introl Ha)) as [Hact _]. congruence. }
    destruct (active_error kb x) eqn:Hb; [|done].
    destruct (Hclass x (or_intror Hb)) as [Hact _]. congruence.
  - intros id Hid. apply map_empty. intros id'.
    destruct (decide (id' = id)) as [->|Hne]; [apply lookup_delete_eq|].
    rewrite lookup_delete_ne by done.
    destruct (timers kb !! id') as [e|] eqn:Hl; [|done].
    destruct (Htimers id' e Hl) as [Heq _]. congruence.
  - intros Hnone. apply map_empty. intros id'.
    destruct (timers kb !! id') as [e|] eqn:Hl; [|done].
    destruct (Htimers id' e Hl) as [Heq _]. congruence.
Qed.

Lemma highlight_ok_plain kb :
  (forall x, active kb x = false /\ active_error kb x = false) ->
  timers kb = ∅ -> highlight_ok kb.
Proof.
  intros Hclass Htimers. split.
  - intros e [He|He]; destruct (Hclass e); congruence.
  - intros id e. by rewrite Htimers, lookup_empty.
Qed.

Lemma highlightKey_cleared kb :
  highlight_ok kb ->
  let kb1 :=
    match activeKeyElement kb with
    | Some e => classList_remove e kb
    | None => kb
    end in
  let kb2 :=
    match activeKeyTimeout kb1 with
    | Some id => clearTimeout id kb1
    | None => kb1
    end in
  (forall x, active kb2 x = false /\ active_error kb2 x = false)
  /\ timers kb2 = ∅.
Proof.
  intros Hok kb1 kb2.
  destruct (highlight_cleared kb Hok) as (Hsome & Hnone & Hdel & Hno).
  subst kb1 kb2. split.
  - intros x. destruct (activeKeyElement kb) as [e0|] eqn:He0.
    + assert (Hx : active (classList_remove e0 kb) x = false
                   /\ active_error (classList_remove e0 kb) x = false).
      { cbn. destruct (decide (x = e0)); [done|]. by apply (Hsome e0). }
      cbn [classList_remove activeKeyTimeout].
      by destruct (activeKeyTimeout kb).
    + specialize (Hnone eq_refl x). by destruct (activeKeyTimeout kb).
  - destruct (activeKeyElement kb) as [e0|];
      cbn [classList_remove activeKeyTimeout];
      destruct (activeKeyTimeout kb) as [id|] eqn:Hid; cbn; auto.
Qed.

Lemma highlight_ok_highlightKey keys kb char isError :
  highlight_ok kb ->
  match highlightKey keys kb char isError with
  | Returned kb' | Thrown kb' => highlight_ok kb'
  end.
Proof.
  intros Hok. unfold highlightKey.
  destruct (isKeyAvailable keys char) eqn:Hav; cbn [negb]; [|done].
  destruct (highlightKey_cleared kb Hok) as [Hclass Htimers]. cbv zeta in Hclass, Htimers.
  set (kb2 := match activeKeyTimeout _ with
              | Some id => _
              | None => _
              end) in *.
  destruct (getKeyElement char) as [[keyElement|]|];
    [|by apply highlight_ok_plain..].
  split; cbn.
  - intros e He.
    assert (e = keyElement) as ->.
    { destruct (decide (e = keyElement)); [done|].
      destruct (Hclass e). destruct He; congruence. }
    split; [done|]. eexists. split; [done|]. apply lookup_insert_eq.
  - intros id e. rewrite Htimers. intros Hl.
    apply lookup_insert_Some in Hl as [[<- <-]|[_ Hl]]; [done|].
    by rewrite lookup_empty in Hl.
Qed.

Lemma timeout_clears kb id :
  highlight_ok kb -> is_Some (timers kb !! id) ->
  (forall x, active (timeout id kb) x = false
             /\ active_error (timeout id kb) x = false)
  /\ timers (timeout id kb) = ∅.
Proof.
  intros Hok [e He]. unfold timeout. rewrite He.
  destruct (highlight_cleared kb Hok) as (Hsome & _ & Hdel & _).
  destruct Hok as [_ Htimers]. destruct (Htimers id e He) as (Hid & Hact & _).
  split; cbn.
  - intros x. destruct (decide (x = e)); [done|]. by apply (Hsome e).
  - by apply Hdel.
Qed.


(** *** Live statistics *)

Lemma statMap_known stats k :
  (k ∈ stat_keys -> is_Some (statMap stats k))
  /\ (k ∉ stat_keys -> statMap stats k = None).
Proof.
  unfold stat_keys, statMap, str_eqb. rewrite !elem_of_cons, elem_of_nil.
  split.
  - intros [->|[->|[->|[->|[->|[->|[]]]]]]]; by eexists.
  - intros Hnot. rewrite !bool_decide_false; [done|tauto..].
Qed.

Lemma append_items_returns stats statKeys :
  (forall k, k ∈ statKeys -> k ∉ inherited) ->
  forall items,
    exists items',
      append_items inherited stats statKeys items = Returned items'
      /\ length items' = length items + length (known_keys statKeys).
Proof.
  induction statKeys as [|k ks IH]; intros Hown items.
  - exists items. cbn. split; [done|lia].
  - cbn [append_items]. unfold known_keys. rewrite filter_cons.
    destruct (statMap_known stats k) as [Hknown Hunknown].
    destruct (decide (k ∈ stat_keys)) as [Hin|Hout].
    + destruct (Hknown Hin) as [item ->].
      destruct (IH (fun k' Hk' => Hown k' (list_elem_of_further _ _ _ Hk'))
                  (items ++ [item])) as (items' & -> & Hlen).
      exists items'. split; [done|]. rewrite length_app in Hlen.
      cbn [length] in Hlen |- *. unfold known_keys in Hlen. lia.
    + rewrite (Hunknown Hout).
      rewrite bool_decide_false by (apply Hown; left).
      destruct (IH (fun k' Hk' => Hown k' (list_elem_of_further _ _ _ Hk'))
                  items) as (items' & -> & Hlen).
      exists items'. split; [done|]. unfold known_keys in Hlen. lia.
Qed.

Lemma append_items_throws stats statKeys k :
  k ∈ statKeys -> k ∈ inherited -> k ∉ stat_keys ->
  forall items, exists items',
    append_items inherited stats statKeys items = Thrown items'.
Proof.
  intros Hin Hinh Hout.
  induction statKeys as [|k' ks IH]; intros items;
    [by apply elem_of_nil in Hin|].
  cbn [append_items]. destruct (statMap stats k') as [item|] eqn:Hitem.
  - apply elem_of_cons in Hin as [->|Hin].
    + destruct (statMap_known stats k') as [_ Hunknown].
      rewrite Hunknown in Hitem by done. done.
    + by apply IH.
  - destruct (bool_decide (k' ∈ inherited)) eqn:Hk'; [by eexists|].
    apply elem_of_cons in Hin as [->|Hin].
    + apply bool_decide_eq_false in Hk'. done.
    + by apply IH.
Qed.

Lemma updateRealtimeStats_runs st now rt :
  realtimeStatsContainer = true -> realTimeStats <> [] ->
  (forall k, k ∈ realTimeStats -> k ∉ inherited) ->
  (realtimeStatsInterval rt <> None -> startTime st <> None) ->
  intervals rt = running (realtimeStatsInterval rt) ->
  exists rt',
    updateRealtimeStats realtimeStatsContainer realTimeStats inherited st now
      rt = Returned rt'
    /\ stats_display rt' = DisplayFlex
    /\ length (stat_items rt') = length (known_keys realTimeStats)
    /\ (realtimeStatsInterval rt' = None <-> startTime st = None)
    /\ intervals rt' = running (realtimeStatsInterval rt')
    /\ (realtimeStatsInterval rt <> None ->
        realtimeStatsInterval rt' = realtimeStatsInterval rt).
Proof.
  intros Hcontainer Hconfigured Hown Hstarted Hrunning.
  unfold updateRealtimeStats. rewrite Hcontainer. cbn [negb].
  rewrite bool_decide_false by done.
  destruct (append_items_returns (calculateRealtimeStats st now)
              realTimeStats Hown []) as (items & -> & Hlen).
  cbn [length Nat.add] in Hlen.
  destruct (startTime st) as [start|] eqn:Hstart;
    destruct (realtimeStatsInterval rt) as [id|] eqn:Hid;
    eexists; (split; [reflexivity|]);
    cbn [stats_display stat_items realtimeStatsInterval intervals];
    rewrite ?Hid, ?Hrunning; cbn [running]; split_and!; try done.
  - apply (left_id_L ∅ (∪)).
  - exfalso. by apply Hstarted.
Qed.

Lemma renderText_stats_interval st rt :
  realtimeStatsInterval (renderText_stats st rt) = realtimeStatsInterval rt
  /\ intervals (renderText_stats st rt) = intervals rt.
Proof.
  unfold renderText_stats, hide_stats.
  by destruct (renderText st), completionScreen, realtimeStatsContainer.
Qed.

Lemma startTime_stays st value now :
  startTime st <> None -> startTime (handleInput st value now) <> None.
Proof.
  rewrite startTime_handleInput. by destruct (startTime st).
Qed.

(** *** Exceptions in the input handler *)

(** What [handleInput] leaves when it gets as far as its calls of
    [renderText] and [updateRealtimeStats], and what it leaves when
    [highlightKey] throws before. *)
Lemma handleInput_keyboard_outcome st kb value now :
  match handleInput_keyboard st kb value now with
  | Returned (st', kb') =>
      st' = handleInput st value now
      /\ keyboardEnabled kb' = keyboardEnabled kb
  | Thrown (st', kb') =>
      keyboardEnabled kb = true /\ keyboardEnabled kb' = true
      /\ ((length (typedText st) < length (effectiveInput st value)
           /\ exists n c,
                effectiveInput st value !! (length (typedText st) + n)
                  = Some c
                /\ raises (availableKeysSet st) [c] = true
                /\ st' = cut_short st value now n)
          \/ (length (effectiveInput st value) < length (typedText st)
              /\ raises (availableKeysSet st) (js "backspace") = true
              /\ st' = handleInput st value now))
  end.
Proof.
  unfold handleInput_keyboard, cut_short.
  rewrite startTime_handleInput, effectiveInput_unfold. unfold handleInput.
  cbv zeta.
  set (input := if decide (length (originalText st) < _) then _ else _).
  destruct (decide (length (typedText st) < length input)) as [Hfwd|Hnot].
  - match goal with
    | |- context [typeForward_keyboard ?k ?o ?n ?i ?c ?a ?b ?kb] =>
        pose proof (typeForward_keyboard_spec k o n i c a b kb) as Hspec;
        destruct (typeForward_keyboard k o n i c a b kb)
          as [[[[cs' ins'] errs'] kb']|[[[cs' ins'] errs'] kb']]
    end.
    + destruct Hspec as [<- Hen]. done.
    + destruct Hspec as (Hen & Hen' & n & c & Hc & _ & Hraises & Heq).
      split_and!; [done..|]. left. split; [done|]. exists n, c.
      rewrite <- Heq. unfold slice_from in Hc. rewrite lookup_drop in Hc.
      done.
  - destruct (decide (length input < length (typedText st)))
      as [Hback|Hsame]; [|done].
    destruct (keyboardEnabled kb) eqn:Hen; cbn [andb]; [|done].
    destruct (isKeyAvailable (availableKeysSet st) (js "backspace"));
      [|done].
    pose proof (highlightKey_enabled (availableKeysSet st) kb
                  (js "backspace") false) as Hkeep.
    destruct (highlightKey _ kb (js "backspace") false) as [kb'|kb'] eqn:Hhl.
    + split; [done|congruence].
    + split_and!; [done|congruence|]. right. split_and!; [done| |done].
      apply (highlightKey_raises _ kb _ false). by eexists.
Qed.


(** *** What every state of the page keeps *)

Lemma sound_segment (cs m : list CharState) (p q : nat) :
  p + length m <= length cs -> q <= p + length m ->
  Forall (fun s => s = Correct \/ s = Incorrect) (take p cs) ->
  Forall (fun s => s = Correct \/ s = Incorrect) m ->
  Forall (fun s => s <> Undefined) cs ->
  length (take p cs ++ m ++ drop (p + length m) cs) = length cs
  /\ Forall (fun s => s = Correct \/ s = Incorrect)
       (take q (take p cs ++ m ++ drop (p + length m) cs))
  /\ Forall (fun s => s <> Undefined)
       (take p cs ++ m ++ drop (p + length m) cs)
  /\ (countIncorrect (take p cs ++ m ++ drop (p + length m) cs)
      <= countIncorrect cs + countIncorrect m)%N.
Proof.
  intros Hfit Hq Htake Hm Hcs. split_and!.
  - rewrite !length_app, length_take, length_drop. lia.
  - rewrite app_assoc, take_app_le
      by (rewrite length_app, length_take; lia).
    apply Forall_take, Forall_app. done.
  - apply Forall_app. split; [by apply Forall_take|].
    apply Forall_app. split; [|by apply Forall_drop].
    eapply Forall_impl; [exact Hm|]. by intros s [-> | ->].
  - rewrite !countIncorrect_app.
    assert (countIncorrect (take p cs)
            + countIncorrect (drop (p + length m) cs)
            <= countIncorrect cs)%N; [|lia].
    rewrite <- (take_drop p cs) at 3. rewrite countIncorrect_app.
    assert (countIncorrect (drop (p + length m) cs)
            <= countIncorrect (drop p cs))%N; [|lia].
    rewrite <- (take_drop (length m) (drop p cs)).
    rewrite countIncorrect_app, drop_drop. lia.
Qed.

Lemma sound_initial keys : sound (initial keys).
Proof. unfold sound. cbn. split_and!; (done || constructor). Qed.

Lemma sound_restart st : sound st -> sound (restart st).
Proof.
  intros (Hlen & _). unfold sound, restart.
  cbn [originalText typedText charStates totalErrors totalInputs length
       take].
  rewrite length_replicate, countIncorrect_pending.
  split_and!; try (done || constructor || lia).
  by apply Forall_replicate.
Qed.

Lemma sound_loadText text st :
  sound st -> originalText st = [] -> sound (loadText text st).
Proof.
  intros (_ & Hle & _ & _ & _ & Hcount & _) Horig.
  rewrite Horig in Hle. cbn in Hle.
  assert (Htyped : typedText st = []).
  { destruct (typedText st); [done | cbn in Hle; lia]. }
  unfold sound, loadText.
  cbn [originalText typedText charStates totalErrors totalInputs].
  rewrite Htyped, length_replicate, countIncorrect_pending.
  cbn [length take].
  split_and!; try (done || constructor || lia).
  by apply Forall_replicate.
Qed.

Lemma sound_handleInput st value now :
  sound st -> sound (handleInput st value now).
Proof.
  intros (Hlen & Hle & Hmarks & Hholes & Herrs & Hcount & Hins).
  pose proof (effectiveInput_length st value) as Hfit.
  unfold sound.
  destruct (lt_eq_lt_dec (length (typedText st))
              (length (effectiveInput st value))) as [[Hlt|Heq]|Hgt].
  - destruct (handleInput_forward st value now Hlt)
      as (-> & -> & _ & Hcs & -> & ->).
    rewrite (Hcs Hlen). clear Hcs.
    set (m := marks (drop (length (typedText st)) (originalText st))
                (drop (length (typedText st)) (effectiveInput st value))).
    assert (Hm : length m = length (effectiveInput st value)
                            - length (typedText st)).
    { unfold m. rewrite marks_length; rewrite !length_drop; lia. }
    assert (Heff : length (effectiveInput st value)
                   = length (typedText st) + length m) by lia.
    rewrite Heff.
    destruct (sound_segment (charStates st) m (length (typedText st))
                (length (typedText st) + length m))
      as (H1 & H2 & H3 & H4);
      [lia | lia | done | apply marks_correct_or_incorrect | done |].
    assert (Hcm : countIncorrect m
                  = N.of_nat (mismatches
                      (drop (length (typedText st)) (originalText st))
                      (drop (length (typedText st))
                         (effectiveInput st value))))
      by apply countIncorrect_marks.
    rewrite Hcm in H4.
    pose proof (mismatches_le (drop (length (typedText st)) (originalText st))
                  (drop (length (typedText st)) (effectiveInput st value)))
      as Hmis.
    rewrite length_drop in Hmis.
    split_and!; try done; lia.
  - destruct (handleInput_same_length st value now (eq_sym Heq))
      as (-> & -> & _ & -> & -> & ->). done.
  - destruct (handleInput_backward st value now Hgt)
      as (-> & -> & _ & Hcs & -> & ->).
    rewrite (Hcs Hlen). clear Hcs.
    split_and!; try lia.
    + rewrite length_app, length_take, length_replicate. lia.
    + rewrite take_app_le by (rewrite length_take; lia).
      rewrite take_take, Nat.min_id.
      replace (length (effectiveInput st value))
        with (length (effectiveInput st value) `min`
              length (typedText st)) by lia.
      rewrite <- take_take. by apply Forall_take.
    + apply Forall_app. split; [by apply Forall_take|].
      by apply Forall_replicate.
    + rewrite countIncorrect_app, countIncorrect_pending.
      pose proof (countIncorrect_take (length (effectiveInput st value))
                    (charStates st)). lia.
Qed.

Lemma sound_cut_short st value now n c :
  sound st ->
  effectiveInput st value !! (length (typedText st) + n) = Some c ->
  sound (cut_short st value now n).
Proof.
  intros (Hlen & Hle & Hmarks & Hholes & Herrs & Hcount & Hins) Hc.
  pose proof (effectiveInput_length st value) as Hfit.
  pose proof (lookup_lt_Some _ _ _ Hc) as Hlt.
  unfold cut_short, slice_from.
  set (newChars := take (S n) (drop (length (typedText st))
                                 (effectiveInput st value))).
  assert (Hnew : length newChars = S n).
  { unfold newChars. rewrite length_take, length_drop. lia. }
  rewrite typeForward_spec by (done || lia).
  set (m := marks (drop (length (typedText st)) (originalText st)) newChars).
  assert (Hm : length m = S n).
  { unfold m. rewrite marks_length; rewrite ?length_drop; lia. }
  unfold sound.
  cbn [originalText typedText charStates totalErrors totalInputs].
  rewrite Hnew, <- Hm.
  destruct (sound_segment (charStates st) m (length (typedText st))
              (length (typedText st)))
    as (H1 & H2 & H3 & H4);
    [lia | lia | done | apply marks_correct_or_incorrect | done |].
  assert (Hcm : countIncorrect m
                = N.of_nat (mismatches
                    (drop (length (typedText st)) (originalText st))
                    newChars))
    by apply countIncorrect_marks.
  rewrite Hcm in H4.
  pose proof (mismatches_le (drop (length (typedText st)) (originalText st))
                newChars) as Hmis.
  split_and!; try done; lia.
Qed.

Lemma sound_handleInput_keyboard st kb value now :
  sound st -> sound (settled (handleInput_keyboard st kb value now)).1.
Proof.
  intros Hst.
  pose proof (handleInput_keyboard_outcome st kb value now) as Hout.
  destruct (handleInput_keyboard st kb value now) as [[st' kb']|[st' kb']];
    cbn [settled fst].
  - destruct Hout as [-> _]. by apply sound_handleInput.
  - destruct Hout as (_ & _ & [(_ & n & c & Hc & _ & ->)|(_ & _ & ->)]).
    + by apply sound_cut_short with c.
    + by apply sound_handleInput.
Qed.

(** The typed positions are among those that are not pending. *)
Lemma sound_count st :
  sound st -> length (typedText st) <= countTyped (charStates st).
Proof.
  intros (Hlen & Hle & Hmarks & _). unfold countTyped.
  rewrite <- (take_drop (length (typedText st)) (charStates st)) at 1.
  rewrite filter_app, length_app.
  assert (Hkeep : forall l,
            Forall (fun s => s = Correct \/ s = Incorrect) l ->
            filter (fun s => s <> Pending) l = l).
  { intros l Hl. induction Hl as [|s l Hs _ IH]; [done|].
    rewrite filter_cons_True by (by destruct Hs as [-> | ->]).
    by rewrite IH. }
  rewrite (Hkeep _ Hmarks), length_take. lia.
Qed.


(** *** The variables through the actions of the page *)

Lemma handleInput_page_fields pg value now later :
  vars (settled (handleInput_page pg value now later))
    = (settled (handleInput_keyboard (vars pg) (keyboard pg) value now)).1
  /\ keyboard (settled (handleInput_page pg value now later))
    = (settled (handleInput_keyboard (vars pg) (keyboard pg) value now)).2.
Proof.
  unfold handleInput_page.
  destruct (handleInput_keyboard (vars pg) (keyboard pg) value now)
    as [[st kb]|[st kb]]; [|done].
  cbv zeta. by destruct (updateRealtimeStats _ _ _ _ _ _).
Qed.

Lemma restart_page_vars pg now :
  vars (settled (restart_page pg now)) = restart (vars pg).
Proof.
  unfold restart_page. cbv zeta.
  destruct (updateRealtimeStats _ _ _ _ _ _) as [rt|rt]; [|done].
  by destruct (if realtimeStatsContainer then _ else _).
Qed.

Lemma cut_short_fixed st value now n :
  originalText (cut_short st value now n) = originalText st
  /\ typedText (cut_short st value now n) = typedText st
  /\ availableKeysSet (cut_short st value now n) = availableKeysSet st
  /\ startTime (cut_short st value now n)
     = startTime (handleInput st value now).
Proof. unfold cut_short. cbv zeta. by destruct (typeForward _ _ _ _ _ _) as [[? ?] ?]. Qed.

Lemma handleInput_fixed st value now :
  originalText (handleInput st value now) = originalText st
  /\ availableKeysSet (handleInput st value now) = availableKeysSet st.
Proof.
  split.
  - apply (originalText_run [Input value now]).
  - apply (availableKeysSet_step st (Input value now)).
Qed.

Lemma handleInput_keyboard_fixed st kb value now :
  originalText (settled (handleInput_keyboard st kb value now)).1
    = originalText st
  /\ availableKeysSet (settled (handleInput_keyboard st kb value now)).1
    = availableKeysSet st
  /\ keyboardEnabled (settled (handleInput_keyboard st kb value now)).2
    = keyboardEnabled kb.
Proof.
  pose proof (handleInput_keyboard_outcome st kb value now) as Hout.
  pose proof (handleInput_fixed st value now) as [Horig Hkeys].
  destruct (handleInput_keyboard st kb value now) as [[st' kb']|[st' kb']];
    cbn [settled fst snd].
  - by destruct Hout as [-> ->].
  - destruct Hout as (-> & -> & [(_ & n & c & _ & _ & ->)|(_ & _ & ->)]);
      [|done].
    by destruct (cut_short_fixed st value now n) as (-> & _ & -> & _).
Qed.

Lemma restart_keyboard_enabled kb :
  keyboardEnabled (restart_keyboard kb) = keyboardEnabled kb.
Proof.
  unfold restart_keyboard.
  destruct (activeKeyElement kb); cbn; by destruct (activeKeyTimeout kb).
Qed.

Lemma timeout_enabled id kb :
  keyboardEnabled (timeout id kb) = keyboardEnabled kb.
Proof. unfold timeout. by destruct (timers kb !! id). Qed.

(** A key press leaves the page as it is, unless it is a tab that gets
    as far as [highlightKey]. *)
Lemma handleKeyDown_page pg key value selectionStart now later :
  page (settled (handleKeyDown pg key value selectionStart now later)) = pg
  \/ (str_eqb key (js "Tab") = true
      /\ exists newValue,
           (forall c, c ∈ newValue -> c = 9%N \/ c ∈ value)
           /\ match
                (if keyboardEnabled (keyboard pg)
                 then highlightKey (availableKeysSet (vars pg))
                        (keyboard pg) [9%N] false
                 else Returned (keyboard pg))
              with
              | Thrown kb =>
                  page (settled (handleKeyDown pg key value selectionStart
                                   now later))
                  = mkPage (vars pg) kb (live pg)
              | Returned kb =>
                  page (settled (handleKeyDown pg key value selectionStart
                                   now later))
                  = settled (handleInput_page
                               (mkPage (vars pg) kb (live pg)) newValue now
                               later)
              end).
Proof.
  unfold handleKeyDown. cbv zeta.
  destruct (str_eqb key (js "Enter") || str_eqb key (js "Return")).
  { left. destruct (negb _); [done|]. by destruct (decide _). }
  destruct (str_eqb key (js "Tab")).
  2: { left. destruct (_ && _); [done|]. by destruct (_ && _). }
  destruct (negb _); [by left|].
  destruct (decide (length (originalText (vars pg)) <= length value));
    [by left|].
  right. split; [done|]. eexists. split.
  2: { by destruct (if keyboardEnabled (keyboard pg) then _ else _). }
  intros c Hc. unfold slice_to, slice_from in Hc.
  apply elem_of_app in Hc as [Hc|Hc]; [right; by eapply subseteq_take|].
  apply elem_of_cons in Hc as [->|Hc]; [by left|]. right.
  by eapply subseteq_drop.
Qed.

(** The page of an action is the page, the page restarted, or the page
    after an input event on some keyboard. *)
Lemma page_act_vars pg a :
  vars (page_act pg a) = vars pg
  \/ vars (page_act pg a) = restart (vars pg)
  \/ exists kb value now,
       vars (page_act pg a)
       = (settled (handleInput_keyboard (vars pg) kb value now)).1.
Proof.
  destruct a as [value now later|key value selectionStart now later|now
                 |id now| id | |]; cbn [page_act].
  - right. right. exists (keyboard pg), value, now.
    apply handleInput_page_fields.
  - destruct (handleKeyDown_page pg key value selectionStart now later)
      as [-> | (_ & newValue & _ & Hpage)]; [by left|].
    destruct (if keyboardEnabled (keyboard pg) then _ else _) as [kb|kb];
      rewrite Hpage; [|by left].
    right. right. exists kb, newValue, now.
    apply (handleInput_page_fields (mkPage (vars pg) kb (live pg))).
  - right. left. apply restart_page_vars.
  - left. by destruct (bool_decide _).
  - by left.
  - left. by destruct (keyboardEnabled _).
  - by left.
Qed.

Lemma highlightKey_tab_enabled pg :
  match
    (if keyboardEnabled (keyboard pg)
     then highlightKey (availableKeysSet (vars pg)) (keyboard pg) [9%N] false
     else Returned (keyboard pg))
  with
  | Returned kb | Thrown kb =>
      keyboardEnabled kb = keyboardEnabled (keyboard pg)
  end.
Proof.
  destruct (keyboardEnabled (keyboard pg)) eqn:Hen; [|done].
  pose proof (highlightKey_enabled (availableKeysSet (vars pg))
                (keyboard pg) [9%N] false) as Hkeep.
  destruct (highlightKey _ _ _ _); congruence.
Qed.

Lemma page_act_enabled pg a :
  keyboardEnabled (keyboard (page_act pg a)) = keyboardEnabled (keyboard pg).
Proof.
  destruct a as [value now later|key value selectionStart now later|now
                 |id now| id | |]; cbn [page_act].
  - destruct (handleInput_page_fields pg value now later) as [_ ->].
    apply handleInput_keyboard_fixed.
  - destruct (handleKeyDown_page pg key value selectionStart now later)
      as [-> | (_ & newValue & _ & Hpage)]; [done|].
    pose proof (highlightKey_tab_enabled pg) as Hhl.
    destruct (if keyboardEnabled (keyboard pg) then _ else _) as [kb|kb];
      rewrite Hpage; [|done].
    destruct (handleInput_page_fields (mkPage (vars pg) kb (live pg))
                newValue now later) as [_ ->].
    cbn [vars keyboard]. rewrite <- Hhl. apply handleInput_keyboard_fixed.
  - unfold restart_page. cbv zeta.
    destruct (updateRealtimeStats _ _ _ _ _ _) as [rt|rt]; [|done].
    destruct (if realtimeStatsContainer then _ else _);
      apply restart_keyboard_enabled.
  - by destruct (bool_decide _).
  - apply timeout_enabled.
  - destruct (keyboardEnabled (keyboard pg)) eqn:Hen; [|done]. cbn.
    pose proof (highlightKey_enabled (availableKeysSet (vars pg))
                  (keyboard pg) [10%N] false) as Hkeep.
    destruct (highlightKey _ _ _ _); cbn; congruence.
  - done.
Qed.

Lemma page_act_fixed pg a :
  originalText (vars (page_act pg a)) = originalText (vars pg)
  /\ availableKeysSet (vars (page_act pg a)) = availableKeysSet (vars pg).
Proof.
  destruct (page_act_vars pg a) as [-> | [-> | (kb & value & now & ->)]];
    [done | done |].
  by destruct (handleInput_keyboard_fixed (vars pg) kb value now)
    as (-> & -> & _).
Qed.

Lemma sound_page_act pg a : sound (vars pg) -> sound (vars (page_act pg a)).
Proof.
  intros Hst.
  destruct (page_act_vars pg a) as [-> | [-> | (kb & value & now & ->)]];
    [done | by apply sound_restart | by apply sound_handleInput_keyboard].
Qed.

Lemma page_run_acts actions a pg :
  page_run pg (map PageAct (a :: actions))
  = page_run (page_act pg a) (map PageAct actions).
Proof. done. Qed.

Lemma page_acts_fixed actions :
  forall pg,
    originalText (vars (page_run pg (map PageAct actions)))
      = originalText (vars pg)
    /\ availableKeysSet (vars (page_run pg (map PageAct actions)))
      = availableKeysSet (vars pg)
    /\ keyboardEnabled (keyboard (page_run pg (map PageAct actions)))
      = keyboardEnabled (keyboard pg).
Proof.
  induction actions as [|a actions IH]; intros pg; [done|].
  rewrite page_run_acts.
  destruct (IH (page_act pg a)) as (-> & -> & ->).
  destruct (page_act_fixed pg a) as [-> ->].
  by rewrite page_act_enabled.
Qed.

Lemma sound_page_acts actions :
  forall pg, sound (vars pg) ->
    sound (vars (page_run pg (map PageAct actions))).
Proof.
  induction actions as [|a actions IH]; intros pg Hst; [done|].
  rewrite page_run_acts. by apply IH, sound_page_act.
Qed.

Lemma page_session_unfold keys enabled now before text after :
  page_session keys enabled now before text after
  = page_run
      (loadText_page text
         (page_run (initial_page keys enabled now) (map PageAct before)))
      (map PageAct after).
Proof. unfold page_session, page_run. by rewrite fold_left_app. Qed.

Lemma page_session_fixed keys enabled now before text after :
  originalText (vars (page_session keys enabled now before text after))
    = trimEnd text
  /\ availableKeysSet (vars (page_session keys enabled now before text after))
    = keys
  /\ keyboardEnabled
       (keyboard (page_session keys enabled now before text after))
    = enabled.
Proof.
  rewrite page_session_unfold.
  destruct (page_acts_fixed after
              (loadText_page text
                 (page_run (initial_page keys enabled now)
                    (map PageAct before)))) as (-> & -> & ->).
  cbn [loadText_page loadText vars keyboard originalText availableKeysSet].
  by destruct (page_acts_fixed before (initial_page keys enabled now))
    as (_ & -> & ->).
Qed.

Lemma sound_page_session keys enabled now before text after :
  sound (vars (page_session keys enabled now before text after)).
Proof.
  rewrite page_session_unfold. apply sound_page_acts.
  cbn [loadText_page vars]. apply sound_loadText.
  - apply sound_page_acts, sound_initial.
  - by destruct (page_acts_fixed before (initial_page keys enabled now))
      as (-> & _).
Qed.


(** *** Sessions in which [highlightKey] does not throw *)

Lemma filterInput_elem keys value c :
  c ∈ filterInput keys value -> c ∈ value.
Proof.
  induction value as [|d value IH]; [done|]. cbn [filterInput].
  destruct (isKeyAvailable keys [d]).
  - intros [->|Hc]%elem_of_cons; [left | right; by apply IH].
  - intros Hc. right. by apply IH.
Qed.

Lemma effectiveInput_elem st value c :
  c ∈ effectiveInput st value -> c ∈ value.
Proof.
  rewrite effectiveInput_clamp. unfold slice_to. intros Hc.
  apply subseteq_take in Hc.
  destruct (decide (0 < size (availableKeysSet st))); [|done].
  by apply filterInput_elem in Hc.
Qed.

Lemma quiet_value_returns st kb value now :
  keyboardEnabled kb = false
  \/ ((forall c, c ∈ value -> raises (availableKeysSet st) [c] = false)
      /\ (raises (availableKeysSet st) (js "backspace") = false
          \/ length (typedText st) <= length (effectiveInput st value))) ->
  (settled (handleInput_keyboard st kb value now)).1
    = handleInput st value now
  /\ exists kb',
       handleInput_keyboard st kb value now
       = Returned (handleInput st value now, kb').
Proof.
  intros Hquiet.
  pose proof (handleInput_keyboard_outcome st kb value now) as Hout.
  destruct (handleInput_keyboard st kb value now) as [[st' kb']|[st' kb']].
  - destruct Hout as [-> _]. split; [done|]. by exists kb'.
  - exfalso. destruct Hout as (Hen & _ & Hthrown).
    destruct Hquiet as [Hoff|[Hvalue Hback]]; [congruence|].
    destruct Hthrown as [(_ & n & c & Hc & Hraises & _)|(Hlt & Hraises & _)].
    + apply list_elem_of_lookup_2, effectiveInput_elem in Hc.
      rewrite (Hvalue c Hc) in Hraises. done.
    + destruct Hback as [Hback|Hge]; [congruence | lia].
Qed.

Lemma quiet_value keys (value : jsstring) :
  forallb (fun c => negb (raises keys [c])) value = true ->
  forall c, c ∈ value -> raises keys [c] = false.
Proof.
  intros Hall c Hc. rewrite forallb_forall in Hall.
  apply list_elem_of_In, Hall in Hc. by destruct (raises keys [c]).
Qed.

(** An action in which [highlightKey] does not throw changes the
    variables as input events and restarts of the engine do. *)
Lemma calm_page_act pg a :
  keyboardEnabled (keyboard pg) = false
  \/ quiet (availableKeysSet (vars pg)) a = true ->
  exists es, vars (page_act pg a) = run (vars pg) es.
Proof.
  intros Hcalm.
  destruct a as [value now later|key value selectionStart now later|now
                 |id now| id | |]; cbn [page_act].
  - exists [Input value now].
    destruct (handleInput_page_fields pg value now later) as [-> _].
    apply quiet_value_returns.
    destruct Hcalm as [Hoff|Hquiet]; [by left|right].
    cbn [quiet] in Hquiet. apply andb_true_iff in Hquiet as [Hvalue Hback].
    split; [by apply quiet_value
           | left; by destruct (raises _ (js "backspace"))].
  - destruct (handleKeyDown_page pg key value selectionStart now later)
      as [-> | (Htab & newValue & Hnew & Hpage)]; [by exists []|].
    exists [Input newValue now].
    assert (Hkb : keyboardEnabled (keyboard pg) = false
                  \/ (raises (availableKeysSet (vars pg)) [9%N] = false
                      /\ (forall c, c ∈ value ->
                            raises (availableKeysSet (vars pg)) [c] = false)
                      /\ raises (availableKeysSet (vars pg)) (js "backspace")
                         = false)).
    { destruct Hcalm as [Hoff|Hquiet]; [by left|right].
      cbn [quiet] in Hquiet. rewrite Htab in Hquiet. cbn [negb orb] in Hquiet.
      apply andb_true_iff in Hquiet as [Hquiet Hback].
      apply andb_true_iff in Hquiet as [Htabkey Hvalue].
      split_and!;
        [by destruct (raises _ [9%N]) | by apply quiet_value
         | by destruct (raises _ (js "backspace"))]. }
    pose proof (highlightKey_tab_enabled pg) as Hen.
    pose proof (highlightKey_raises (availableKeysSet (vars pg))
                  (keyboard pg) [9%N] false) as Hthrows.
    destruct (keyboardEnabled (keyboard pg)) eqn:Hon.
    + destruct Hkb as [?|(Htabkey & Hvalue & Hback)]; [done|].
      destruct (highlightKey _ _ _ _) as [kb|kb].
      2: { exfalso. apply not_true_iff_false in Htabkey.
           apply Htabkey, Hthrows. by exists kb. }
      rewrite Hpage.
      destruct (handleInput_page_fields (mkPage (vars pg) kb (live pg))
                  newValue now later) as [-> _].
      cbn [vars keyboard]. apply quiet_value_returns. right.
      split; [|by left]. intros c [->|Hc]%Hnew; [done | by apply Hvalue].
    + rewrite Hpage.
      destruct (handleInput_page_fields
                  (mkPage (vars pg) (keyboard pg) (live pg))
                  newValue now later) as [-> _].
      cbn [vars keyboard]. apply quiet_value_returns. by left.
  - exists [Restart]. apply restart_page_vars.
  - exists []. by destruct (bool_decide _).
  - by exists [].
  - exists []. by destruct (keyboardEnabled _).
  - by exists [].
Qed.

Lemma calm_page_acts actions :
  forall pg,
    calm (availableKeysSet (vars pg)) (keyboardEnabled (keyboard pg)) actions
    = true ->
    exists es, vars (page_run pg (map PageAct actions)) = run (vars pg) es.
Proof.
  induction actions as [|a actions IH]; intros pg Hcalm; [by exists []|].
  rewrite page_run_acts.
  assert (Hhead : keyboardEnabled (keyboard pg) = false
                  \/ quiet (availableKeysSet (vars pg)) a = true).
  { unfold calm in Hcalm. cbn [forallb] in Hcalm.
    destruct (keyboardEnabled (keyboard pg)); [right|by left].
    cbn in Hcalm. by apply andb_true_iff in Hcalm as [? _]. }
  assert (Htail : calm (availableKeysSet (vars (page_act pg a)))
                    (keyboardEnabled (keyboard (page_act pg a))) actions
                  = true).
  { destruct (page_act_fixed pg a) as [_ ->]. rewrite page_act_enabled.
    unfold calm in Hcalm |- *. cbn [forallb] in Hcalm.
    destruct (keyboardEnabled (keyboard pg)); [|done].
    cbn in Hcalm |- *. by apply andb_true_iff in Hcalm as [_ ?]. }
  destruct (calm_page_act pg a Hhead) as [es0 Hes0].
  destruct (IH (page_act pg a) Htail) as [es Hes].
  exists (es0 ++ es). by rewrite Hes, Hes0, run_app.
Qed.

(** A session of the page in which [highlightKey] does not throw leaves
    the variables of a session of the engine. *)
Lemma calm_page_session keys enabled now before text after :
  calm keys enabled (before ++ after) = true ->
  exists es1 es2,
    vars (page_session keys enabled now before text after)
    = session keys es1 text es2.
Proof.
  intros Hcalm.
  assert (Hparts : calm keys enabled before = true
                   /\ calm keys enabled after = true).
  { unfold calm in Hcalm |- *. destruct enabled; [|done]. cbn in Hcalm |- *.
    rewrite forallb_app in Hcalm. by apply andb_true_iff in Hcalm. }
  destruct Hparts as [Hbefore Hafter].
  rewrite page_session_unfold.
  destruct (calm_page_acts before (initial_page keys enabled now) Hbefore)
    as [es1 Hes1].
  destruct (page_acts_fixed before (initial_page keys enabled now))
    as (_ & Hkeys & Hen).
  destruct (calm_page_acts after
              (loadText_page text
                 (page_run (initial_page keys enabled now)
                    (map PageAct before)))) as [es2 Hes2].
  { cbn [loadText_page loadText vars keyboard availableKeysSet].
    by rewrite Hkeys, Hen. }
  exists es1, es2. rewrite Hes2. cbn [loadText_page vars].
  by rewrite Hes1.
Qed.


(** *** The page: claims about the variables *)

(** C5, as the script has it. A call of [handleInput] works with the
    effective input: the value, filtered by the key policy when keys are
    configured, and cut to the length of the reference text. Unless
    [highlightKey] throws in the forward loop, and so whenever the call
    returns, [typedText] is afterwards the effective input when that
    differs in length from the [typedText] before, and is unchanged when
    the two lengths are equal. (What is left when [highlightKey] throws
    in the forward loop, with the keyboard enabled, is the second case of
    the last branch.) *)
Theorem typedText_after_handleInput pg value now later :
  let st := vars pg in
  let stored :=
    if decide (length (effectiveInput st value) = length (typedText st))
    then typedText st else effectiveInput st value in
  effectiveInput st value
  = slice_to (length (originalText st))
      (if decide (0 < size (availableKeysSet st))
       then filterInput (availableKeysSet st) value else value)
  /\ match handleInput_page pg value now later with
     | Returned pg' => typedText (vars pg') = stored
     | Thrown pg' =>
         typedText (vars pg') = stored
         \/ (keyboardEnabled (keyboard pg) = true
             /\ length (typedText st) < length (effectiveInput st value)
             /\ (exists c,
                   c ∈ slice_from (length (typedText st))
                         (effectiveInput st value)
                   /\ raises (availableKeysSet st) [c] = true)
             /\ typedText (vars pg') = typedText st)
     end.
Proof.
  intros st stored.
  destruct (typedText_handleInput st value now) as [Htyped Heff].
  split; [done|]. fold stored in Htyped.
  pose proof (handleInput_keyboard_outcome st (keyboard pg) value now)
    as Hout.
  unfold handleInput_page. fold st.
  destruct (handleInput_keyboard st (keyboard pg) value now)
    as [[st' kb']|[st' kb']].
  - destruct Hout as [-> _]. cbv zeta.
    destruct (updateRealtimeStats _ _ _ _ _ _); [done | by left].
  - cbn [vars].
    destruct Hout as (Hen & _ & [(Hlt & n & c & Hc & Hraises & ->)
                                |(_ & _ & ->)]); [right | by left].
    split_and!; [done | done | | ].
    + exists c. split; [|done]. unfold slice_from.
      apply list_elem_of_lookup_2 with n. by rewrite lookup_drop.
    + by destruct (cut_short_fixed st value now n) as (_ & -> & _).
Qed.

(** X1. In every session of the page [charStates] holds one entry per
    code unit of the reference text and never a hole, [typedText] is
    never longer than the reference text, and the first
    [typedText.length] entries are ['correct'] or ['incorrect']. All the
    others are ['pending'] when the keyboard is disabled or no action
    makes [highlightKey] throw; an exception in the forward loop leaves
    marked entries after them. *)
Theorem charStates_shape keys enabled now before text after :
  let st := vars (page_session keys enabled now before text after) in
  let typedLength := length (typedText st) in
  length (charStates st) = length (originalText st)
  /\ typedLength <= length (originalText st)
  /\ Forall (fun s => s = Correct \/ s = Incorrect)
       (take typedLength (charStates st))
  /\ Forall (fun s => s <> Undefined) (charStates st)
  /\ (calm keys enabled (before ++ after) = true ->
      drop typedLength (charStates st)
      = replicate (length (originalText st) - typedLength) Pending).
Proof.
  intros st typedLength.
  destruct (sound_page_session keys enabled now before text after)
    as (Hlen & Hle & Hmarks & Hholes & _).
  split_and!; try done. intros Hcalm.
  destruct (calm_page_session keys enabled now before text after Hcalm)
    as (es1 & es2 & Hst).
  subst typedLength st. rewrite Hst.
  destruct (consistent_session keys es1 text es2)
    as (ts & Hcs & Hts_len & _).
  rewrite Hcs at 1. rewrite <- Hts_len.
  by rewrite drop_app_length, Hts_len.
Qed.

(** X2. In every session of the page the number of positions left
    incorrect is at most [totalErrors], which is at most [totalInputs],
    as is the length of [typedText]: the live and the final statistics
    never report more errors left than errors made. The positions left
    incorrect are at most as many as the typed code units when the
    keyboard is disabled or no action makes [highlightKey] throw. *)
Theorem errors_left_at_most_errors_made keys enabled now0 before text after
    now :
  let st := vars (page_session keys enabled now0 before text after) in
  (countIncorrect (charStates st) <= totalErrors st)%N
  /\ (totalErrors st <= totalInputs st)%N
  /\ (N.of_nat (length (typedText st)) <= totalInputs st)%N
  /\ (Live.errorsLeft (calculateRealtimeStats st now)
      <= Live.errors (calculateRealtimeStats st now))%N
  /\ match calculateStatistics st now with
     | Some stats => (Final.errorsLeft stats <= Final.totalErrors stats)%N
     | None => True
     end
  /\ (calm keys enabled (before ++ after) = true ->
      (countIncorrect (charStates st) <= N.of_nat (length (typedText st)))%N).
Proof.
  intros st.
  destruct (sound_page_session keys enabled now0 before text after)
    as (_ & _ & _ & _ & Herr & Hcount & Hin).
  fold st in Herr, Hcount, Hin.
  split_and!; try done.
  - unfold calculateRealtimeStats. by destruct (startTime st).
  - unfold calculateStatistics. by destruct (startTime st).
  - intros Hcalm.
    destruct (calm_page_session keys enabled now0 before text after Hcalm)
      as (es1 & es2 & Hst).
    subst st. rewrite Hst.
    destruct (consistent_session keys es1 text es2)
      as (ts & Hcs & Hts_len & _).
    rewrite Hcs, countIncorrect_app, countIncorrect_pending, <- Hts_len.
    pose proof (countIncorrect_length ts). lia.
Qed.

(** X4. An input event that returns, delivered again with the same
    value, changes nothing the second time: neither the typed text, nor
    the character states, nor the counters, nor the clock, nor the
    keyboard. (An event cut short by an exception of [highlightKey]
    counts its code units again when it is delivered again.) *)
Theorem handleInput_repeated pg value now later now' later' pg' :
  handleInput_page pg value now later = Returned pg' ->
  vars (settled (handleInput_page pg' value now' later')) = vars pg'
  /\ keyboard (settled (handleInput_page pg' value now' later'))
     = keyboard pg'.
Proof.
  intros Hfirst.
  assert (Hvars : vars pg' = handleInput (vars pg) value now).
  { unfold handleInput_page in Hfirst.
    pose proof (handleInput_keyboard_outcome (vars pg) (keyboard pg) value
                  now) as Hout.
    destruct (handleInput_keyboard (vars pg) (keyboard pg) value now)
      as [[st kb]|[st kb]]; [|done].
    destruct Hout as [-> _]. cbv zeta in Hfirst.
    destruct (updateRealtimeStats _ _ _ _ _ _); [|done].
    by injection Hfirst as <-. }
  destruct (handleInput_page_fields pg' value now' later') as [-> ->].
  assert (Hsame : length (effectiveInput (vars pg') value)
                  = length (typedText (vars pg'))).
  { by rewrite Hvars, effectiveInput_step, typedText_length_handleInput. }
  assert (Hagain : handleInput (vars pg') value now' = vars pg').
  { rewrite Hvars. apply handleInput_twice. }
  pose proof (handleInput_keyboard_outcome (vars pg') (keyboard pg') value
                now') as Hout.
  unfold handleInput_keyboard in Hout |- *.
  rewrite effectiveInput_unfold in Hsame. cbv zeta in Hsame, Hout |- *.
  rewrite decide_False in Hout |- * by lia.
  rewrite decide_False in Hout |- * by lia.
  cbn [settled fst snd]. destruct Hout as [Hout _]. split; [|done].
  by rewrite Hout.
Qed.

(** X13. The key policy never blocks [Enter]: whatever keys are
    configured, [handleKeyDown] cancels an [Enter] or [Return] key press
    exactly when the text area already holds as many code units as the
    reference text, and it changes neither the text area nor the page;
    when it lets the key press through and the keyboard is enabled, it
    schedules the highlighting of the enter key. *)
Theorem enter_blocked_only_when_full pg key value selectionStart now later :
  key = js "Enter" \/ key = js "Return" ->
  handleKeyDown pg key value selectionStart now later
  = Returned
      (mkKeyDown
         (bool_decide (length (originalText (vars pg)) <= length value))
         value false
         (negb (bool_decide (length (originalText (vars pg))
                             <= length value))
          && keyboardEnabled (keyboard pg))
         pg).
Proof.
  intros Hkey. unfold handleKeyDown. cbv zeta.
  assert (Hfirst : str_eqb key (js "Enter") || str_eqb key (js "Return")
                   = true).
  { unfold str_eqb. rewrite orb_true_iff, !bool_decide_eq_true. tauto. }
  rewrite Hfirst, newline_always_available. cbn [negb].
  destruct (decide (length (originalText (vars pg)) <= length value)).
  - by rewrite bool_decide_true.
  - by rewrite bool_decide_false.
Qed.

(** X14. A [Tab] key press is always cancelled, so the focus never leaves
    the text area. When it inserts nothing, the text area and the page
    are unchanged. When it inserts a tab character and dispatches the
    input event, the tab is available, the text area held less than the
    reference text, and the text area then holds the effective input of
    the new value, no longer than the reference text and at least as long
    as [typedText]; the two are equally long when [highlightKey] throws
    for no code unit in the text area. When [highlightKey] throws for the
    tab, the text area holds the new value, nothing is dispatched and the
    variables are unchanged. *)
Theorem tab_press pg value selectionStart now later :
  let st := vars pg in
  let keys := availableKeysSet st in
  let cursorPos :=
    if decide (selectionStart = 0) then length value else selectionStart in
  let newValue :=
    slice_to cursorPos value ++ [9%N] ++ slice_from cursorPos value in
  match handleKeyDown pg (js "Tab") value selectionStart now later with
  | Returned r =>
      defaultPrevented r = true
      /\ (if dispatched r
          then isKeyAvailable keys [9%N] = true
               /\ length value < length (originalText st)
               /\ inputValue r = effectiveInput st newValue
               /\ length (inputValue r)
                  <= length (originalText (vars (page r)))
               /\ length (typedText (vars (page r)))
                  <= length (inputValue r)
               /\ ((forall c, c ∈ inputValue r -> raises keys [c] = false) ->
                   length (typedText (vars (page r)))
                   = length (inputValue r))
          else inputValue r = value /\ page r = pg)
  | Thrown r =>
      defaultPrevented r = true /\ dispatched r = false
      /\ keyboardEnabled (keyboard pg) = true
      /\ raises keys [9%N] = true
      /\ inputValue r = newValue
      /\ vars (page r) = st /\ live (page r) = live pg
  end.
Proof.
  intros st keys cursorPos newValue. unfold handleKeyDown.
  change (str_eqb (js "Tab") (js "Enter") || str_eqb (js "Tab") (js "Return"))
    with false.
  change (str_eqb (js "Tab") (js "Tab")) with true. cbv zeta. cbn iota.
  fold st keys cursorPos newValue.
  destruct (isKeyAvailable keys [9%N]) eqn:Hav; cbn [negb]; [|done].
  destruct (decide (length (originalText st) <= length value)); [done|].
  pose proof (highlightKey_raises keys (keyboard pg) [9%N] false)
    as Hthrows.
  destruct (keyboardEnabled (keyboard pg)) eqn:Hen.
  1: destruct (highlightKey keys (keyboard pg) [9%N] false) as [kb|kb].
  2: { cbn [defaultPrevented dispatched inputValue page vars live].
       split_and!; try done. apply Hthrows. by exists kb. }
  all: cbn [defaultPrevented dispatched inputValue page].
  all: split; [done|].
  all: match goal with
       | |- context [handleInput_page (mkPage ?s ?k ?l) ?v] =>
           destruct (handleInput_page_fields (mkPage s k l) v now later)
             as [Hvars _];
           pose proof (handleInput_keyboard_outcome s k v now) as Hout;
           pose proof (handleInput_keyboard_fixed s k v now) as (Horig & _);
           cbn [vars keyboard] in Hvars; rewrite Hvars, Horig;
           destruct (handleInput_keyboard s k v now)
             as [[st' kb']|[st' kb']]; cbn [settled fst]
       end.
  all: pose proof (effectiveInput_length st newValue) as Hfit.
  all: split_and!; try (done || lia).
  all: try (destruct Hout as [-> _];
            rewrite typedText_length_handleInput; (done || lia)).
  all: destruct Hout as (_ & _ & [(Hlt & m & c & Hc & Hraises & ->)
                                 |(_ & _ & ->)]);
    try (rewrite typedText_length_handleInput; (done || lia)).
  all: destruct (cut_short_fixed st newValue now m) as (_ & -> & _);
    try lia.
  all: intros Hquiet; apply list_elem_of_lookup_2 in Hc.
  all: specialize (Hquiet c Hc); unfold keys in Hquiet; congruence.
Qed.

(** X15. With or without a key policy, a key that [isKeyAvailable]
    refuses never reaches the text area: [handleKeyDown] cancels the key
    press and changes nothing. (The tab character is its own lower-cased
    form.) *)
Theorem unavailable_key_is_cancelled pg key value selectionStart now later :
  toLowerCase [9%N] = [9%N] ->
  isKeyAvailable (availableKeysSet (vars pg)) key = false ->
  handleKeyDown pg key value selectionStart now later
  = Returned (mkKeyDown true value false false pg).
Proof.
  intros Hchar Hno. unfold handleKeyDown. cbv zeta.
  destruct (str_eqb key (js "Enter") || str_eqb key (js "Return")) eqn:He.
  { exfalso. unfold str_eqb in He.
    rewrite orb_true_iff, !bool_decide_eq_true in He.
    by rewrite (enter_key_available _ _ He) in Hno. }
  destruct (str_eqb key (js "Tab")) eqn:Ht.
  { apply bool_decide_eq_true in Ht. subst key.
    by rewrite (tab_name_and_character _ Hchar Hno). }
  assert (Hsize : bool_decide (0 < size (availableKeysSet (vars pg))) = true)
    by (by apply bool_decide_eq_true, unavailable_with_keys with key).
  by rewrite Hsize, Hno.
Qed.

(** X16. Where the keyboard is disabled, or [highlightKey] throws for
    none of the code units of the value nor for the backspace key, the
    script with the key policy differs from the one without only by its
    filter: the variables its [handleInput] leaves are those of the plain
    [handleInput] on the filtered value (on the value itself when no keys
    are configured). Its [restart] leaves the variables of the plain one,
    and for a key other than [Enter], [Return] and [Tab] that is
    available its [handleKeyDown] cancels the key press exactly when the
    plain one does. *)
Theorem key_policy_is_a_filter pg value now later :
  keyboardEnabled (keyboard pg) = false
  \/ quiet (availableKeysSet (vars pg)) (InputEvent value now later) = true ->
  let st := vars pg in
  vars (settled (handleInput_page pg value now later))
  = Plain.handleInput st
      (if decide (0 < size (availableKeysSet st))
       then filterInput (availableKeysSet st) value else value) now
  /\ vars (settled (restart_page pg now)) = Plain.restart st
  /\ (forall key selectionStart,
        key <> js "Enter" -> key <> js "Return" -> key <> js "Tab" ->
        isKeyAvailable (availableKeysSet st) key = true ->
        handleKeyDown pg key value selectionStart now later
        = Returned
            (mkKeyDown (Plain.handleKeyDown key value) value false false pg)).
Proof.
  intros Hcalm st. split_and!.
  - destruct (calm_page_act pg (InputEvent value now later) Hcalm)
      as [es Hes].
    destruct (handleInput_page_fields pg value now later) as [-> _].
    assert (Hquiet : keyboardEnabled (keyboard pg) = false
              \/ ((forall c, c ∈ value ->
                     raises (availableKeysSet (vars pg)) [c] = false)
                  /\ (raises (availableKeysSet (vars pg)) (js "backspace")
                      = false
                      \/ length (typedText (vars pg))
                         <= length (effectiveInput (vars pg) value)))).
    { destruct Hcalm as [Hoff|Hquiet]; [by left|right].
      cbn [quiet] in Hquiet. apply andb_true_iff in Hquiet as [Hvalue Hback].
      split; [by apply quiet_value
             | left; by destruct (raises _ (js "backspace"))]. }
    destruct (quiet_value_returns (vars pg) (keyboard pg) value now Hquiet)
      as [-> _].
    unfold handleInput, Plain.handleInput. by rewrite Plain_forward.
  - rewrite restart_page_vars. unfold restart, Plain.restart.
    by rewrite Plain_clear.
  - intros key sel He Hr Ht Hav. unfold handleKeyDown, Plain.handleKeyDown.
    cbv zeta. fold st.
    unfold str_eqb at 1 2 3.
    rewrite (bool_decide_false (key = js "Enter")) by done.
    rewrite (bool_decide_false (key = js "Return")) by done.
    rewrite (bool_decide_false (key = js "Tab")) by done.
    cbn [orb]. rewrite Hav. cbn [negb]. rewrite andb_false_r.
    by destruct (_ && _).
Qed.


Lemma append_items_thrown stats statKeys :
  forall items items',
    append_items inherited stats statKeys items = Thrown items' ->
    exists k, k ∈ statKeys /\ k ∈ inherited /\ k ∉ stat_keys.
Proof.
  induction statKeys as [|k statKeys IH]; intros items items' Hthrown;
    [done|].
  cbn [append_items] in Hthrown.
  destruct (statMap stats k) as [item|] eqn:Hitem.
  - destruct (IH _ _ Hthrown) as (k' & Hin & Hrest). exists k'.
    split; [by right | done].
  - destruct (bool_decide (k ∈ inherited)) eqn:Hinh.
    + apply bool_decide_eq_true in Hinh. exists k.
      split_and!; [by left | done |].
      intros Hknown. apply (statMap_known stats) in Hknown as [? Hsome].
      congruence.
    + destruct (IH _ _ Hthrown) as (k' & Hin & Hrest). exists k'.
      split; [by right | done].
Qed.

Lemma updateRealtimeStats_thrown st now rt rt' :
  updateRealtimeStats realtimeStatsContainer realTimeStats inherited st now rt
  = Thrown rt' ->
  realtimeStatsContainer = true
  /\ exists k, k ∈ realTimeStats /\ k ∈ inherited /\ k ∉ stat_keys.
Proof.
  unfold updateRealtimeStats.
  destruct realtimeStatsContainer; cbn [negb]; [|done].
  destruct (bool_decide (realTimeStats = []));
    [by destruct (realtimeStatsInterval rt)|].
  cbv zeta.
  destruct (append_items _ _ _ _) as [items|items] eqn:Hitems.
  - by destruct (startTime st), (realtimeStatsInterval rt).
  - intros _. split; [done|]. by eapply append_items_thrown.
Qed.

(** X17. How [handleInput] ends, whole. When it returns, the variables
    are those the engine computes, and the keyboard is as enabled as it
    was. It is left by an exception in two ways only. Either
    [highlightKey] threw: the keyboard is enabled, the key is available
    and the host throws in [getKeyElement] for it, and the key is the
    backspace key or a code unit of the effective input; [renderText]
    and [updateRealtimeStats] are skipped. Or [updateRealtimeStats]
    threw, with the variables updated: there is a container for the live
    statistics and a configured key that [statMap] only inherits. *)
Theorem handleInput_page_outcome pg value now later :
  let st := vars pg in
  match handleInput_page pg value now later with
  | Returned pg' =>
      vars pg' = handleInput st value now
      /\ keyboardEnabled (keyboard pg') = keyboardEnabled (keyboard pg)
  | Thrown pg' =>
      (keyboardEnabled (keyboard pg) = true
       /\ live pg' = live pg
       /\ exists char,
            (char = js "backspace"
             \/ exists c, c ∈ effectiveInput st value /\ char = [c])
            /\ isKeyAvailable (availableKeysSet st) char = true
            /\ getKeyElement char = None)
      \/ (vars pg' = handleInput st value now
          /\ realtimeStatsContainer = true
          /\ exists k, k ∈ realTimeStats /\ k ∈ inherited /\ k ∉ stat_keys)
  end.
Proof.
  intros st. unfold handleInput_page. fold st.
  pose proof (handleInput_keyboard_outcome st (keyboard pg) value now)
    as Hout.
  destruct (handleInput_keyboard st (keyboard pg) value now)
    as [[st' kb']|[st' kb']].
  - destruct Hout as [-> Hen]. cbv zeta.
    destruct (updateRealtimeStats _ _ _ _ _ _) as [rt|rt] eqn:Hupdate;
      [done|].
    right. split; [done|]. by eapply updateRealtimeStats_thrown.
  - left. destruct Hout as (Hen & _ & Hthrown). split_and!; [done..|].
    destruct Hthrown as [(_ & n & c & Hc & Hraises & _)|(_ & Hraises & _)].
    + exists [c]. unfold raises in Hraises.
      apply andb_true_iff in Hraises as [Hav Hhost].
      apply bool_decide_eq_true in Hhost. split_and!; [|done..].
      right. exists c. split; [|done]. by eapply list_elem_of_lookup_2.
    + exists (js "backspace"). unfold raises in Hraises.
      apply andb_true_iff in Hraises as [Hav Hhost].
      apply bool_decide_eq_true in Hhost. split_and!; [by left|done..].
Qed.


Lemma page_session_snoc keys enabled now before text after a :
  page_session keys enabled now before text (after ++ [a])
  = page_act (page_session keys enabled now before text after) a.
Proof.
  unfold page_session, page_run.
  by rewrite map_app, app_comm_cons, app_assoc, fold_left_app.
Qed.

Lemma typing_page_session enabled now0 text clock later n :
  enabled = false \/ Forall (fun c => raises ∅ [c] = false) (trimEnd text) ->
  vars (page_session ∅ enabled now0 [] text
          (typing_page (trimEnd text) clock later n))
  = session ∅ [] text (typing (trimEnd text) clock n).
Proof.
  intros Hquiet. induction n as [|n IH]; [done|].
  unfold typing_page, typing in *. rewrite seq_S, !map_app.
  cbn [map Nat.add]. rewrite page_session_snoc. unfold session in *.
  rewrite run_app. cbn [page_act].
  set (pg := page_session ∅ enabled now0 [] text _) in *.
  destruct (handleInput_page_fields pg (take (S n) (trimEnd text)) (clock n)
              (later n)) as [-> _].
  destruct (page_session_fixed ∅ enabled now0 [] text
              (map (fun k => InputEvent (take (S k) (trimEnd text))
                               (clock k) (later k)) (seq 0 n)))
    as (Horig & Hkeys & Hen).
  fold pg in Horig, Hkeys, Hen.
  destruct (typing_reference_session text clock n 0) as (Htyped & _).
  cbv zeta in Htyped. unfold session, typing in Htyped.
  rewrite <- IH in Htyped |- *.
  destruct (quiet_value_returns (vars pg) (keyboard pg)
              (take (S n) (trimEnd text)) (clock n)) as [-> _]; [|done].
  rewrite Hen, Hkeys. destruct Hquiet as [Hoff|Hquiet]; [by left|right].
  split.
  - intros c Hc. rewrite Forall_forall in Hquiet.
    by apply Hquiet, (subseteq_take (S n)).
  - right. rewrite effectiveInput_no_keys
      by (rewrite Hkeys; apply size_empty).
    rewrite Htyped, Horig, !length_take. lia.
Qed.

(** X5. With no keys configured, and the keyboard disabled or
    [highlightKey] throwing for no code unit of the reference text,
    typing the reference text one code unit at a time marks every typed
    position correct and counts one input per code unit and no error; the
    completion screen is shown exactly when all of it is typed, and the
    accuracy is then 100. Values typed past the end change nothing. *)
Theorem typing_the_reference_text enabled now0 text clock later n now :
  enabled = false \/ Forall (fun c => raises ∅ [c] = false) (trimEnd text) ->
  let st := vars (page_session ∅ enabled now0 [] text
                    (typing_page (trimEnd text) clock later n)) in
  let total := length (trimEnd text) in
  typedText st = take n (trimEnd text)
  /\ charStates st
     = replicate (n `min` total) Correct
       ++ replicate (total - n) Pending
  /\ totalErrors st = 0%N
  /\ totalInputs st = N.of_nat (n `min` total)
  /\ renderText st
     = (if decide (total <= n) then CompletionScreen else TypingText)
  /\ match calculateStatistics st now with
     | Some stats => (Final.accuracy stats == 100)%Q
     | None => n = 0 \/ total = 0
     end.
Proof.
  intros Hquiet st. subst st.
  rewrite (typing_page_session enabled now0 text clock later n Hquiet).
  apply typing_reference_session.
Qed.

(** The variables with a blank reference text. *)
Lemma blank_handleInput_keyboard st kb value now :
  originalText st = [] -> typedText st = [] ->
  (settled (handleInput_keyboard st kb value now)).1
  = mkState [] [] (charStates st) (startTime (handleInput st value now))
      (totalErrors st) (totalInputs st) (availableKeysSet st).
Proof.
  intros Horig Htyped.
  pose proof (effectiveInput_length st value) as Hfit.
  rewrite Horig in Hfit. cbn [length] in Hfit.
  assert (Hsame : length (effectiveInput st value) = length (typedText st))
    by (rewrite Htyped; cbn [length]; lia).
  assert (Hvars : (settled (handleInput_keyboard st kb value now)).1
                  = handleInput st value now).
  { pose proof (handleInput_keyboard_outcome st kb value now) as Hout.
    destruct (handleInput_keyboard st kb value now)
      as [[st' kb']|[st' kb']]; cbn [settled fst].
    - by destruct Hout as [-> _].
    - destruct Hout as (_ & _ & [(Hlt & _)|(Hlt & _)]); lia. }
  rewrite Hvars.
  destruct (handleInput_same_length st value now Hsame)
    as (Ht & Ho & Hk & Hc & Hi & He).
  destruct (handleInput st value now) as [o t c s e i k] eqn:Hst.
  cbn in *. by rewrite Ho, Ht, Hk, Hc, Hi, He, Horig, Htyped.
Qed.

Lemma blank_page_act pg a : blank (vars pg) -> blank (vars (page_act pg a)).
Proof.
  intros (Horig & Htyped & Hcs & Herrs & Hins).
  destruct (page_act_vars pg a) as [-> | [-> | (kb & value & now & ->)]].
  - done.
  - unfold blank, restart. cbn. by rewrite Hcs.
  - rewrite blank_handleInput_keyboard by done. by unfold blank.
Qed.

Lemma blank_page_acts actions :
  forall pg, blank (vars pg) ->
    blank (vars (page_run pg (map PageAct actions))).
Proof.
  induction actions as [|a actions IH]; intros pg Hst; [done|].
  rewrite page_run_acts. by apply IH, blank_page_act.
Qed.

(** X8. With a reference text that is empty or all white space the
    exercise is complete as soon as the text is loaded and stays so: the
    completion screen is shown whenever [renderText] runs, no input value
    is ever stored, nothing is marked and nothing is counted. There are
    no statistics to save until an input event starts the clock, which
    one with a value that is not empty after filtering does; from then
    on, until a restart, the statistics report no errors, accuracy 0 and
    speed 0. *)
Theorem blank_reference_is_complete keys enabled now0 before text after now :
  forallb is_space text = true ->
  let pg := page_session keys enabled now0 before text after in
  let st := vars pg in
  renderText st = CompletionScreen
  /\ originalText st = [] /\ typedText st = [] /\ charStates st = []
  /\ totalErrors st = 0%N /\ totalInputs st = 0%N
  /\ match calculateStatistics st now with
     | None => startTime st = None
     | Some stats =>
         startTime st <> None
         /\ Final.totalErrors stats = 0%N /\ Final.errorsLeft stats = 0%N
         /\ (Final.accuracy stats == 0)%Q /\ (Final.speed stats == 0)%Q
     end
  /\ (forall value t later,
        startTime (vars (page_act pg (InputEvent value t later))) = None
        <-> startTime st = None
            /\ (if decide (0 < size keys) then filterInput keys value
                else value) = [])
  /\ (forall t, startTime (vars (page_act pg (RestartClick t))) = None).
Proof.
  intros Hblank pg st.
  assert (Hst : blank st).
  { subst st pg. rewrite page_session_unfold. apply blank_page_acts.
    destruct (blank_page_acts before (initial_page keys enabled now0))
      as (_ & Htyped & _ & Herrs & Hins); [done|].
    unfold blank, loadText_page, loadText.
    cbn [vars originalText typedText charStates totalErrors totalInputs].
    by rewrite trimEnd_spaces. }
  destruct Hst as (Horig & Htyped & Hcs & Herrs & Hins).
  split_and!; try done.
  - unfold renderText, isComplete. by rewrite Horig, Htyped.
  - unfold calculateStatistics.
    destruct (startTime st) as [start|]; [|done].
    cbn [Final.totalErrors Final.errorsLeft Final.accuracy Final.speed].
    rewrite Herrs, Hins, Hcs, Horig. split_and!; try done.
    cbn. by destruct (Qpositive _).
  - intros value t later. cbn [page_act].
    destruct (handleInput_page_fields pg value t later) as [-> _].
    fold st. rewrite blank_handleInput_keyboard by done.
    cbn [startTime]. rewrite startTime_handleInput.
    destruct (page_session_fixed keys enabled now0 before text after)
      as (_ & Hkeys & _).
    fold pg st in Hkeys. rewrite Hkeys.
    destruct (startTime st); [by split; [|intros [? _]]|].
    destruct (if decide (0 < size keys) then _ else _) as [|c rest];
      cbn [length].
    + by rewrite decide_False by lia.
    + rewrite decide_True by lia. by split; [|intros [_ ?]].
  - intros t. cbn [page_act]. by rewrite restart_page_vars.
Qed.


(** *** One highlight on the page *)

Lemma restart_keyboard_clears kb :
  highlight_ok kb ->
  (forall x, active (restart_keyboard kb) x = false
             /\ active_error (restart_keyboard kb) x = false)
  /\ timers (restart_keyboard kb) = ∅
  /\ activeKeyElement (restart_keyboard kb) = None
  /\ activeKeyTimeout (restart_keyboard kb) = None.
Proof.
  intros Hok.
  destruct (highlight_cleared kb Hok) as (Hsome & Hnone & Hdel & Hno).
  unfold restart_keyboard.
  destruct (activeKeyElement kb) as [e0|] eqn:He0; cbn;
    destruct (activeKeyTimeout kb) as [id|] eqn:Hid; cbn;
    rewrite ?He0; split_and!; auto.
  - intros x. destruct (decide (x = e0)); [done|]. by apply (Hsome e0).
  - intros x. destruct (decide (x = e0)); [done|]. by apply (Hsome e0).
Qed.

Lemma highlight_ok_timeout id kb :
  highlight_ok kb -> highlight_ok (timeout id kb).
Proof.
  intros Hok. destruct (timers kb !! id) as [e|] eqn:He.
  - destruct (timeout_clears kb id Hok) as [Hclass Htimers]; [by eexists|].
    by apply highlight_ok_plain.
  - unfold timeout. by rewrite He.
Qed.

Lemma highlight_ok_typeForward_keyboard keys orig newChars :
  forall i cs ins errs kb,
    highlight_ok kb ->
    match typeForward_keyboard keys orig newChars i cs ins errs kb with
    | Returned (_, _, _, kb') | Thrown (_, _, _, kb') => highlight_ok kb'
    end.
Proof.
  induction newChars as [|typedChar rest IH]; intros i cs ins errs kb Hok;
    [done|].
  cbn [typeForward_keyboard].
  destruct (decide (length orig <= i)); [done|]. cbv zeta.
  destruct (keyboardEnabled kb); [|by apply IH].
  pose proof (highlight_ok_highlightKey keys kb [typedChar]
                (negb (bool_decide (orig !! i = Some typedChar))) Hok)
    as Hnext.
  destruct (highlightKey keys kb [typedChar] _); [by apply IH | done].
Qed.

Lemma highlight_ok_handleInput_keyboard st kb value now :
  highlight_ok kb ->
  highlight_ok (settled (handleInput_keyboard st kb value now)).2.
Proof.
  intros Hok. unfold handleInput_keyboard. cbv zeta.
  destruct (decide (length (typedText st) < _)).
  - match goal with
    | |- context [typeForward_keyboard ?k ?o ?n ?i ?c ?a ?b ?kb] =>
        pose proof (highlight_ok_typeForward_keyboard k o n i c a b kb Hok)
          as Hloop;
        destruct (typeForward_keyboard k o n i c a b kb)
          as [[[[cs' ins'] errs'] kb']|[[[cs' ins'] errs'] kb']]
    end; done.
  - destruct (decide (_ < length (typedText st))); [|done].
    destruct (keyboardEnabled kb && _); [|done].
    pose proof (highlight_ok_highlightKey (availableKeysSet st) kb
                  (js "backspace") false Hok) as Hnext.
    by destruct (highlightKey _ kb (js "backspace") false).
Qed.

Lemma highlight_ok_page_act pg a :
  highlight_ok (keyboard pg) -> highlight_ok (keyboard (page_act pg a)).
Proof.
  intros Hok.
  destruct a as [value now later|key value selectionStart now later|now
                 |id now| id | |]; cbn [page_act].
  - destruct (handleInput_page_fields pg value now later) as [_ ->].
    by apply highlight_ok_handleInput_keyboard.
  - destruct (handleKeyDown_page pg key value selectionStart now later)
      as [-> | (_ & newValue & _ & Hpage)]; [done|].
    assert (Hhl : match (if keyboardEnabled (keyboard pg)
                         then highlightKey (availableKeysSet (vars pg))
                                (keyboard pg) [9%N] false
                         else Returned (keyboard pg)) with
                  | Returned kb | Thrown kb => highlight_ok kb
                  end).
    { destruct (keyboardEnabled (keyboard pg)); [|done].
      by apply highlight_ok_highlightKey. }
    destruct (if keyboardEnabled (keyboard pg) then _ else _) as [kb|kb];
      rewrite Hpage; [|done].
    destruct (handleInput_page_fields (mkPage (vars pg) kb (live pg))
                newValue now later) as [_ ->].
    by apply highlight_ok_handleInput_keyboard.
  - unfold restart_page. cbv zeta.
    destruct (updateRealtimeStats _ _ _ _ _ _) as [rt|rt]; [|done].
    destruct (restart_keyboard_clears (keyboard pg) Hok)
      as (Hclass & Htimers & _).
    destruct (if realtimeStatsContainer then _ else _);
      by apply highlight_ok_plain.
  - by destruct (bool_decide _).
  - by apply highlight_ok_timeout.
  - destruct (keyboardEnabled (keyboard pg)); [|done]. cbn [keyboard].
    pose proof (highlight_ok_highlightKey (availableKeysSet (vars pg))
                  (keyboard pg) [10%N] false Hok) as Hnext.
    by destruct (highlightKey _ _ _ _).
  - done.
Qed.

Lemma highlight_ok_page_run es :
  forall pg, highlight_ok (keyboard pg) ->
    highlight_ok (keyboard (page_run pg es)).
Proof.
  induction es as [|e es IH]; intros pg Hok; [done|].
  change (page_run pg (e :: es)) with (page_run (page_step pg e) es).
  apply IH. destruct e as [text|a]; [done|]. by apply highlight_ok_page_act.
Qed.

(** X20. Whatever happens on the page (input events, key presses,
    restarts, timers that fire, texts that arrive), at most one key of
    the on-screen keyboard carries a highlight class, that key is
    [activeKeyElement], and the one timer that is pending is the one that
    will remove its highlight: no highlight stays for good. When that
    timer fires no key is highlighted and no timer is left, and the same
    holds after a restart that returns or that gets past its first call
    of [updateRealtimeStats]; a restart that this call leaves by an
    exception leaves the keyboard as it was. *)
Theorem one_highlight_with_its_timer keys enabled now0 es :
  let pg := page_run (initial_page keys enabled now0) es in
  let kb := keyboard pg in
  highlight_ok kb
  /\ (forall e1 e2,
        active kb e1 || active_error kb e1 = true ->
        active kb e2 || active_error kb e2 = true -> e1 = e2)
  /\ size (timers kb) <= 1
  /\ (forall id, is_Some (timers kb !! id) ->
        (forall x, active (timeout id kb) x = false
                   /\ active_error (timeout id kb) x = false)
        /\ timers (timeout id kb) = ∅)
  /\ (forall now,
        let cleared kb' :=
          (forall x, active kb' x = false /\ active_error kb' x = false)
          /\ timers kb' = ∅ /\ activeKeyElement kb' = None
          /\ activeKeyTimeout kb' = None in
        match restart_page pg now with
        | Returned pg' => cleared (keyboard pg')
        | Thrown pg' =>
            match
              updateRealtimeStats realtimeStatsContainer realTimeStats
                inherited (restart (vars pg)) now (clear_interval (live pg))
            with
            | Returned _ => cleared (keyboard pg')
            | Thrown _ => keyboard pg' = kb
            end
        end).
Proof.
  intros pg kb.
  assert (Hok : highlight_ok kb).
  { subst kb pg. apply highlight_ok_page_run. by apply highlight_ok_plain. }
  split_and!.
  - done.
  - intros e1 e2 H1%orb_true_iff H2%orb_true_iff.
    destruct Hok as [Hclass _].
    destruct (Hclass e1 H1) as [Ha _], (Hclass e2 H2) as [Hb _]. congruence.
  - destruct (highlight_cleared kb Hok) as (_ & _ & Hdel & Hno).
    destruct (activeKeyTimeout kb) as [id|].
    + specialize (Hdel id eq_refl).
      destruct (timers kb !! id) as [e|] eqn:He.
      * rewrite <- (insert_delete_id (timers kb) id e He), Hdel.
        by rewrite map_size_insert_None, map_size_empty
          by apply lookup_empty.
      * rewrite delete_id in Hdel by done. rewrite Hdel, map_size_empty. lia.
    + rewrite Hno, map_size_empty by done. lia.
  - intros id Hid. by apply timeout_clears.
  - intros now cleared. unfold restart_page. cbv zeta.
    pose proof (restart_keyboard_clears kb Hok) as Hclear.
    destruct (updateRealtimeStats _ _ _ _ _ (clear_interval (live pg)))
      as [rt|rt]; [|done].
    by destruct (if realtimeStatsContainer then _ else _).
Qed.


(** *** The interval of the live statistics *)

Lemma interval_runs_ok pg : interval_runs pg -> interval_ok pg.
Proof. intros [Hiff Hrunning]. split; [|done]. intros Hsome Hstart. tauto. Qed.

Lemma startTime_handleInput_keyboard st kb value now :
  startTime (settled (handleInput_keyboard st kb value now)).1
  = startTime (handleInput st value now).
Proof.
  pose proof (handleInput_keyboard_outcome st kb value now) as Hout.
  destruct (handleInput_keyboard st kb value now) as [[st' kb']|[st' kb']];
    cbn [settled fst].
  - by destruct Hout as [-> _].
  - destruct Hout as (_ & _ & [(_ & n & c & _ & _ & ->)|(_ & _ & ->)]);
      [|done].
    by destruct (cut_short_fixed st value now n) as (_ & _ & _ & ->).
Qed.

Section Configured.

(** The live statistics are configured, with keys that [statMap] has
    itself or does not have at all. *)
Hypothesis Hcontainer : realtimeStatsContainer = true.
Hypothesis Hconfigured : realTimeStats <> [].
Hypothesis Hown : forall k, k ∈ realTimeStats -> k ∉ inherited.

Lemma updateRealtimeStats_interval st now rt :
  interval_ok (mkPage st (initial_keyboard false) rt) ->
  exists rt',
    updateRealtimeStats realtimeStatsContainer realTimeStats inherited st now
      rt = Returned rt'
    /\ forall kb, interval_runs (mkPage st kb rt').
Proof.
  intros [Hsome Hrunning]. cbn [vars live] in Hsome, Hrunning.
  destruct (updateRealtimeStats_runs st now rt)
    as (rt' & Hu & _ & _ & Hiff' & Hrunning' & _); try done.
  exists rt'. split; [done|]. intros kb. by split.
Qed.

Lemma handleInput_page_interval pg value now later :
  interval_ok pg ->
  interval_ok (settled (handleInput_page pg value now later))
  /\ ((exists r, handleInput_keyboard (vars pg) (keyboard pg) value now
                 = Returned r) ->
      interval_runs (settled (handleInput_page pg value now later))).
Proof.
  intros [Hsome Hrunning].
  pose proof (startTime_handleInput_keyboard (vars pg) (keyboard pg) value
                now) as Hstart.
  unfold handleInput_page.
  destruct (handleInput_keyboard (vars pg) (keyboard pg) value now)
    as [[st kb]|[st kb]]; cbn [settled fst] in Hstart.
  - cbv zeta.
    destruct (renderText_stats_interval st (live pg)) as [Hi Hs].
    destruct (updateRealtimeStats_interval st later
                (renderText_stats st (live pg))) as (rt' & -> & Hruns).
    { split; cbn [vars live].
      - rewrite Hi, Hstart. intros Hne. by apply startTime_stays, Hsome.
      - by rewrite Hi, Hs. }
    cbn [settled]. split; [by apply interval_runs_ok|done].
  - cbn [settled]. split; [|by intros [r Hr]].
    split; cbn [vars live]; [|done].
    rewrite Hstart. intros Hne. by apply startTime_stays, Hsome.
Qed.

Lemma restart_page_interval pg now :
  interval_ok pg -> interval_runs (settled (restart_page pg now)).
Proof.
  intros [Hsome Hrunning]. unfold restart_page. cbv zeta.
  assert (Hcleared : realtimeStatsInterval (clear_interval (live pg)) = None
                     /\ intervals (clear_interval (live pg)) = ∅).
  { unfold clear_interval.
    destruct (realtimeStatsInterval (live pg)) as [id|] eqn:Hid; cbn.
    - rewrite Hrunning. cbn. split; [done|apply difference_diag_L].
    - by rewrite Hrunning, Hid. }
  destruct Hcleared as [Hnone Hempty].
  destruct (updateRealtimeStats_interval (restart (vars pg)) now
              (clear_interval (live pg))) as (rt1 & -> & Hruns1).
  { split; cbn [vars live]; [by rewrite Hnone | by rewrite Hnone, Hempty]. }
  rewrite Hcontainer at 1.
  destruct (updateRealtimeStats_interval (restart (vars pg)) now rt1)
    as (rt2 & -> & Hruns2).
  { apply interval_runs_ok, (Hruns1 (keyboard pg)). }
  cbn [settled].
  destruct (Hruns2 (keyboard pg)) as [Hiff2 Hrunning2].
  cbn [vars live] in Hiff2, Hrunning2. split; cbn [vars live].
  - by destruct (renderText_stats_interval (restart (vars pg)) rt2)
      as [-> _].
  - by destruct (renderText_stats_interval (restart (vars pg)) rt2)
      as [-> ->].
Qed.

Lemma page_act_interval pg a :
  interval_ok pg ->
  interval_ok (page_act pg a)
  /\ (keyboardEnabled (keyboard pg) = false
      \/ quiet (availableKeysSet (vars pg)) a = true ->
      interval_runs pg -> interval_runs (page_act pg a)).
Proof.
  intros Hok.
  destruct a as [value now later|key value selectionStart now later|now
                 |id now| id | |]; cbn [page_act].
  - destruct (handleInput_page_interval pg value now later Hok)
      as [Hok' Hruns].
    split; [done|]. intros Hcalm _. apply Hruns.
    destruct (quiet_value_returns (vars pg) (keyboard pg) value now)
      as [_ [kb' ->]]; [|by eexists].
    destruct Hcalm as [Hoff|Hquiet]; [by left|right].
    cbn [quiet] in Hquiet. apply andb_true_iff in Hquiet as [Hvalue Hback].
    split; [by apply quiet_value
           | left; by destruct (raises _ (js "backspace"))].
  - destruct (handleKeyDown_page pg key value selectionStart now later)
      as [-> | (Htab & newValue & Hnew & Hpage)]; [done|].
    pose proof (highlightKey_tab_enabled pg) as Hen.
    pose proof (highlightKey_raises (availableKeysSet (vars pg))
                  (keyboard pg) [9%N] false) as Hthrows.
    destruct (if keyboardEnabled (keyboard pg) then _ else _) as [kb|kb]
      eqn:Hhl; rewrite Hpage.
    + destruct (handleInput_page_interval
                  (mkPage (vars pg) kb (live pg)) newValue now later Hok)
        as [Hok' Hruns].
      split; [done|]. intros Hcalm _. apply Hruns. cbn [vars keyboard].
      destruct (quiet_value_returns (vars pg) kb newValue now)
        as [_ [kb' ->]]; [|by eexists].
      rewrite Hen. destruct Hcalm as [Hoff|Hquiet]; [by left|right].
      cbn [quiet] in Hquiet. rewrite Htab in Hquiet.
      cbn [negb orb] in Hquiet.
      apply andb_true_iff in Hquiet as [Hquiet Hback].
      apply andb_true_iff in Hquiet as [Htabkey Hvalue].
      split; [|left; by destruct (raises _ (js "backspace"))].
      intros c [->|Hc]%Hnew;
        [by destruct (raises _ [9%N]) | by apply (quiet_value _ value)].
    + by split.
  - pose proof (restart_page_interval pg now Hok) as Hruns.
    split; [by apply interval_runs_ok|done].
  - destruct (bool_decide _); [|done].
    destruct Hok as [Hsome Hrunning].
    destruct (updateRealtimeStats_interval (vars pg) now (live pg))
      as (rt' & -> & Hruns); [done|].
    cbn [settled]. split; [apply interval_runs_ok|]; done.
  - done.
  - by destruct (keyboardEnabled _).
  - split; [|intros _]; unfold interval_ok, interval_runs, hide_stats;
      cbn [vars live]; by destruct realtimeStatsContainer.
Qed.

Lemma initial_page_interval keys enabled now :
  interval_runs (initial_page keys enabled now).
Proof.
  unfold initial_page.
  destruct (updateRealtimeStats_interval (initial keys) now
              (mkRealtime DisplayAsStyled [] None ∅ 0))
    as (rt' & -> & Hruns); [done|]. apply Hruns.
Qed.

Lemma loadText_page_interval text pg :
  (interval_ok pg -> interval_ok (loadText_page text pg))
  /\ (interval_runs pg -> interval_runs (loadText_page text pg)).
Proof.
  unfold interval_ok, interval_runs, loadText_page. cbn [vars live].
  destruct (renderText_stats_interval (loadText text (vars pg)) (live pg))
    as [-> ->]. done.
Qed.

Lemma page_acts_interval actions :
  forall pg,
    interval_ok pg ->
    interval_ok (page_run pg (map PageAct actions))
    /\ (calm (availableKeysSet (vars pg)) (keyboardEnabled (keyboard pg))
          actions = true ->
        interval_runs pg ->
        interval_runs (page_run pg (map PageAct actions))).
Proof.
  induction actions as [|a actions IH]; intros pg Hok; [done|].
  rewrite page_run_acts.
  destruct (page_act_interval pg a Hok) as [Hok' Hruns'].
  destruct (IH (page_act pg a) Hok') as [Hok'' Hruns''].
  split; [done|]. intros Hcalm Hruns. apply Hruns''.
  - destruct (page_act_fixed pg a) as [_ ->]. rewrite page_act_enabled.
    unfold calm in Hcalm |- *. cbn [forallb] in Hcalm.
    destruct (keyboardEnabled (keyboard pg)); [|done].
    cbn [negb orb] in Hcalm |- *. by apply andb_true_iff in Hcalm as [_ ?].
  - apply Hruns'; [|done].
    unfold calm in Hcalm. cbn [forallb] in Hcalm.
    destruct (keyboardEnabled (keyboard pg)); [right|by left].
    cbn [negb orb] in Hcalm. by apply andb_true_iff in Hcalm as [? _].
Qed.

(** X28. With the live statistics configured, an interval refreshes them
    only once the clock of the exercise runs, and it is the only interval
    there is. Where the keyboard is disabled or [highlightKey] throws in
    no action, the interval runs exactly while the clock does: it is
    started by the first input that is typed and only a restart stops it;
    completing the exercise does not. (An input event that
    [highlightKey] cuts short starts the clock and not the interval.)
    Each round of the interval shows the container again, also after the
    completion screen has hidden it, with one item per configured key
    that [statMap] knows. *)
Theorem live_statistics_interval keys enabled now0 before text after :
  let pg := page_session keys enabled now0 before text after in
  (realtimeStatsInterval (live pg) <> None -> startTime (vars pg) <> None)
  /\ intervals (live pg) = running (realtimeStatsInterval (live pg))
  /\ (calm keys enabled (before ++ after) = true ->
      (realtimeStatsInterval (live pg) = None
       <-> startTime (vars pg) = None))
  /\ forall id now,
       id ∈ intervals (live pg) ->
       let rt := live (page_act (page_act pg StatsHidden)
                         (IntervalRound id now)) in
       stats_display rt = DisplayFlex
       /\ length (stat_items rt) = length (known_keys realTimeStats)
       /\ realtimeStatsInterval rt = Some id.
Proof.
  intros pg.
  pose proof (initial_page_interval keys enabled now0) as Hruns0.
  destruct (page_acts_interval before (initial_page keys enabled now0)
              (interval_runs_ok _ Hruns0)) as [Hok1 Hruns1].
  destruct (loadText_page_interval text
              (page_run (initial_page keys enabled now0)
                 (map PageAct before))) as [Hok2 Hruns2].
  destruct (page_acts_interval after _ (Hok2 Hok1)) as [Hok3 Hruns3].
  rewrite <- page_session_unfold in Hok3, Hruns3. fold pg in Hok3, Hruns3.
  destruct Hok3 as [Hsome Hrunning].
  split_and!; [done | done | |].
  - intros Hcalm. apply Hruns3.
    + destruct (page_acts_fixed before (initial_page keys enabled now0))
        as (_ & Hkeys & Hen).
      cbn [loadText_page loadText vars keyboard availableKeysSet].
      rewrite Hkeys, Hen. cbn [initial_page initial vars keyboard
                                 initial_keyboard availableKeysSet
                                 keyboardEnabled].
      unfold calm in Hcalm |- *. destruct enabled; [|done].
      cbn [negb orb] in Hcalm |- *. rewrite forallb_app in Hcalm.
      by apply andb_true_iff in Hcalm as [_ ?].
    + apply Hruns2, Hruns1; [|done].
      cbn [initial_page initial vars keyboard initial_keyboard
           availableKeysSet keyboardEnabled].
      unfold calm in Hcalm |- *. destruct enabled; [|done].
      cbn [negb orb] in Hcalm |- *. rewrite forallb_app in Hcalm.
      by apply andb_true_iff in Hcalm as [? _].
  - intros id now Hid rt. subst rt. cbn [page_act vars keyboard live].
    assert (Hhidden : realtimeStatsInterval
                        (hide_stats realtimeStatsContainer (live pg))
                      = realtimeStatsInterval (live pg)
                      /\ intervals (hide_stats realtimeStatsContainer
                                      (live pg))
                         = intervals (live pg)).
    { unfold hide_stats. by destruct realtimeStatsContainer. }
    destruct Hhidden as [Hi Hs]. rewrite Hs, bool_decide_true by done.
    assert (Hid' : realtimeStatsInterval (live pg) = Some id).
    { rewrite Hrunning in Hid.
      destruct (realtimeStatsInterval (live pg)); cbn in Hid.
      - apply elem_of_singleton in Hid. by subst.
      - by apply elem_of_empty in Hid. }
    destruct (updateRealtimeStats_runs (vars pg) now
                (hide_stats realtimeStatsContainer (live pg)))
      as (rt' & -> & Hflex & Hlen & _ & _ & Hkeep); try done.
    + by rewrite Hi.
    + by rewrite Hi, Hs.
    + cbn [settled live]. split_and!; [done..|].
      rewrite Hkeep, Hi; [done|]. by rewrite Hi, Hid'.
Qed.

End Configured.

(** X29. A configured key that [statMap] only inherits from
    [Object.prototype] makes every call of [updateRealtimeStats] throw,
    before it starts the interval: whatever is typed, no interval ever
    runs. *)
Theorem inherited_key_stops_live_statistics k keys enabled now0 es :
  realtimeStatsContainer = true ->
  k ∈ realTimeStats -> k ∈ inherited -> k ∉ stat_keys ->
  (forall st now rt, exists rt',
     updateRealtimeStats realtimeStatsContainer realTimeStats inherited st
       now rt = Thrown rt'
     /\ realtimeStatsInterval rt' = realtimeStatsInterval rt
     /\ intervals rt' = intervals rt)
  /\ let pg := page_run (initial_page keys enabled now0) es in
     realtimeStatsInterval (live pg) = None /\ intervals (live pg) = ∅.
Proof.
  intros Hcontainer Hin Hinh Hout.
  assert (Hconfigured : realTimeStats <> []).
  { intros Hnil. rewrite Hnil in Hin. by apply elem_of_nil in Hin. }
  assert (Hthrows : forall st now rt, exists rt',
     updateRealtimeStats realtimeStatsContainer realTimeStats inherited st
       now rt = Thrown rt'
     /\ realtimeStatsInterval rt' = realtimeStatsInterval rt
     /\ intervals rt' = intervals rt).
  { intros st now rt. unfold updateRealtimeStats. rewrite Hcontainer.
    cbn [negb]. rewrite bool_decide_false by done.
    destruct (append_items_throws (calculateRealtimeStats st now)
                realTimeStats k Hin Hinh Hout []) as [items ->].
    by eexists. }
  split; [done|]. intros pg. subst pg. unfold page_run.
  assert (Hinput : forall pg value now later,
            realtimeStatsInterval (live pg) = None ->
            intervals (live pg) = ∅ ->
            realtimeStatsInterval
              (live (settled (handleInput_page pg value now later))) = None
            /\ intervals
                 (live (settled (handleInput_page pg value now later))) = ∅).
  { intros pg value now later Hnone Hempty. unfold handleInput_page.
    destruct (handleInput_keyboard _ _ _ _) as [[st kb]|[st kb]]; [|done].
    cbv zeta.
    destruct (Hthrows st later (renderText_stats st (live pg)))
      as (rt' & -> & Hi & Hs).
    cbn [settled live]. rewrite Hi, Hs.
    by destruct (renderText_stats_interval st (live pg)) as [-> ->]. }
  induction es as [|e es IH] using rev_ind.
  - cbn [fold_left initial_page live].
    destruct (Hthrows (initial keys) now0
                (mkRealtime DisplayAsStyled [] None ∅ 0))
      as (rt' & Hu & Hi & Hs). rewrite Hu. cbn [settled]. by rewrite Hi, Hs.
  - rewrite fold_left_app. cbn [fold_left].
    set (pg := fold_left page_step es (initial_page keys enabled now0)) in *.
    destruct IH as [Hnone Hempty].
    destruct e as [text|a]; cbn [page_step].
    { cbn [loadText_page live].
      by destruct (renderText_stats_interval (loadText text (vars pg))
                     (live pg)) as [-> ->]. }
    destruct a as [value now later|key value selectionStart now later|now
                   |id now| id | |]; cbn [page_act].
    + by apply Hinput.
    + destruct (handleKeyDown_page pg key value selectionStart now later)
        as [-> | (_ & newValue & _ & Hpage)]; [done|].
      destruct (if keyboardEnabled (keyboard pg) then _ else _) as [kb|kb];
        rewrite Hpage; [|done].
      by apply Hinput.
    + unfold restart_page. cbv zeta.
      destruct (Hthrows (restart (vars pg)) now (clear_interval (live pg)))
        as (rt' & -> & Hi & Hs).
      cbn [settled live]. rewrite Hi, Hs.
      unfold clear_interval. by rewrite Hnone.
    + destruct (bool_decide (id ∈ intervals (live pg))); [|done].
      destruct (Hthrows (vars pg) now (live pg)) as (rt' & -> & Hi & Hs).
      cbn [settled live]. by rewrite Hi, Hs.
    + done.
    + by destruct (keyboardEnabled _).
    + cbn [live]. unfold hide_stats. by destruct realtimeStatsContainer.
Qed.

(** The typed positions are among those that are not pending, and they
    are all of them when [highlightKey] does not throw. *)
Lemma typed_length_page_session keys enabled now before text after :
  let st := vars (page_session keys enabled now before text after) in
  length (typedText st) <= countTyped (charStates st)
  /\ (calm keys enabled (before ++ after) = true ->
      length (typedText st) = countTyped (charStates st)).
Proof.
  intros st. split; [apply sound_count, sound_page_session|].
  intros Hcalm.
  destruct (calm_page_session keys enabled now before text after Hcalm)
    as (es1 & es2 & Hst).
  subst st. rewrite Hst. apply consistent_count, consistent_session.
Qed.


End Engine.

(** *** The live statistics before typing *)

(** C8. As long as [startTime] is unset, [calculateRealtimeStats] returns
    0 for the speed, the accuracy, the time, the errors and the errors
    left, with the lengths of [typedText] and of the reference text as
    [chars]; no arithmetic is done on that path. *)
Theorem realtime_stats_before_typing st now :
  startTime st = None ->
  calculateRealtimeStats st now =
    Live.mk 0 0 0 0 0
      (Live.mkChars (length (typedText st)) (length (originalText st))).
Proof. intros Hstart. unfold calculateRealtimeStats. by rewrite Hstart. Qed.

Lemma realtime_stats_before_typing_witness :
  startTime (session toLowerCase_basic ∅ [] (js "cat") []) = None
  /\ calculateRealtimeStats (session toLowerCase_basic ∅ [] (js "cat") []) 5
     = Live.mk 0 0 0 0 0 (Live.mkChars 0 3).
Proof.
  split; [reflexivity|].
  apply (realtime_stats_before_typing
           (session toLowerCase_basic ∅ [] (js "cat") []) 5).
  reflexivity.
Defined.

(** The clock is unset when the text has been loaded and after a restart;
    an input event starts it when its value, once filtered, is not
    empty. *)
Lemma startTime_unset_before_typing toLowerCase keys text st value now :
  startTime (loadText text (initial keys)) = None
  /\ startTime (restart st) = None
  /\ startTime (handleInput toLowerCase st value now) =
       match startTime st with
       | Some t => Some t
       | None =>
           if decide (0 < length
                (if decide (0 < size (availableKeysSet st))
                 then filterInput toLowerCase (availableKeysSet st) value
                 else value))
           then Some now else None
       end.
Proof.
  split_and!; try done. unfold handleInput.
  repeat match goal with
         | |- context [typeForward ?a ?b ?c ?d ?e ?f] =>
             destruct (typeForward a b c d e f) as [[? ?] ?]
         | |- context [decide (?n < ?m)] =>
             lazymatch n with
             | 0 => fail
             | _ => destruct (decide (n < m))
             end
         end; done.
Qed.

(** *** Concrete runs *)

Lemma home_row_loadConfig :
  home_row = loadConfig toLowerCase_basic [js "a"; js "s"; js "d"; js "f"].
Proof. reflexivity. Qed.

Lemma fixed_keys_always_available_witness :
  always_available toLowerCase_basic (js "ENTER")
  /\ isKeyAvailable toLowerCase_basic home_row (js "ENTER") = true.
Proof.
  assert (H : always_available toLowerCase_basic (js "ENTER")).
  { right. vm_compute. repeat constructor. }
  split; [exact H|].
  apply (fixed_keys_always_available toLowerCase_basic home_row (js "ENTER") H).
Defined.

(** C6 as stated fails: with the keys [a], [s], [d], [f] configured, the
    key name [Delete] and the delete character are refused. *)
Lemma delete_key_is_filtered :
  isKeyAvailable toLowerCase_basic home_row (js "Delete") = false
  /\ isKeyAvailable toLowerCase_basic home_row [127%N] = false
  /\ isKeyAvailable toLowerCase_basic home_row (js "Backspace") = true.
Proof. by vm_compute. Qed.

(** The key policy on the configuration [["a", "s", "d", "f"]]: [g] is
    refused, upper-case [A] and the space are accepted; with no keys
    configured every key is accepted. *)
Lemma key_policy_example :
  isKeyAvailable toLowerCase_basic home_row (js "g") = false
  /\ isKeyAvailable toLowerCase_basic home_row (js "A") = true
  /\ isKeyAvailable toLowerCase_basic home_row (js " ") = true
  /\ filterInput toLowerCase_basic home_row (js "a sad flag, Dad.")
     = js "a sad fa, Dad."
  /\ isKeyAvailable toLowerCase_basic ∅ (js "g") = true.
Proof. by vm_compute. Qed.

(** C5 as stated fails: with the reference text [ab] and [a] typed, the
    value [x], of the same length, is not stored. *)
Lemma same_length_value_not_stored :
  let st := session toLowerCase_basic ∅ [] (js "ab") [Input (js "a") 0] in
  let st' := handleInput toLowerCase_basic st (js "x") 1 in
  typedText st' = js "a"
  /\ typedText st' <> slice_to (length (originalText st)) (js "x").
Proof. by vm_compute. Qed.

(** *** Numbers as text *)

Lemma digits_from_digits fuel :
  forall n acc,
    forallb is_digit acc = true ->
    forallb is_digit (digits_from fuel n acc) = true.
Proof.
  induction fuel as [|fuel IH]; intros n acc Hacc; cbn [digits_from]; [done|].
  assert (Hd : forallb is_digit ((48 + n mod 10)%N :: acc) = true).
  { cbn [forallb]. rewrite Hacc, andb_true_r. unfold is_digit.
    pose proof (N.mod_upper_bound n 10 ltac:(lia)) as Hmod.
    revert Hmod. generalize (n mod 10)%N. intros r Hr.
    rewrite andb_true_iff, !N.leb_le. lia. }
  destruct (n / 10 =? 0)%N; [done | by apply IH].
Qed.

Lemma digits_from_nonempty fuel n acc :
  digits_from (S fuel) n acc <> [].
Proof.
  revert n acc. induction fuel as [|fuel IH]; intros n acc.
  - cbn. by destruct (n / 10 =? 0)%N.
  - cbn [digits_from]. destruct (n / 10 =? 0)%N; [done|]. apply IH.
Qed.

Lemma digits_from_value fuel :
  forall n acc,
    (n < 2 ^ N.of_nat fuel)%N ->
    fold_left (fun a c => a * 10 + (c - 48))%N (digits_from fuel n acc) 0%N
    = fold_left (fun a c => a * 10 + (c - 48))%N acc n.
Proof.
  induction fuel as [|fuel IH]; intros n acc Hn; cbn [digits_from].
  - cbn in Hn. by replace n with 0%N by lia.
  - pose proof (N.mod_upper_bound n 10 ltac:(lia)) as Hmod.
    pose proof (N.div_mod' n 10) as Hdiv.
    assert (Hq : (n / 10 < 2 ^ N.of_nat fuel)%N).
    { rewrite Nat2N.inj_succ, N.pow_succ_r' in Hn.
      apply N.Div0.div_lt_upper_bound. lia. }
    revert Hmod Hdiv Hq. generalize (n mod 10)%N (n / 10)%N.
    intros r q Hmod Hdiv Hq.
    destruct (N.eqb_spec q 0) as [Hz|Hnz].
    + cbn [fold_left]. f_equal. lia.
    + rewrite IH by done. cbn [fold_left]. f_equal. lia.
Qed.

Lemma decimal_digits n : forallb is_digit (decimal n) = true.
Proof. by apply digits_from_digits. Qed.

Lemma decimal_nonempty n : decimal n <> [].
Proof. apply digits_from_nonempty. Qed.

Lemma decimal_value n : digits_value (decimal n) = n.
Proof.
  unfold digits_value, decimal. rewrite digits_from_value; [done|].
  rewrite Nat2N.inj_succ, N2Nat.id.
  destruct n as [|p]; [done|]. apply N.log2_spec. lia.
Qed.

Lemma digit_prefix_all s rest :
  forallb is_digit s = true ->
  match rest with
  | [] => True
  | c :: _ => is_digit c = false
  end ->
  digit_prefix (s ++ rest) = s.
Proof.
  intros Hs Hrest. induction s as [|c s IH]; cbn [app digit_prefix].
  - destruct rest as [|c rest]; [done|]. cbn. by rewrite Hrest.
  - cbn [forallb] in Hs. apply andb_true_iff in Hs as [Hc Hs].
    by rewrite Hc, IH.
Qed.

Lemma parseInt_decimal n : parseInt (decimal n) = Num (inject_Z (Z.of_N n)).
Proof.
  unfold parseInt.
  rewrite <- (app_nil_r (decimal n)) at 1.
  rewrite digit_prefix_all by (done || apply decimal_digits).
  pose proof (decimal_nonempty n) as Hne. pose proof (decimal_value n) as Hv.
  destruct (decimal n) as [|d ds]; [done|]. by rewrite Hv.
Qed.

Lemma digits_value_zeros j m :
  digits_value (replicate j 48%N ++ m) = digits_value m.
Proof.
  unfold digits_value. rewrite fold_left_app. f_equal.
  induction j as [|j IH]; [done|]. cbn. exact IH.
Qed.

Lemma forallb_take_drop {A} (f : A -> bool) k (l : list A) :
  forallb f l = true ->
  forallb f (take k l) = true /\ forallb f (drop k l) = true.
Proof.
  intros Hl. rewrite <- (take_drop k l), forallb_app in Hl.
  by apply andb_true_iff in Hl.
Qed.

(** Below 10^21, [toFixed(2)] of a non-negative number is digits, a point
    and two digits, which read as [hundredths]. *)
Lemma toFixed2_fixed x :
  (0 <= x)%Q -> (x < 10 ^ 21)%Q ->
  exists a b,
    toFixed2 x = a ++ 46%N :: b
    /\ a <> [] /\ forallb is_digit a = true /\ forallb is_digit b = true
    /\ length b = 2 /\ digits_value (a ++ b) = hundredths x.
Proof.
  intros Hpos Hlt. unfold toFixed2.
  assert (Hnum : (Qnum x <? 0)%Z = false).
  { apply Z.ltb_ge. unfold Qle in Hpos. cbn in Hpos. lia. }
  rewrite Hnum. unfold toFixed2_abs.
  assert (Hbig : Qle_bool (10 ^ 21) x = false).
  { apply not_true_is_false. rewrite Qle_bool_iff. by apply Qlt_not_le. }
  rewrite Hbig. fold (hundredths x).
  set (m := if decide (length (decimal (hundredths x)) <= 2)
            then replicate (3 - length (decimal (hundredths x))) 48%N
                 ++ decimal (hundredths x)
            else decimal (hundredths x)).
  assert (Hm : 3 <= length m /\ forallb is_digit m = true
               /\ digits_value m = hundredths x).
  { subst m. pose proof (decimal_digits (hundredths x)) as Hd.
    pose proof (decimal_value (hundredths x)) as Hv.
    destruct (decide _) as [Hshort|Hlong].
    - split_and!.
      + rewrite length_app, length_replicate. lia.
      + rewrite forallb_app, Hd, andb_true_r.
        generalize (3 - length (decimal (hundredths x))).
        intros j. induction j as [|j IH]; [done|]. cbn. exact IH.
      + by rewrite digits_value_zeros.
    - split_and!; [lia | done | done]. }
  destruct Hm as (Hlen & Hdig & Hval).
  destruct (forallb_take_drop is_digit (length m - 2) m Hdig) as [Ha Hb].
  exists (take (length m - 2) m), (drop (length m - 2) m).
  split_and!; try done.
  - intros Hnil. apply (f_equal length) in Hnil.
    rewrite length_take in Hnil. cbn in Hnil. lia.
  - rewrite length_drop. lia.
  - by rewrite take_drop.
Qed.

Lemma parseFloat_fixed a b :
  a <> [] -> forallb is_digit a = true -> forallb is_digit b = true ->
  parseFloat (a ++ 46%N :: b)
  = Num (Z.of_N (digits_value (a ++ b)) # pow10 (length b)).
Proof.
  intros Hne Ha Hb. unfold parseFloat.
  rewrite digit_prefix_all by done.
  assert (Hb' : digit_prefix b = b).
  { rewrite <- (app_nil_r b) at 1. by apply digit_prefix_all. }
  rewrite drop_app_length. change (46 =? 46)%N with true. cbn iota.
  rewrite Hb'. by destruct a.
Qed.

(** *** Matching *)

Lemma starts_with_app p s : starts_with p (p ++ s) = true.
Proof.
  induction p as [|c p IH]; [done|]. cbn. by rewrite N.eqb_refl, IH.
Qed.

Lemma starts_with_split p s :
  starts_with p s = true -> exists rest, s = p ++ rest.
Proof.
  revert s. induction p as [|c p IH]; intros s Hs; [by exists s|].
  destruct s as [|d s]; [done|]. cbn in Hs.
  apply andb_true_iff in Hs as [Hc Hs]. apply N.eqb_eq in Hc as ->.
  destruct (IH s Hs) as [rest ->]. by exists rest.
Qed.

Lemma includes_unfold s p :
  includes s p =
    starts_with p s
    || match s with
       | [] => false
       | _ :: s' => includes s' p
       end.
Proof. by destruct s. Qed.

Lemma includes_prefix p s : includes (p ++ s) p = true.
Proof. by rewrite includes_unfold, starts_with_app. Qed.

Lemma includes_split s p :
  includes s p = true -> exists before after, s = before ++ p ++ after.
Proof.
  induction s as [|c s IH]; rewrite includes_unfold; intros Hs;
    apply orb_true_iff in Hs as [Hs|Hs].
  - destruct (starts_with_split _ _ Hs) as [rest ->]. by exists [], rest.
  - done.
  - destruct (starts_with_split _ _ Hs) as [rest ->]. by exists [], rest.
  - destruct (IH Hs) as (before & after & ->). by exists (c :: before), after.
Qed.

(** A list with one occurrence of [c] splits around it in one way. *)
Lemma split_at_only (c : N) x :
  forall u y v,
    c ∉ x -> c ∉ y -> x ++ c :: y = u ++ c :: v -> x = u.
Proof.
  induction x as [|e x IH]; intros u y v Hx Hy Heq.
  - destruct u as [|e' u]; [done|]. cbn in Heq. injection Heq as <- ->.
    exfalso. apply Hy. apply elem_of_app. right. by left.
  - destruct u as [|e' u].
    + cbn in Heq. injection Heq as -> _. exfalso. apply Hx. by left.
    + cbn in Heq. injection Heq as <- Heq. f_equal.
      apply (IH u y v); [|done|done].
      intros Hin. apply Hx. by right.
Qed.

Lemma no_colon_spec s : no_colon s = true -> 58%N ∉ s.
Proof.
  intros Hs Hin. induction s as [|c s IH]; [by apply elem_of_nil in Hin|].
  cbn in Hs. apply andb_true_iff in Hs as [Hc Hs].
  apply elem_of_cons in Hin as [<-|Hin]; [done | by apply IH].
Qed.

(** Each label of the report ends in its only colon, and each line of the
    report holds one colon: a line includes a label only if the label ends
    where the line's own label ends. *)
Lemma includes_label_false x y name :
  no_colon x = true -> no_colon y = true ->
  str_eqb (drop (length x - length name) x) name = false ->
  includes (x ++ 58%N :: y) (name ++ [58%N]) = false.
Proof.
  intros Hx Hy Hsuffix. apply not_true_is_false. intros Hinc.
  destruct (includes_split _ _ Hinc) as (before & after & Heq).
  rewrite <- app_assoc in Heq. cbn [app] in Heq. rewrite app_assoc in Heq.
  apply split_at_only in Heq; [|by apply no_colon_spec..].
  unfold str_eqb in Hsuffix. apply bool_decide_eq_false in Hsuffix.
  apply Hsuffix. rewrite Heq, length_app.
  replace (length before + length name - length name) with (length before)
    by lia.
  apply drop_app_length.
Qed.

Lemma greedy_run class k run :
  forall taken rest r,
    forallb class run = true ->
    match rest with
    | [] => True
    | c :: _ => class c = false
    end ->
    k (taken ++ run) rest = Some r ->
    greedy class k taken (run ++ rest) = Some r.
Proof.
  induction run as [|c run IH]; intros taken rest r Hrun Hrest Hk.
  - rewrite app_nil_r in Hk. cbn [app].
    destruct rest as [|c rest]; [done|]. cbn. by rewrite Hrest.
  - cbn [forallb] in Hrun. apply andb_true_iff in Hrun as [Hc Hrun].
    cbn [app greedy]. rewrite Hc.
    rewrite (IH (taken ++ [c]) rest r); [done | done | done |].
    by rewrite <- app_assoc.
Qed.

Lemma regexp_match_unfold re s :
  regexp_match re s =
    match match_at re [] s with
    | Some g => Some g
    | None =>
        match s with
        | [] => None
        | _ :: s' => regexp_match re s'
        end
    end.
Proof. by destruct s. Qed.

Lemma digit_not_space c : is_digit_or_dot c = true -> is_space c = false.
Proof.
  unfold is_digit_or_dot, is_digit, is_space. intros Hc.
  apply orb_true_iff in Hc.
  rewrite andb_true_iff, !N.leb_le, N.eqb_eq in Hc.
  apply not_true_is_false. intros Hs.
  rewrite !orb_true_iff, andb_true_iff, !N.leb_le, !N.eqb_eq in Hs. lia.
Qed.

Lemma digit_is_digit_or_dot s :
  forallb is_digit s = true -> forallb is_digit_or_dot s = true.
Proof.
  induction s as [|c s IH]; [done|].
  cbn [forallb no_colon no_newline]. intros Hs.
  apply andb_true_iff in Hs as [Hc Hs].
  unfold is_digit_or_dot at 1. by rewrite Hc, IH.
Qed.

Lemma digits_no_colon s :
  forallb is_digit_or_dot s = true -> no_colon s = true.
Proof.
  induction s as [|c s IH]; [done|].
  cbn [forallb no_colon no_newline]. intros Hs.
  apply andb_true_iff in Hs as [Hc Hs]. apply andb_true_iff.
  split; [|by apply IH].
  unfold is_digit_or_dot, is_digit in Hc. apply orb_true_iff in Hc.
  rewrite andb_true_iff, !N.leb_le, N.eqb_eq in Hc.
  apply negb_true_iff, N.eqb_neq. lia.
Qed.

Lemma digits_no_newline s :
  forallb is_digit_or_dot s = true -> no_newline s = true.
Proof.
  induction s as [|c s IH]; [done|].
  cbn [forallb no_colon no_newline]. intros Hs.
  apply andb_true_iff in Hs as [Hc Hs]. apply andb_true_iff.
  split; [|by apply IH].
  unfold is_digit_or_dot, is_digit in Hc. apply orb_true_iff in Hc.
  rewrite andb_true_iff, !N.leb_le, N.eqb_eq in Hc.
  apply negb_true_iff, N.eqb_neq. lia.
Qed.

Lemma head_digit_not_space num (rest : jsstring) :
  num <> [] -> forallb is_digit_or_dot num = true ->
  match num ++ rest with
  | [] => True
  | c :: _ => is_space c = false
  end.
Proof.
  intros Hne Hnum. destruct num as [|d num]; [done|]. cbn [app].
  cbn [forallb] in Hnum. apply andb_true_iff in Hnum as [Hd _].
  by apply digit_not_space.
Qed.

(** [/label\s*(\d+)/] on [label digits]. *)
Lemma match_counter label num :
  num <> [] -> forallb is_digit num = true ->
  regexp_match [Lit label; Star is_space; Group is_digit] (label ++ 32%N :: num)
  = Some num.
Proof.
  intros Hne Hnum. rewrite regexp_match_unfold. cbn [match_at].
  rewrite starts_with_app, drop_app_length.
  rewrite (greedy_run is_space _ [32%N] [] num num); [done | done | |].
  - rewrite <- (app_nil_r num).
    by apply head_digit_not_space, digit_is_digit_or_dot.
  - cbn [app]. rewrite <- (app_nil_r num) at 1.
    apply greedy_run; [done | done |]. cbn [app]. by destruct num.
Qed.

(** [/label\s*([\d.]+)\s*tail/] on [label number tail]. *)
Lemma match_measure label tail num :
  num <> [] -> forallb is_digit_or_dot num = true ->
  match tail with
  | [] => True
  | c :: _ => is_space c = false
  end ->
  regexp_match
    [Lit label; Star is_space; Group is_digit_or_dot; Star is_space; Lit tail]
    (label ++ 32%N :: num ++ 32%N :: tail)
  = Some num.
Proof.
  intros Hne Hnum Htail. rewrite regexp_match_unfold. cbn [match_at].
  rewrite starts_with_app, drop_app_length.
  rewrite (greedy_run is_space _ [32%N] [] (num ++ 32%N :: tail) num);
    [done | done | by apply head_digit_not_space |].
  cbn [app]. apply greedy_run; [done | done |]. cbn [app].
  destruct num as [|d num]; [done|].
  rewrite (greedy_run is_space _ [32%N] [] tail (d :: num));
    [done | done | done |].
  rewrite <- (app_nil_r tail) at 2.
  by rewrite starts_with_app.
Qed.

(** [/label\s*([\d.]+)tail/] on [label number] followed by [tail]. *)
Lemma match_share label tail num :
  num <> [] -> forallb is_digit_or_dot num = true ->
  match tail with
  | [] => True
  | c :: _ => is_digit_or_dot c = false
  end ->
  regexp_match [Lit label; Star is_space; Group is_digit_or_dot; Lit tail]
    (label ++ 32%N :: num ++ tail)
  = Some num.
Proof.
  intros Hne Hnum Htail. rewrite regexp_match_unfold. cbn [match_at].
  rewrite starts_with_app, drop_app_length.
  rewrite (greedy_run is_space _ [32%N] [] (num ++ tail) num);
    [done | done | by apply head_digit_not_space |].
  cbn [app]. apply greedy_run; [done | done |]. cbn [app].
  destruct num as [|d num]; [done|].
  rewrite <- (app_nil_r tail) at 2.
  by rewrite starts_with_app.
Qed.

(** *** Lines *)

Lemma split_lines_skip line :
  no_newline line = true ->
  forall cur rest,
    split_lines cur (line ++ rest) = split_lines (cur ++ line) rest.
Proof.
  induction line as [|c line IH]; intros Hline cur rest.
  - by rewrite app_nil_r.
  - cbn [no_newline forallb] in Hline.
    apply andb_true_iff in Hline as [Hc Hline].
    apply negb_true_iff in Hc. cbn [app split_lines]. rewrite Hc.
    rewrite IH by done. by rewrite <- app_assoc.
Qed.

Lemma split_lines_nl cur rest :
  split_lines cur (nl ++ rest) = cur :: split_lines [] rest.
Proof. done. Qed.

Lemma split_lines_app text :
  forall cur rest,
    split_lines cur (text ++ nl ++ rest)
    = split_lines cur text ++ split_lines [] rest.
Proof.
  induction text as [|c text IH]; intros cur rest; [done|].
  cbn [app split_lines]. destruct (c =? 10)%N.
  - cbn [app]. f_equal. apply IH.
  - apply IH.
Qed.

Lemma split_lines_unlines lines :
  forallb no_newline lines = true ->
  forall rest,
    split_lines [] (unlines lines ++ rest) = lines ++ split_lines [] rest.
Proof.
  intros Hlines rest. induction lines as [|line lines IH]; [done|].
  cbn [forallb] in Hlines. apply andb_true_iff in Hlines as [Hline Hlines].
  cbn [unlines flat_map]. rewrite <- !app_assoc.
  rewrite split_lines_skip by done. rewrite split_lines_nl.
  cbn [app]. f_equal. by apply IH.
Qed.

Lemma parseLine_free stats line :
  free_line line = true -> parseLine stats line = stats.
Proof.
  unfold free_line. rewrite !andb_true_iff, !negb_true_iff.
  intros ((((H1 & H2) & H3) & H4) & H5). unfold parseLine. destruct stats.
  by rewrite H1, H2, H3, H4, H5.
Qed.

Lemma parseLines_free lines stats :
  forallb free_line lines = true -> fold_left parseLine lines stats = stats.
Proof.
  revert stats. induction lines as [|line lines IH]; intros stats Hfree;
    [done|].
  cbn [forallb] in Hfree. apply andb_true_iff in Hfree as [Hline Hlines].
  cbn [fold_left]. rewrite parseLine_free by done. by apply IH.
Qed.

Lemma no_colon_rest num tail :
  forallb is_digit_or_dot num = true -> no_colon tail = true ->
  no_colon (32%N :: num ++ tail) = true.
Proof.
  intros Hnum Htail. unfold no_colon in *. cbn [forallb].
  rewrite forallb_app, Htail, andb_true_r.
  by apply digits_no_colon in Hnum.
Qed.

Ltac other_label own rest other :=
  match goal with
  | |- context [includes ?line ?label] =>
      change (includes line label)
        with (includes (own ++ 58%N :: rest) (other ++ [58%N]));
      rewrite (includes_label_false own rest other);
      [ | reflexivity | | reflexivity ]
  end.

Lemma parseLine_totalErrors stats num :
  num <> [] -> forallb is_digit num = true ->
  parseLine stats (js "Total Errors Made: " ++ num)
  = Parsed.mk (Some (parseInt num)) (Parsed.errorsLeft stats)
      (Parsed.totalTime stats) (Parsed.accuracy stats) (Parsed.speed stats).
Proof.
  intros Hne Hnum. unfold parseLine. destruct stats.
  change (js "Total Errors Made: " ++ num)
    with (js "Total Errors Made:" ++ 32%N :: num).
  rewrite includes_prefix. unfold re_totalErrors.
  by rewrite match_counter.
Qed.

Lemma parseLine_errorsLeft stats num :
  num <> [] -> forallb is_digit num = true ->
  parseLine stats (js "Errors Left (Unfixed): " ++ num)
  = Parsed.mk (Parsed.totalErrors stats) (Some (parseInt num))
      (Parsed.totalTime stats) (Parsed.accuracy stats) (Parsed.speed stats).
Proof.
  intros Hne Hnum. pose proof (digit_is_digit_or_dot _ Hnum) as Hdd.
  assert (Hrest : no_colon (32%N :: num ++ []) = true)
    by (by apply no_colon_rest).
  rewrite app_nil_r in Hrest.
  unfold parseLine. destruct stats.
  other_label (js "Errors Left (Unfixed)") (32%N :: num) (js "Total Errors Made");
    [|done].
  change (js "Errors Left (Unfixed): " ++ num)
    with (js "Errors Left (Unfixed):" ++ 32%N :: num).
  rewrite includes_prefix. unfold re_errorsLeft.
  by rewrite match_counter.
Qed.

Lemma parseLine_totalTime stats num :
  num <> [] -> forallb is_digit_or_dot num = true ->
  parseLine stats (js "Total Time: " ++ num ++ js " seconds")
  = Parsed.mk (Parsed.totalErrors stats) (Parsed.errorsLeft stats)
      (Some (parseFloat num)) (Parsed.accuracy stats) (Parsed.speed stats).
Proof.
  intros Hne Hnum.
  assert (Hrest : no_colon (32%N :: num ++ js " seconds") = true)
    by (by apply no_colon_rest).
  unfold parseLine. destruct stats.
  other_label (js "Total Time") (32%N :: num ++ js " seconds")
    (js "Total Errors Made"); [|done].
  other_label (js "Total Time") (32%N :: num ++ js " seconds")
    (js "Errors Left (Unfixed)"); [|done].
  change (js "Total Time: " ++ num ++ js " seconds")
    with (js "Total Time:" ++ 32%N :: num ++ 32%N :: js "seconds").
  rewrite includes_prefix. unfold re_totalTime.
  by rewrite match_measure.
Qed.

Lemma parseLine_accuracy stats num :
  num <> [] -> forallb is_digit_or_dot num = true ->
  parseLine stats (js "Accuracy: " ++ num ++ js "%")
  = Parsed.mk (Parsed.totalErrors stats) (Parsed.errorsLeft stats)
      (Parsed.totalTime stats) (Some (parseFloat num)) (Parsed.speed stats).
Proof.
  intros Hne Hnum.
  assert (Hrest : no_colon (32%N :: num ++ js "%") = true)
    by (by apply no_colon_rest).
  unfold parseLine. destruct stats.
  other_label (js "Accuracy") (32%N :: num ++ js "%")
    (js "Total Errors Made"); [|done].
  other_label (js "Accuracy") (32%N :: num ++ js "%")
    (js "Errors Left (Unfixed)"); [|done].
  other_label (js "Accuracy") (32%N :: num ++ js "%") (js "Total Time");
    [|done].
  change (js "Accuracy: " ++ num ++ js "%")
    with (js "Accuracy:" ++ 32%N :: num ++ js "%").
  rewrite includes_prefix. unfold re_accuracy.
  by rewrite match_share.
Qed.

Lemma parseLine_speed stats num :
  num <> [] -> forallb is_digit_or_dot num = true ->
  parseLine stats (js "Speed: " ++ num ++ js " words per minute")
  = Parsed.mk (Parsed.totalErrors stats) (Parsed.errorsLeft stats)
      (Parsed.totalTime stats) (Parsed.accuracy stats) (Some (parseFloat num)).
Proof.
  intros Hne Hnum.
  assert (Hrest : no_colon (32%N :: num ++ js " words per minute") = true)
    by (by apply no_colon_rest).
  unfold parseLine. destruct stats.
  other_label (js "Speed") (32%N :: num ++ js " words per minute")
    (js "Total Errors Made"); [|done].
  other_label (js "Speed") (32%N :: num ++ js " words per minute")
    (js "Errors Left (Unfixed)"); [|done].
  other_label (js "Speed") (32%N :: num ++ js " words per minute")
    (js "Total Time"); [|done].
  other_label (js "Speed") (32%N :: num ++ js " words per minute")
    (js "Accuracy"); [|done].
  change (js "Speed: " ++ num ++ js " words per minute")
    with (js "Speed:" ++ 32%N :: num ++ 32%N :: js "words per minute").
  rewrite includes_prefix. unfold re_speed.
  by rewrite match_measure.
Qed.

(** *** The report read back *)

Lemma figure_lines_no_newline errs unfixed secs acc wpm :
  no_newline errs = true -> no_newline unfixed = true ->
  no_newline secs = true -> no_newline acc = true -> no_newline wpm = true ->
  forallb no_newline (figure_lines errs unfixed secs acc wpm) = true.
Proof.
  intros He Hu Hs Ha Hw. unfold figure_lines. cbn [forallb].
  unfold no_newline in *. rewrite !forallb_app, He, Hu, Hs, Ha, Hw.
  by vm_compute.
Qed.

Lemma statsText_lines stats generated :
  statsText stats generated
  = js "Typing Statistics" ++ nl
    ++ unlines
         ([js "=================="; []]
          ++ figure_lines (Number_toString (Final.totalErrors stats))
               (Number_toString (Final.errorsLeft stats))
               (toFixed2 (Final.totalTime stats))
               (toFixed2 (Final.accuracy stats))
               (toFixed2 (Final.speed stats))
          ++ [[]])
    ++ (js "Generated: " ++ generated) ++ nl.
Proof.
  unfold statsText, figure_lines, unlines. cbn [flat_map app].
  by rewrite <- !app_assoc.
Qed.

Lemma Number_toString_small n :
  (n < 10 ^ 21)%N -> Number_toString n = decimal n.
Proof.
  intros Hn. unfold Number_toString.
  by rewrite (proj2 (N.ltb_lt n (10 ^ 21)) Hn).
Qed.

Lemma parseFloat_toFixed2 x :
  (0 <= x)%Q -> (x < 10 ^ 21)%Q ->
  parseFloat (toFixed2 x) = Num (Z.of_N (hundredths x) # 100)
  /\ toFixed2 x <> [] /\ forallb is_digit_or_dot (toFixed2 x) = true.
Proof.
  intros Hpos Hlt.
  destruct (toFixed2_fixed x Hpos Hlt)
    as (a & b & -> & Hne & Ha & Hb & Hlen & Hval).
  split_and!.
  - rewrite parseFloat_fixed by done. by rewrite Hval, Hlen.
  - by destruct a.
  - rewrite forallb_app. cbn [forallb].
    by rewrite !digit_is_digit_or_dot.
Qed.

(** C9, as the script has it. For final statistics whose five figures are
    below 10^21 (the two counters; the time, the accuracy and the speed,
    not negative), [parseStatsText] reads back from the text that
    [saveStatistics] writes the two counters as they are and the three
    other figures as [toFixed(2)] wrote them, that is rounded to
    hundredths. Any text before the report does not matter, whether or
    not it holds labels or ends a line: the lines of the report come
    later and win. The date that follows [Generated:] and the text after
    the report do not matter as long as none of their lines holds one of
    the five labels. *)
Theorem report_read_back stats generated before after :
  (Final.totalErrors stats < 10 ^ 21)%N ->
  (Final.errorsLeft stats < 10 ^ 21)%N ->
  (0 <= Final.totalTime stats)%Q -> (Final.totalTime stats < 10 ^ 21)%Q ->
  (0 <= Final.accuracy stats)%Q -> (Final.accuracy stats < 10 ^ 21)%Q ->
  (0 <= Final.speed stats)%Q -> (Final.speed stats < 10 ^ 21)%Q ->
  label_free (js "Generated: " ++ generated) = true ->
  label_free after = true ->
  parseStatsText (before ++ statsText stats generated ++ after)
  = Parsed.mk
      (Some (Num (inject_Z (Z.of_N (Final.totalErrors stats)))))
      (Some (Num (inject_Z (Z.of_N (Final.errorsLeft stats)))))
      (Some (Num (Z.of_N (hundredths (Final.totalTime stats)) # 100)))
      (Some (Num (Z.of_N (hundredths (Final.accuracy stats)) # 100)))
      (Some (Num (Z.of_N (hundredths (Final.speed stats)) # 100)))
  /\ parseFloat (toFixed2 (Final.totalTime stats))
     = Num (Z.of_N (hundredths (Final.totalTime stats)) # 100)
  /\ parseFloat (toFixed2 (Final.accuracy stats))
     = Num (Z.of_N (hundredths (Final.accuracy stats)) # 100)
  /\ parseFloat (toFixed2 (Final.speed stats))
     = Num (Z.of_N (hundredths (Final.speed stats)) # 100).
Proof.
  intros Hte Hel Htt0 Htt Hac0 Hac Hsp0 Hsp Hgen Hafter.
  destruct (parseFloat_toFixed2 _ Htt0 Htt) as (Ptt & Ntt & Dtt).
  destruct (parseFloat_toFixed2 _ Hac0 Hac) as (Pac & Nac & Dac).
  destruct (parseFloat_toFixed2 _ Hsp0 Hsp) as (Psp & Nsp & Dsp).
  split_and!; try done.
  unfold parseStatsText. rewrite statsText_lines.
  rewrite !Number_toString_small by done.
  pose proof (decimal_digits (Final.totalErrors stats)) as Dte.
  pose proof (decimal_digits (Final.errorsLeft stats)) as Del.
  pose proof (decimal_nonempty (Final.totalErrors stats)) as Nte.
  pose proof (decimal_nonempty (Final.errorsLeft stats)) as Nel.
  match goal with
  | |- context [before ++ (?t ++ nl ++ ?u ++ ?g ++ nl) ++ after] =>
      replace (before ++ (t ++ nl ++ u ++ g ++ nl) ++ after)
        with ((before ++ t) ++ nl ++ (u ++ g ++ nl ++ after))
        by (by rewrite <- !app_assoc)
  end.
  rewrite split_lines_app, fold_left_app.
  generalize (fold_left parseLine
                (split_lines [] (before ++ js "Typing Statistics"))
                Parsed.empty) as earlier.
  intros earlier.
  rewrite split_lines_unlines.
  2:{ rewrite !forallb_app. rewrite figure_lines_no_newline; [done|..];
        apply digits_no_newline; (done || by apply digit_is_digit_or_dot). }
  rewrite split_lines_app.
  rewrite !fold_left_app.
  unfold figure_lines. cbn [app fold_left].
  rewrite !(parseLine_free _ (js "==================")) by done.
  rewrite !(parseLine_free _ []) by done.
  rewrite parseLine_totalErrors, parseLine_errorsLeft by done.
  rewrite parseLine_totalTime, parseLine_accuracy, parseLine_speed by done.
  rewrite !parseLines_free by done.
  cbn [Parsed.totalErrors Parsed.errorsLeft Parsed.totalTime
       Parsed.accuracy Parsed.speed].
  by rewrite !parseInt_decimal, Ptt, Pac, Psp.
Qed.

Lemma report_read_back_witness :
  parseStatsText (sample_before ++ statsText sample_stats sample_date
                  ++ sample_after)
  = Parsed.mk (Some (Num 3)) (Some (Num 1)) (Some (Num (1235 # 100)))
      (Some (Num (6667 # 100))) (Some (Num (17636671 # 100))).
Proof.
  apply (report_read_back sample_stats sample_date sample_before sample_after);
    vm_compute; (reflexivity || discriminate).
Defined.

(** C9 as stated fails. From 10^21 on [toFixed(2)] and the template
    literal write exponential notation, which the regular expressions do
    not match ([Total Time] is not read back, [Total Errors Made] is read
    back as 1); and a line of surrounding text that holds a label is read
    as a figure. *)
Lemma report_not_read_back :
  toFixed2 (10 ^ 21) = js "1e+21"
  /\ parseStatsText (statsText (Final.mk 3 1 (10 ^ 21) 0 0) sample_date)
     = Parsed.mk (Some (Num 3)) (Some (Num 1)) None
         (Some (Num (0 # 100))) (Some (Num (0 # 100)))
  /\ Parsed.totalErrors
       (parseStatsText (statsText (Final.mk (10 ^ 21) 1 0 0 0) sample_date))
     = Some (Num 1)
  /\ parseStatsText
       (statsText sample_stats sample_date ++ js "Speed: 1 words per minute")
     = Parsed.mk (Some (Num 3)) (Some (Num 1)) (Some (Num (1235 # 100)))
         (Some (Num (6667 # 100))) (Some (Num 1)).
Proof. by vm_compute. Qed.


(** ** The help modal *)

Lemma alternate_snoc l :
  forall b e,
    HelpModal.alternate b (l ++ [e])
    = HelpModal.alternate b l
      && match e with
         | HelpModal.HelpModalOpen => xorb b (Nat.odd (length l))
         | HelpModal.HelpModalClose => negb (xorb b (Nat.odd (length l)))
         end.
Proof.
  induction l as [|x l IH]; intros b e.
  - by destruct b, e.
  - cbn [app HelpModal.alternate length]. rewrite Nat.odd_succ, <- Nat.negb_odd.
    destruct x; rewrite IH; destruct b, e, (Nat.odd (length l));
      cbn; by rewrite ?andb_true_r, ?andb_false_r.
Qed.

(** What every instance keeps: it is open exactly when its element is
    displayed, and the custom events it dispatched alternate. *)
Lemma help_modal_step m e :
  (HelpModal.isOpen m = true
   <-> HelpModal.modal_display m = HelpModal.DisplayFlex) ->
  (if HelpModal.trigger m
   then HelpModal.alternate true (HelpModal.dispatched m) = true
        /\ HelpModal.isOpen m = Nat.odd (length (HelpModal.dispatched m))
   else HelpModal.dispatched m = []) ->
  let m' := HelpModal.step m e in
  (HelpModal.isOpen m' = true
   <-> HelpModal.modal_display m' = HelpModal.DisplayFlex)
  /\ (if HelpModal.trigger m'
      then HelpModal.alternate true (HelpModal.dispatched m') = true
           /\ HelpModal.isOpen m' = Nat.odd (length (HelpModal.dispatched m'))
      else HelpModal.dispatched m' = [])
  /\ HelpModal.trigger m' = HelpModal.trigger m
  /\ (HelpModal.is_destroy e = false ->
      (HelpModal.isOpen m = true ->
       HelpModal.body_overflow m = HelpModal.OverflowHidden) ->
      HelpModal.isOpen m' = true ->
      HelpModal.body_overflow m' = HelpModal.OverflowHidden).
Proof.
  destruct m as [isOpen disp over trig att body foc evs].
  cbn [HelpModal.isOpen HelpModal.modal_display HelpModal.trigger
       HelpModal.dispatched HelpModal.body_overflow].
  intros Hshown Hevents.
  assert (Hopen : forall m',
    m' = settled (HelpModal.open
                    (HelpModal.mk isOpen disp over trig att body foc evs)) ->
    (HelpModal.isOpen m' = true
     <-> HelpModal.modal_display m' = HelpModal.DisplayFlex)
    /\ (if HelpModal.trigger m'
        then HelpModal.alternate true (HelpModal.dispatched m') = true
             /\ HelpModal.isOpen m'
                = Nat.odd (length (HelpModal.dispatched m'))
        else HelpModal.dispatched m' = [])
    /\ HelpModal.trigger m' = trig
    /\ ((isOpen = true -> over = HelpModal.OverflowHidden) ->
        HelpModal.isOpen m' = true ->
        HelpModal.body_overflow m' = HelpModal.OverflowHidden)).
  { intros m' ->. unfold HelpModal.open. cbn.
    destruct isOpen; [by destruct trig|].
    destruct trig; cbn; [|done].
    destruct Hevents as [Halt Hodd].
    rewrite alternate_snoc, Halt, length_app, Nat.add_1_r, Nat.odd_succ,
      <- Nat.negb_odd, <- Hodd. done. }
  assert (Hclose : forall m',
    m' = settled (HelpModal.close
                    (HelpModal.mk isOpen disp over trig att body foc evs)) ->
    (HelpModal.isOpen m' = true
     <-> HelpModal.modal_display m' = HelpModal.DisplayFlex)
    /\ (if HelpModal.trigger m'
        then HelpModal.alternate true (HelpModal.dispatched m') = true
             /\ HelpModal.isOpen m'
                = Nat.odd (length (HelpModal.dispatched m'))
        else HelpModal.dispatched m' = [])
    /\ HelpModal.trigger m' = trig
    /\ ((isOpen = true -> over = HelpModal.OverflowHidden) ->
        HelpModal.isOpen m' = true ->
        HelpModal.body_overflow m' = HelpModal.OverflowHidden)).
  { intros m' ->. unfold HelpModal.close. cbn.
    destruct isOpen; cbn; [|by destruct trig].
    destruct trig; cbn; [|done].
    destruct Hevents as [Halt Hodd].
    rewrite alternate_snoc, Halt, length_app, Nat.add_1_r, Nat.odd_succ,
      <- Nat.negb_odd, <- Hodd. done. }
  assert (Hsame :
    (isOpen = true <-> disp = HelpModal.DisplayFlex)
    /\ (if trig
        then HelpModal.alternate true evs = true
             /\ isOpen = Nat.odd (length evs)
        else evs = [])
    /\ trig = trig
    /\ ((isOpen = true -> over = HelpModal.OverflowHidden) ->
        isOpen = true -> over = HelpModal.OverflowHidden)) by done.
  destruct e as [| | |newContent| | | |key]; cbn [HelpModal.step].
  - destruct (Hopen _ eq_refl) as (? & ? & ? & ?). by split_and!.
  - destruct (Hclose _ eq_refl) as (? & ? & ? & ?). by split_and!.
  - by split_and!.
  - by split_and!.
  - destruct trig eqn:Ht; cbn [HelpModal.trigger].
    + destruct (Hopen _ eq_refl) as (? & ? & ? & ?). by split_and!.
    + destruct Hsame as (? & ? & ? & ?). by split_and!.
  - destruct trig eqn:Ht; cbn [HelpModal.trigger].
    + destruct (Hclose _ eq_refl) as (? & ? & ? & ?). by split_and!.
    + destruct Hsame as (? & ? & ? & ?). by split_and!.
  - destruct trig eqn:Ht; cbn [HelpModal.trigger].
    + destruct (Hclose _ eq_refl) as (? & ? & ? & ?). by split_and!.
    + destruct Hsame as (? & ? & ? & ?). by split_and!.
  - cbn [HelpModal.trigger HelpModal.isOpen].
    destruct (trig && str_eqb key (js "Escape") && isOpen).
    + destruct (Hclose _ eq_refl) as (? & ? & ? & ?). by split_and!.
    + destruct Hsame as (? & ? & ? & ?). by split_and!.
Qed.

(** X21. Whatever methods are called and whatever the page does, a help
    modal is open exactly when its element is displayed; the custom
    events it dispatched are an open event, a close event, an open
    event, and so on, with an open one last exactly when it is open;
    without a trigger element it dispatches none. As long as [destroy]
    is not called, the page cannot scroll while the modal is open. *)
Theorem help_modal_is_open_iff_shown content trigger_found page_overflow
    page_focus es :
  let m :=
    HelpModal.run
      (HelpModal.init content trigger_found page_overflow page_focus) es in
  (HelpModal.isOpen m = true
   <-> HelpModal.modal_display m = HelpModal.DisplayFlex)
  /\ (if trigger_found
      then HelpModal.alternate true (HelpModal.dispatched m) = true
           /\ HelpModal.isOpen m = Nat.odd (length (HelpModal.dispatched m))
      else HelpModal.dispatched m = [])
  /\ (forallb (fun e => negb (HelpModal.is_destroy e)) es = true ->
      HelpModal.isOpen m = true ->
      HelpModal.body_overflow m = HelpModal.OverflowHidden).
Proof.
  intros m. subst m. unfold HelpModal.run.
  induction es as [|e es IH] using rev_ind.
  - cbn. split_and!; [done | by destruct trigger_found | done].
  - rewrite fold_left_app. cbn [fold_left].
    set (m := fold_left HelpModal.step es _) in *.
    destruct IH as (Hshown & Hevents & Hover).
    assert (Htrig : HelpModal.trigger m = trigger_found).
    { subst m. clear. induction es as [|e es IH] using rev_ind; [done|].
      rewrite fold_left_app. cbn [fold_left].
      set (m := fold_left HelpModal.step es _) in *.
      destruct m as [o d v t a b f l], e; cbn in *; subst t;
        unfold HelpModal.open, HelpModal.close; cbn;
        repeat (case_match; cbn); done. }
    rewrite <- Htrig in Hevents.
    destruct (help_modal_step m e Hshown Hevents) as (H1 & H2 & H3 & H4).
    cbv zeta in H1, H2, H3, H4. rewrite H3, Htrig in H2.
    split_and!; [done..|].
    rewrite forallb_app. cbn [forallb]. rewrite andb_true_r.
    intros [Hes He%negb_true_iff]%andb_true_iff. auto.
Qed.

(** X22. Opening a closed modal and closing it again leaves it closed and
    hidden, with the focus on the trigger and two more custom events; the
    page's own [overflow] is not restored but unset. Opening an open
    modal and closing a closed one do nothing. *)
Theorem help_modal_open_then_close m :
  HelpModal.trigger m = true ->
  (HelpModal.isOpen m = false ->
   settled (HelpModal.close (settled (HelpModal.open m)))
   = HelpModal.mk false HelpModal.DisplayNone HelpModal.OverflowUnset true
       (HelpModal.attached m) (HelpModal.body m) HelpModal.FocusTrigger
       (HelpModal.dispatched m
        ++ [HelpModal.HelpModalOpen; HelpModal.HelpModalClose]))
  /\ HelpModal.open (settled (HelpModal.open m))
     = Returned (settled (HelpModal.open m))
  /\ HelpModal.close (settled (HelpModal.close m))
     = Returned (settled (HelpModal.close m)).
Proof.
  destruct m as [o d v t a b f l]. cbn. intros ->. split_and!.
  - intros ->. cbn. by rewrite <- app_assoc.
  - by destruct o.
  - by destruct o.
Qed.

(** X23. Without a trigger element no handler is installed: nothing the
    page does changes the modal. A call of [open] then shows the modal
    and throws, and the modal stays open whatever the page does: neither
    the close button, nor the backdrop, nor the escape key closes it. *)
Theorem help_modal_without_trigger m :
  HelpModal.trigger m = false ->
  (forall es, forallb HelpModal.from_page es = true -> HelpModal.run m es = m)
  /\ (HelpModal.isOpen m = false ->
      exists m',
        HelpModal.open m = Thrown m'
        /\ HelpModal.isOpen m' = true
        /\ HelpModal.modal_display m' = HelpModal.DisplayFlex
        /\ HelpModal.body_overflow m' = HelpModal.OverflowHidden
        /\ HelpModal.dispatched m' = HelpModal.dispatched m
        /\ forall es, forallb HelpModal.from_page es = true ->
                      HelpModal.run m' es = m').
Proof.
  intros Htrig.
  assert (Hpage : forall m0, HelpModal.trigger m0 = false ->
            forall es, forallb HelpModal.from_page es = true ->
                       HelpModal.run m0 es = m0).
  { intros m0 H0 es. unfold HelpModal.run.
    induction es as [|e es IH]; [done|]. cbn [forallb fold_left].
    intros [He Hes]%andb_true_iff.
    assert (HelpModal.step m0 e = m0) as ->; [|by apply IH].
    destruct e; try done; cbn; by rewrite H0. }
  split; [by apply Hpage|].
  intros Hclosed. destruct m as [o d v t a b f l]. cbn in Htrig, Hclosed.
  subst o t. eexists. split; [reflexivity|]. split_and!; try done.
  by apply Hpage.
Qed.


(** ** The text on the page *)

Lemma render_from_length st chars :
  forall i, length (render_from st i chars) = length chars.
Proof.
  induction chars as [|c chars IH]; intros i; [done|].
  cbn [render_from length]. by rewrite IH.
Qed.

Lemma render_from_lookup st chars :
  forall i k char,
    chars !! k = Some char ->
    render_from st i chars !! k = head (render_from st (i + k) [char]).
Proof.
  induction chars as [|c chars IH]; intros i [|k] char Hk; try done.
  - injection Hk as ->. by rewrite Nat.add_0_r.
  - cbn [render_from]. rewrite lookup_cons. cbn [lookup] in Hk.
    rewrite (IH (S i) k char Hk). by replace (S i + k) with (i + S k) by lia.
Qed.

Lemma render_from_cursor st chars :
  forall i,
    length (filter (fun s => at_cursor s = true) (render_from st i chars))
    = if decide (i <= length (typedText st) < i + length chars)
      then 1 else 0.
Proof.
  induction chars as [|c chars IH]; intros i.
  - cbn. by rewrite decide_False by lia.
  - cbn [render_from]. cbn [length].
    destruct (decide (i = length (typedText st))) as [Hi|Hi].
    + rewrite filter_cons_True.
      * cbn [length]. rewrite IH, !decide_False, decide_True by lia. done.
      * unfold at_cursor. cbn [className].
        destruct (decide (i < length (typedText st))); [lia|]. done.
    + rewrite filter_cons_False.
      * rewrite IH.
        destruct (decide (S i <= length (typedText st)
                          < S i + length chars)).
        -- by rewrite decide_True by lia.
        -- by rewrite decide_False by lia.
      * unfold at_cursor. cbn [className]. apply not_true_iff_false.
        by repeat case_match.
Qed.


(** X24. What [renderText] writes in a state of a session of the page.
    When the exercise is complete, the typed text without its trailing
    white space being as long as the reference text, it writes nothing
    and the container keeps what it held. Otherwise it writes one span
    per code unit of the reference text; exactly one span carries the
    cursor: the one at the typed length, or a span of its own at the end
    when everything is typed. The class of a span before the typed length
    is the entry of [charStates] for it, which is never a hole, and the
    class of the others is [char-pending]: that is their entry too when
    the keyboard is disabled or no action makes [highlightKey] throw. *)
Theorem spans_show_charStates toLowerCase {Element : Type}
    `{EqDecision Element}
    (keyboardContainer : option (jsstring -> option (option Element)))
    completionScreen realtimeStatsContainer realTimeStats inherited keys
    enabled now before text after :
  let st :=
    vars (page_session toLowerCase keyboardContainer completionScreen
            realtimeStatsContainer realTimeStats inherited keys enabled now
            before text after) in
  let typedLength := length (typedText st) in
  match renderText_spans st with
  | None => length (trimEnd (typedText st)) = length (originalText st)
  | Some spans =>
      length (trimEnd (typedText st)) <> length (originalText st)
      /\ length spans
         = length (originalText st)
           + (if decide (typedLength = length (originalText st))
              then 1 else 0)
      /\ length (filter (fun s => at_cursor s = true) spans) = 1
      /\ (exists s, spans !! typedLength = Some s /\ at_cursor s = true)
      /\ forall i char,
           originalText st !! i = Some char ->
           exists state,
             charStates st !! i = Some state /\ state <> Undefined
             /\ spans !! i
                = Some (mkSpan
                          ((if decide (i < typedLength) then class_of state
                            else js "char-pending")
                           ++ (if decide (i = typedLength)
                               then js " cursor-position" else []))
                          (if (char =? 32)%N then Nbsp
                           else if (char =? 10)%N then Br else Escaped char))
             /\ (calm toLowerCase keyboardContainer keys enabled
                   (before ++ after) = true ->
                 typedLength <= i -> state = Pending)
  end.
Proof.
  intros st typedLength.
  destruct (sound_page_session toLowerCase keyboardContainer
              completionScreen realtimeStatsContainer realTimeStats inherited
              keys enabled now before text after)
    as (Hlen & Hle & Hmarks & Hholes & _).
  destruct (page_session_fixed toLowerCase keyboardContainer
              completionScreen realtimeStatsContainer realTimeStats inherited
              keys enabled now before text after) as (Horig & _).
  fold st in Hlen, Hle, Hmarks, Hholes, Horig.
  fold typedLength in Hle, Hmarks.
  assert (Htrim : trimEnd (originalText st) = originalText st)
    by (by rewrite Horig, trimEnd_idemp).
  unfold renderText_spans, renderText, isComplete. rewrite Htrim.
  destruct (bool_decide (length (trimEnd (typedText st))
                         = length (originalText st))) eqn:Hdone;
    [by apply bool_decide_eq_true in Hdone|].
  apply bool_decide_eq_false in Hdone.
  assert (Hspan : forall i char,
    originalText st !! i = Some char ->
    exists state,
      charStates st !! i = Some state /\ state <> Undefined
      /\ typing_spans st !! i
         = Some (mkSpan
                   ((if decide (i < typedLength) then class_of state
                     else js "char-pending")
                    ++ (if decide (i = typedLength)
                        then js " cursor-position" else []))
                   (if (char =? 32)%N then Nbsp
                    else if (char =? 10)%N then Br else Escaped char))
      /\ (calm toLowerCase keyboardContainer keys enabled
            (before ++ after) = true ->
          typedLength <= i -> state = Pending)).
  { intros i char Hi. pose proof (lookup_lt_Some _ _ _ Hi) as Hlt.
    destruct (charStates st !! i) as [state|] eqn:Hstate;
      [|apply lookup_ge_None in Hstate; lia].
    exists state. split; [done|]. split.
    { rewrite Forall_forall in Hholes. apply Hholes.
      by eapply list_elem_of_lookup_2. }
    split.
    - unfold typing_spans.
      rewrite lookup_app_l by (by rewrite render_from_length).
      rewrite (render_from_lookup st _ 0 i char Hi). cbn [Nat.add].
      cbn [render_from head]. rewrite Hstate. fold typedLength.
      destruct (decide (i < typedLength)) as [Htyped|Hrest].
      + assert (Hin : take typedLength (charStates st) !! i = Some state)
          by (by rewrite lookup_take_lt).
        rewrite Forall_forall in Hmarks.
        destruct (Hmarks state) as [-> | ->];
          [by eapply list_elem_of_lookup_2 | ..];
          destruct (decide (i = typedLength)); (lia || done).
      + by destruct (decide (i = typedLength)).
    - intros Hcalm Hrest.
      destruct (calm_page_session toLowerCase keyboardContainer
                  completionScreen realtimeStatsContainer realTimeStats
                  inherited keys enabled now before text after Hcalm)
        as (es1 & es2 & Hst).
      fold st in Hst.
      destruct (consistent_session toLowerCase keys es1 text es2)
        as (ts & Hcs & Hts_len & _).
      rewrite <- Hst in Hcs, Hts_len. fold typedLength in Hcs, Hts_len.
      rewrite Hcs, lookup_app_r in Hstate by lia.
      by apply lookup_replicate in Hstate as [-> _]. }
  split_and!.
  - done.
  - unfold typing_spans. rewrite length_app, render_from_length.
    fold typedLength. by destruct (decide _).
  - unfold typing_spans. rewrite filter_app, length_app, render_from_cursor.
    fold typedLength. cbn [Nat.add].
    destruct (decide (typedLength = length (originalText st))) as [Heq|Hne].
    + rewrite decide_False by lia. done.
    + rewrite decide_True by lia. done.
  - destruct (decide (typedLength = length (originalText st))) as [Heq|Hne].
    + exists (mkSpan (js "char-pending cursor-position") Nbsp).
      unfold typing_spans. fold typedLength.
      rewrite lookup_app_r by (rewrite render_from_length; lia).
      rewrite render_from_length, decide_True by done.
      by replace (typedLength - length (originalText st)) with 0 by lia.
    + destruct (lookup_lt_is_Some_2 (originalText st) typedLength)
        as [char Hchar]; [lia|].
      destruct (Hspan typedLength char Hchar) as (state & _ & _ & -> & _).
      eexists. split; [done|]. unfold at_cursor. cbn [className].
      rewrite decide_False by lia. by rewrite decide_True by done.
  - exact Hspan.
Qed.


(** ** More on the statistics *)

Lemma elapsed_minutes_positive (d : Z) :
  Qpositive (inject_Z d / 1000 / 60) = true <-> (0 < d)%Z.
Proof.
  rewrite Qpositive_spec. unfold Qlt, Qdiv, Qmult, Qinv, inject_Z. cbn.
  lia.
Qed.

(** X25. The live statistics and the final ones are the same figures:
    once the clock runs, at the same reading of the clock
    [calculateStatistics] and [calculateRealtimeStats] give the same
    errors, errors left, time, accuracy and speed. The speed is never
    negative, and it is positive exactly when the clock has advanced
    since the start and the reference text has a word. *)
Theorem live_and_final_statistics_agree st now :
  match calculateStatistics st now, startTime st with
  | Some stats, Some start =>
      let live := calculateRealtimeStats st now in
      Final.totalErrors stats = Live.errors live
      /\ Final.errorsLeft stats = Live.errorsLeft live
      /\ Final.totalTime stats = Live.time live
      /\ Final.accuracy stats = Live.accuracy live
      /\ Final.speed stats = Live.speed live
      /\ (0 <= Final.speed stats)%Q
      /\ ((0 < Final.speed stats)%Q
          <-> (start < now)%Z /\ 0 < wordsTyped (originalText st))
  | None, None => True
  | _, _ => False
  end.
Proof.
  unfold calculateStatistics, calculateRealtimeStats.
  destruct (startTime st) as [start|]; [|done].
  cbn [Final.totalErrors Final.errorsLeft Final.totalTime Final.accuracy
       Final.speed Live.errors Live.errorsLeft Live.time Live.accuracy
       Live.speed].
  split_and!; try done.
  - destruct (Qpositive _) eqn:Hpos; [|done].
    apply Qpositive_spec in Hpos. apply Qle_shift_div_l; [done|].
    rewrite Qmult_0_l. unfold Qle. cbn. lia.
  - destruct (Qpositive _) eqn:Hpos.
    + pose proof Hpos as Hd. apply elapsed_minutes_positive in Hd.
      apply Qpositive_spec in Hpos. split.
      * intros Hspeed. split; [lia|].
        destruct (wordsTyped (originalText st)) as [|w]; [|lia].
        exfalso. revert Hspeed. unfold Qdiv. rewrite Qmult_0_l.
        apply Qlt_irrefl.
      * intros [_ Hwords]. apply Qlt_shift_div_l; [done|].
        rewrite Qmult_0_l. unfold Qlt. cbn. lia.
    + split; [intros H; by apply Qlt_irrefl in H|].
      intros [Hd _].
      assert (Hpos' : Qpositive (inject_Z (now - start) / 1000 / 60) = true)
        by (apply elapsed_minutes_positive; lia).
      congruence.
Qed.


(** ** The time on the live display *)

Lemma toFixed_two x : toFixed 2 x = toFixed2 x.
Proof.
  assert (Habs : forall y, toFixed_abs 2 y = toFixed2_abs y).
  { intros y. unfold toFixed_abs, toFixed2_abs.
    replace (2 * 10 ^ Z.of_nat 2 * Qnum y)%Z with (200 * Qnum y)%Z by lia.
    done. }
  unfold toFixed, toFixed2. by rewrite !Habs.
Qed.

Lemma toFixed_sixty x :
  (5995 # 100 <= x)%Q -> (x < 60)%Q -> toFixed 1 x = js "60.0".
Proof.
  destruct x as [num den]. unfold Qle, Qlt. cbn [Qnum Qden].
  intros Hlow Hhigh. unfold toFixed. cbn [Qnum].
  assert (Hsign : (num <? 0)%Z = false) by (apply Z.ltb_ge; lia).
  rewrite Hsign. unfold toFixed_abs.
  assert (Hbig : Qle_bool (10 ^ 21) (num # den) = false).
  { apply not_true_iff_false. rewrite Qle_bool_iff. unfold Qle.
    cbn [Qnum Qden]. change (Qnum (10 ^ 21)) with (10 ^ 21)%Z.
    change (Z.pos (Qden (10 ^ 21))) with 1%Z. lia. }
  rewrite Hbig. cbn [Qnum Qden].
  assert (Hn : ((2 * 10 ^ Z.of_nat 1 * num + Z.pos den) / (2 * Z.pos den)
                = 600)%Z).
  { change (10 ^ Z.of_nat 1)%Z with 10%Z. symmetry.
    apply (Z.div_unique_pos _ _ 600
             (2 * 10 * num + Z.pos den - 600 * (2 * Z.pos den))); lia. }
  rewrite Hn. by vm_compute.
Qed.

(** X30. The seconds on the live display can read 60.0: a time whose
    seconds beyond the full minutes are more than 59.95 is shown as
    [60.0s] below one minute, and with the minutes that have passed and
    [60.0s] from one minute on. *)
Theorem seconds_can_read_sixty (ms : Z) :
  (0 <= ms)%Z -> (59950 < ms mod 60000)%Z ->
  format_time (inject_Z ms / 1000)
  = (if (ms <? 60000)%Z then []
     else Number_toString (Z.to_N (ms / 60000)) ++ js "m ")
    ++ js "60.0s".
Proof.
  intros Hpos Hmod.
  pose proof (Z.div_mod ms 60000) as Hdm.
  pose proof (Z.mod_pos_bound ms 60000) as Hbound.
  unfold format_time.
  destruct (Z.ltb_spec ms 60000) as [Hlt|Hge].
  - assert (Hbranch : Qle_bool 60 (inject_Z ms / 1000) = false).
    { apply not_true_iff_false. rewrite Qle_bool_iff.
      unfold Qle, Qdiv, Qmult, Qinv, inject_Z. cbn. lia. }
    rewrite Hbranch. cbn [negb app].
    rewrite Z.mod_small in Hmod by lia.
    rewrite toFixed_sixty; [done| |].
    + unfold Qle, Qdiv, Qmult, Qinv, inject_Z. cbn. lia.
    + unfold Qlt, Qdiv, Qmult, Qinv, inject_Z. cbn. lia.
  - assert (Hbranch : Qle_bool 60 (inject_Z ms / 1000) = true).
    { rewrite Qle_bool_iff.
      unfold Qle, Qdiv, Qmult, Qinv, inject_Z. cbn. lia. }
    rewrite Hbranch. cbn [negb].
    assert (Hminutes : Qfloor (inject_Z ms / 1000 / 60) = (ms / 60000)%Z).
    { unfold Qfloor, Qdiv, Qmult, Qinv, inject_Z. cbn.
      by rewrite !Z.mul_1_r. }
    rewrite Hminutes.
    revert Hmod Hdm Hbound. generalize (ms mod 60000)%Z (ms / 60000)%Z.
    intros r m Hmod Hdm Hbound.
    rewrite toFixed_sixty; [by rewrite <- app_assoc| |].
    + unfold Qle, Qminus, Qplus, Qopp, Qdiv, Qmult, Qinv, inject_Z. cbn. lia.
    + unfold Qlt, Qminus, Qplus, Qopp, Qdiv, Qmult, Qinv, inject_Z. cbn. lia.
Qed.


(** ** Concrete runs *)

Lemma ordinary_key_available_iff_configured_witness :
  ~ always_available toLowerCase_basic (js "a")
  /\ (isKeyAvailable toLowerCase_basic
        (loadConfig toLowerCase_basic [js "A"; js "s"]) (js "a") = true
      <-> [js "A"; js "s"] = []
          \/ exists k, k ∈ [js "A"; js "s"]
                       /\ toLowerCase_basic k = toLowerCase_basic (js "a")).
Proof.
  assert (H : ~ always_available toLowerCase_basic (js "a")).
  { unfold always_available. rewrite !elem_of_cons, !elem_of_nil.
    vm_compute. intros H. decompose [or] H; (discriminate || contradiction). }
  split; [exact H|].
  apply (ordinary_key_available_iff_configured toLowerCase_basic
           [js "A"; js "s"] (js "a") H); vm_compute; discriminate.
Defined.

Lemma tab_available_iff_named_witness :
  toLowerCase_basic (js "Tab") = js "tab"
  /\ toLowerCase_basic [9%N] = [9%N]
  /\ let keys := loadConfig toLowerCase_basic [js "a"; js "TAB"] in
     (isKeyAvailable toLowerCase_basic keys [9%N] = true
      <-> [js "a"; js "TAB"] = []
          \/ exists k, k ∈ [js "a"; js "TAB"]
                       /\ toLowerCase_basic k = js "tab")
     /\ isKeyAvailable toLowerCase_basic keys (js "Tab")
        = isKeyAvailable toLowerCase_basic keys [9%N]
     /\ ([js "a"; js "TAB"] = [[9%N]] ->
         isKeyAvailable toLowerCase_basic keys [9%N] = false).
Proof.
  split; [reflexivity|]. split; [reflexivity|].
  apply (tab_available_iff_named toLowerCase_basic [js "a"; js "TAB"]);
    reflexivity.
Defined.

Lemma thrown_highlight_leaves_typedText_behind_witness :
  let st := session toLowerCase_basic ∅ [] (js "ab") [] in
  let kb := initial_keyboard (Element := nat) true in
  let r := settled (handleInput_keyboard toLowerCase_basic sample_container
                      st kb [34%N] 0) in
  consistent st
  /\ handleInput_keyboard toLowerCase_basic sample_container st kb [34%N] 0
     = Thrown (r.1, r.2)
  /\ length (typedText st)
     < length (effectiveInput toLowerCase_basic st [34%N])
  /\ exists n c,
       effectiveInput toLowerCase_basic st [34%N]
         !! (length (typedText st) + n) = Some c
       /\ raises toLowerCase_basic sample_container (availableKeysSet st)
            [c] = true
       /\ typedText r.1 = typedText st
       /\ originalText r.1 = originalText st
       /\ availableKeysSet r.1 = availableKeysSet st
       /\ totalInputs r.1 = (totalInputs st + N.of_nat (S n))%N
       /\ countTyped (charStates r.1) = length (typedText r.1) + S n
       /\ ~ consistent r.1.
Proof.
  intros st kb r.
  assert (H1 : consistent st)
    by exact (consistent_session toLowerCase_basic ∅ [] (js "ab") []).
  assert (H2 : handleInput_keyboard toLowerCase_basic sample_container st kb
                 [34%N] 0 = Thrown (r.1, r.2)) by (by vm_compute).
  assert (H3 : length (typedText st)
               < length (effectiveInput toLowerCase_basic st [34%N]))
    by (vm_compute; lia).
  split; [exact H1|]. split; [exact H2|]. split; [exact H3|].
  exact (thrown_highlight_leaves_typedText_behind toLowerCase_basic
           sample_container st kb [34%N] 0 r.1 r.2 H1 H2 H3).
Defined.

Lemma typing_stalls_when_highlight_throws_witness :
  let st := session toLowerCase_basic ∅ [] (js "ab") [] in
  let kb := initial_keyboard (Element := nat) true in
  let vs := [([34%N], 10%Z); ([34; 98]%N, 20%Z)] in
  keyboardEnabled kb = true
  /\ Forall (fun v : jsstring * Z =>
               exists c,
                 effectiveInput toLowerCase_basic st v.1
                   !! length (typedText st) = Some c
                 /\ raises toLowerCase_basic sample_container
                      (availableKeysSet st) [c] = true) vs
  /\ let r := fold_left (input_step toLowerCase_basic sample_container) vs
                (st, kb) in
     typedText r.1 = typedText st
     /\ totalInputs r.1 = (totalInputs st + N.of_nat (length vs))%N.
Proof.
  intros st kb vs.
  assert (H1 : keyboardEnabled kb = true) by reflexivity.
  assert (H2 : Forall (fun v : jsstring * Z =>
               exists c,
                 effectiveInput toLowerCase_basic st v.1
                   !! length (typedText st) = Some c
                 /\ raises toLowerCase_basic sample_container
                      (availableKeysSet st) [c] = true) vs).
  { repeat constructor; exists 34%N; split; by vm_compute. }
  split; [exact H1|]. split; [exact H2|].
  exact (typing_stalls_when_highlight_throws toLowerCase_basic
           sample_container vs st kb H1 H2).
Defined.

Lemma help_modal_open_then_close_witness :
  let m := HelpModal.init (js "Type the text.") true
             HelpModal.OverflowOther HelpModal.FocusElsewhere in
  HelpModal.trigger m = true
  /\ (HelpModal.isOpen m = false ->
      settled (HelpModal.close (settled (HelpModal.open m)))
      = HelpModal.mk false HelpModal.DisplayNone HelpModal.OverflowUnset true
          (HelpModal.attached m) (HelpModal.body m) HelpModal.FocusTrigger
          (HelpModal.dispatched m
           ++ [HelpModal.HelpModalOpen; HelpModal.HelpModalClose]))
  /\ HelpModal.open (settled (HelpModal.open m))
     = Returned (settled (HelpModal.open m))
  /\ HelpModal.close (settled (HelpModal.close m))
     = Returned (settled (HelpModal.close m)).
Proof.
  intros m. split; [reflexivity|].
  apply (help_modal_open_then_close m). reflexivity.
Defined.

Lemma help_modal_without_trigger_witness :
  let m := HelpModal.init (js "Type the text.") false
             HelpModal.OverflowUnset HelpModal.FocusElsewhere in
  HelpModal.trigger m = false
  /\ (forall es, forallb HelpModal.from_page es = true ->
                 HelpModal.run m es = m)
  /\ (HelpModal.isOpen m = false ->
      exists m',
        HelpModal.open m = Thrown m'
        /\ HelpModal.isOpen m' = true
        /\ HelpModal.modal_display m' = HelpModal.DisplayFlex
        /\ HelpModal.body_overflow m' = HelpModal.OverflowHidden
        /\ HelpModal.dispatched m' = HelpModal.dispatched m
        /\ forall es, forallb HelpModal.from_page es = true ->
                      HelpModal.run m' es = m').
Proof.
  intros m. split; [reflexivity|].
  apply (help_modal_without_trigger m). reflexivity.
Defined.

Lemma seconds_can_read_sixty_witness :
  (0 <= 119960)%Z /\ (59950 < 119960 mod 60000)%Z
  /\ format_time (inject_Z 119960 / 1000) = js "1m 60.0s".
Proof.
  assert (H1 : (0 <= 119960)%Z) by lia.
  assert (H2 : (59950 < 119960 mod 60000)%Z) by (vm_compute; reflexivity).
  split; [exact H1|]. split; [exact H2|].
  exact (seconds_can_read_sixty 119960 H1 H2).
Defined.


(** ** The typed length and the character states *)

(** C1, and where the script misses it. In every session of the page the
    typed positions are among those that are not ['pending'], and the
    length of [typedText] is the number of entries of [charStates] that
    are not ['pending'] when the keyboard is disabled or no action makes
    [highlightKey] throw. With the keyboard enabled, as it is by default,
    the script misses the invariant: on the reference text [ab], an input
    event whose value is a double quote marks the first position and
    counts it, [highlightKey] throws on the selector of that key, and
    [typedText] is left empty with one entry that is not ['pending']. *)
Theorem typed_length_counts_states :
  (forall toLowerCase (Element : Type) (dec : EqDecision Element)
          (keyboardContainer : option (jsstring -> option (option Element)))
          completionScreen realtimeStatsContainer realTimeStats inherited
          keys enabled now before text after,
     let st :=
       vars (page_session toLowerCase keyboardContainer completionScreen
               realtimeStatsContainer realTimeStats inherited keys enabled
               now before text after) in
     length (typedText st) <= countTyped (charStates st)
     /\ (calm toLowerCase keyboardContainer keys enabled (before ++ after)
         = true ->
         length (typedText st) = countTyped (charStates st)))
  /\ let st :=
       vars (page_session toLowerCase_basic sample_container true true [] ∅
               ∅ true 0 [] (js "ab") [InputEvent [34%N] 1 2]) in
     typedText st = [] /\ charStates st = [Incorrect; Pending]
     /\ totalInputs st = 1%N /\ totalErrors st = 1%N
     /\ length (typedText st) = 0 /\ countTyped (charStates st) = 1.
Proof.
  split.
  - intros toLowerCase Element dec keyboardContainer completionScreen
      realtimeStatsContainer realTimeStats inherited keys enabled now before
      text after.
    apply typed_length_page_session.
  - by vm_compute.
Qed.

(** ** Concrete runs on the page *)

Lemma handleInput_repeated_witness :
  let pg :=
    page_session toLowerCase_basic sample_container true true [] ∅ ∅ true 0
      [] (js "ab") [] in
  let pg' :=
    settled (handleInput_page toLowerCase_basic sample_container true true
               [] ∅ pg (js "a") 1 2) in
  handleInput_page toLowerCase_basic sample_container true true [] ∅ pg
    (js "a") 1 2 = Returned pg'
  /\ vars (settled (handleInput_page toLowerCase_basic sample_container true
                      true [] ∅ pg' (js "a") 3 4)) = vars pg'
  /\ keyboard (settled (handleInput_page toLowerCase_basic sample_container
                          true true [] ∅ pg' (js "a") 3 4)) = keyboard pg'.
Proof.
  intros pg pg'.
  assert (H1 : handleInput_page toLowerCase_basic sample_container true true
                 [] ∅ pg (js "a") 1 2 = Returned pg') by (by vm_compute).
  split; [exact H1|].
  exact (handleInput_repeated toLowerCase_basic sample_container true true
           [] ∅ pg (js "a") 1 2 3 4 pg' H1).
Defined.

Lemma typing_the_reference_text_witness :
  let clock := fun k : nat => (10 * Z.of_nat k)%Z in
  let later := fun k : nat => (10 * Z.of_nat k + 1)%Z in
  (true = false
   \/ Forall (fun c => raises toLowerCase_basic sample_container ∅ [c]
                       = false) (trimEnd (js "ab ")))
  /\ let st :=
       vars (page_session toLowerCase_basic sample_container true true [] ∅
               ∅ true 0 [] (js "ab ")
               (typing_page (trimEnd (js "ab ")) clock later 2)) in
     let total := length (trimEnd (js "ab ")) in
     typedText st = take 2 (trimEnd (js "ab "))
     /\ charStates st
        = replicate (2 `min` total) Correct ++ replicate (total - 2) Pending
     /\ totalErrors st = 0%N
     /\ totalInputs st = N.of_nat (2 `min` total)
     /\ renderText st
        = (if decide (total <= 2) then CompletionScreen else TypingText)
     /\ match calculateStatistics st 50 with
        | Some stats => (Final.accuracy stats == 100)%Q
        | None => 2 = 0 \/ total = 0
        end.
Proof.
  intros clock later.
  assert (H1 : true = false
               \/ Forall (fun c => raises toLowerCase_basic sample_container
                                     ∅ [c] = false) (trimEnd (js "ab "))).
  { right. by repeat constructor. }
  split; [exact H1|].
  exact (typing_the_reference_text toLowerCase_basic sample_container true
           true [] ∅ true 0 (js "ab ") clock later 2 50 H1).
Defined.

Lemma blank_reference_is_complete_witness :
  let text := [32; 10; 9]%N in
  forallb is_space text = true
  /\ let pg :=
       page_session toLowerCase_basic sample_container true true [] ∅
         home_row true 0 [] text [InputEvent (js "a") 5 6] in
     let st := vars pg in
     renderText st = CompletionScreen
     /\ originalText st = [] /\ typedText st = [] /\ charStates st = []
     /\ totalErrors st = 0%N /\ totalInputs st = 0%N
     /\ match calculateStatistics st 7 with
        | None => startTime st = None
        | Some stats =>
            startTime st <> None
            /\ Final.totalErrors stats = 0%N /\ Final.errorsLeft stats = 0%N
            /\ (Final.accuracy stats == 0)%Q /\ (Final.speed stats == 0)%Q
        end
     /\ (forall value t later,
           startTime
             (vars (page_act toLowerCase_basic sample_container true true []
                      ∅ pg (InputEvent value t later))) = None
           <-> startTime st = None
               /\ (if decide (0 < size home_row)
                   then filterInput toLowerCase_basic home_row value
                   else value) = [])
     /\ (forall t,
           startTime
             (vars (page_act toLowerCase_basic sample_container true true []
                      ∅ pg (RestartClick t))) = None).
Proof.
  intros text.
  assert (H1 : forallb is_space text = true) by reflexivity.
  split; [exact H1|].
  exact (blank_reference_is_complete toLowerCase_basic sample_container true
           true [] ∅ home_row true 0 [] text [InputEvent (js "a") 5 6] 7 H1).
Defined.

Lemma enter_blocked_only_when_full_witness :
  let pg :=
    page_session toLowerCase_basic sample_container true true [] ∅ home_row
      true 0 [] (js "asd") [] in
  (js "Enter" = js "Enter" \/ js "Enter" = js "Return")
  /\ handleKeyDown toLowerCase_basic sample_container true true [] ∅ pg
       (js "Enter") (js "as") 2 0 1
     = Returned
         (mkKeyDown
            (bool_decide (length (originalText (vars pg))
                          <= length (js "as")))
            (js "as") false
            (negb (bool_decide (length (originalText (vars pg))
                                <= length (js "as")))
             && keyboardEnabled (keyboard pg))
            pg).
Proof.
  intros pg.
  assert (H1 : js "Enter" = js "Enter" \/ js "Enter" = js "Return")
    by (by left).
  split; [exact H1|].
  exact (enter_blocked_only_when_full toLowerCase_basic sample_container true
           true [] ∅ pg (js "Enter") (js "as") 2 0 1 H1).
Defined.

Lemma unavailable_key_is_cancelled_witness :
  let pg :=
    page_session toLowerCase_basic sample_container true true [] ∅ home_row
      true 0 [] (js "as") [] in
  toLowerCase_basic [9%N] = [9%N]
  /\ isKeyAvailable toLowerCase_basic (availableKeysSet (vars pg)) (js "q")
     = false
  /\ handleKeyDown toLowerCase_basic sample_container true true [] ∅ pg
       (js "q") (js "a") 1 0 1
     = Returned (mkKeyDown true (js "a") false false pg).
Proof.
  intros pg.
  assert (H1 : toLowerCase_basic [9%N] = [9%N]) by reflexivity.
  assert (H2 : isKeyAvailable toLowerCase_basic (availableKeysSet (vars pg))
                 (js "q") = false) by (by vm_compute).
  split; [exact H1|]. split; [exact H2|].
  exact (unavailable_key_is_cancelled toLowerCase_basic sample_container true
           true [] ∅ pg (js "q") (js "a") 1 0 1 H1 H2).
Defined.

Lemma key_policy_is_a_filter_witness :
  let pg :=
    page_session toLowerCase_basic sample_container true true [] ∅ home_row
      true 0 [] (js "as") [] in
  let st := vars pg in
  (keyboardEnabled (keyboard pg) = false
   \/ quiet toLowerCase_basic sample_container (availableKeysSet (vars pg))
        (InputEvent (js "qa") 1 2) = true)
  /\ vars (settled (handleInput_page toLowerCase_basic sample_container true
                      true [] ∅ pg (js "qa") 1 2))
     = Plain.handleInput st
         (if decide (0 < size (availableKeysSet st))
          then filterInput toLowerCase_basic (availableKeysSet st) (js "qa")
          else js "qa") 1
  /\ vars (settled (restart_page true true [] ∅ pg 1)) = Plain.restart st
  /\ (forall key selectionStart,
        key <> js "Enter" -> key <> js "Return" -> key <> js "Tab" ->
        isKeyAvailable toLowerCase_basic (availableKeysSet st) key = true ->
        handleKeyDown toLowerCase_basic sample_container true true [] ∅ pg
          key (js "qa") selectionStart 1 2
        = Returned
            (mkKeyDown (Plain.handleKeyDown key (js "qa")) (js "qa") false
               false pg)).
Proof.
  intros pg st.
  assert (H1 : keyboardEnabled (keyboard pg) = false
               \/ quiet toLowerCase_basic sample_container
                    (availableKeysSet (vars pg)) (InputEvent (js "qa") 1 2)
                  = true) by (right; by vm_compute).
  split; [exact H1|].
  exact (key_policy_is_a_filter toLowerCase_basic sample_container true true
           [] ∅ pg (js "qa") 1 2 H1).
Defined.

Lemma live_statistics_interval_witness :
  let realTimeStats := [js "speed"; js "pace"; js "chars"] in
  let inherited : gset jsstring := {[js "constructor"]} in
  let before := [InputEvent (js "x") 50 51] in
  let after := [InputEvent (js "a") 100 101; InputEvent (js "ab") 200 201] in
  true = true /\ realTimeStats <> []
  /\ (forall k, k ∈ realTimeStats -> k ∉ inherited)
  /\ let pg :=
       page_session toLowerCase_basic sample_container true true
         realTimeStats inherited ∅ true 0 before (js "ab") after in
     (realtimeStatsInterval (live pg) <> None -> startTime (vars pg) <> None)
     /\ intervals (live pg) = running (realtimeStatsInterval (live pg))
     /\ (calm toLowerCase_basic sample_container ∅ true (before ++ after)
         = true ->
         (realtimeStatsInterval (live pg) = None
          <-> startTime (vars pg) = None))
     /\ forall id now,
          id ∈ intervals (live pg) ->
          let rt :=
            live (page_act toLowerCase_basic sample_container true true
                    realTimeStats inherited
                    (page_act toLowerCase_basic sample_container true true
                       realTimeStats inherited pg StatsHidden)
                    (IntervalRound id now)) in
          stats_display rt = DisplayFlex
          /\ length (stat_items rt) = length (known_keys realTimeStats)
          /\ realtimeStatsInterval rt = Some id.
Proof.
  intros realTimeStats inherited before after.
  assert (H1 : true = true) by reflexivity.
  assert (H2 : realTimeStats <> []) by discriminate.
  assert (H3 : forall k, k ∈ realTimeStats -> k ∉ inherited).
  { intros k Hk Hinh. apply elem_of_singleton in Hinh. subst k.
    unfold realTimeStats in Hk. rewrite !elem_of_cons, elem_of_nil in Hk.
    decompose [or] Hk; (discriminate || contradiction). }
  split; [exact H1|]. split; [exact H2|]. split; [exact H3|].
  exact (live_statistics_interval toLowerCase_basic sample_container true
           true realTimeStats inherited H1 H2 H3 ∅ true 0 before (js "ab")
           after).
Defined.

Lemma inherited_key_stops_live_statistics_witness :
  let realTimeStats := [js "speed"; js "constructor"] in
  let inherited : gset jsstring := {[js "constructor"]} in
  let es := [PageLoad (js "ab"); PageAct (InputEvent (js "a") 100 101)] in
  true = true /\ (js "constructor" ∈ realTimeStats)
  /\ (js "constructor" ∈ inherited) /\ (js "constructor" ∉ stat_keys)
  /\ (forall st now rt, exists rt',
        updateRealtimeStats true realTimeStats inherited st now rt
        = Thrown rt'
        /\ realtimeStatsInterval rt' = realtimeStatsInterval rt
        /\ intervals rt' = intervals rt)
  /\ let pg :=
       page_run toLowerCase_basic sample_container true true realTimeStats
         inherited (initial_page true realTimeStats inherited ∅ true 0) es in
     realtimeStatsInterval (live pg) = None /\ intervals (live pg) = ∅.
Proof.
  intros realTimeStats inherited es.
  assert (H1 : true = true) by reflexivity.
  assert (H2 : js "constructor" ∈ realTimeStats)
    by (unfold realTimeStats; rewrite !elem_of_cons; tauto).
  assert (H3 : js "constructor" ∈ inherited) by (by apply elem_of_singleton).
  assert (H4 : js "constructor" ∉ stat_keys).
  { unfold stat_keys. rewrite !elem_of_cons, elem_of_nil.
    intros H; decompose [or] H; (discriminate || contradiction). }
  split; [exact H1|]. split; [exact H2|]. split; [exact H3|].
  split; [exact H4|].
  exact (inherited_key_stops_live_statistics toLowerCase_basic
           sample_container true true realTimeStats inherited
           (js "constructor") ∅ true 0 es H1 H2 H3 H4).
Defined.
